(** * QR Code symbol construction (versions 1 and 2, level L)

    A shallow embedding of the encoder in [data_encoding.py],
    [error_correction.py], [matrix_layout.py], [matrix_masking.py] and of
    the pipeline of [app.py], followed by the properties of the
    specification that were checked against it.

    Conventions of the embedding.
    - A Python [int] is a [Z]; list indices are [Z] and follow Python's
      rules (a negative index counts from the end, anything else out of
      range raises [IndexError]).
    - A Python exception is a value [Raise e] of the [result] monad; every
      [raise] site of the sources has its own constructor.
    - A cell of a module matrix is one of the three kinds of Python value the
      sources store there: an [int], the string ['R'] or [None].
    - A Python [str] over the alphabet ['0'], ['1'] (bit strings, codewords,
      format strings) is a [list bool], [true] standing for ['1'].
    - In-place mutation of the matrix is explicit state passing. *)

From Stdlib Require Import ZArith Lia Bool PrimFloat FloatOps Uint63 SpecFloat.
From stdpp Require Import base tactics option numbers list.

Open Scope Z_scope.

(** ** Exceptions and the result monad *)

Inductive exn : Type :=
| InvalidCharacter   (* ValueError: Data contains characters outside ISO-8859-1. *)
| PayloadTooLong     (* ValueError: Input too long for Version 2 L (max 32 bytes). *)
| BadMaskId          (* ValueError: Mask ID must be 0-7. *)
| DimensionMismatch  (* ValueError: Dimension mismatch or empty matrix/function_map. *)
| BadVersion         (* ValueError: Version must be between 1 and 40 *)
| BadSize            (* ValueError: Invalid QR matrix size *)
| UnsupportedVersion (* ValueError: Unsupported QR version for error correction *)
| IndexError         (* list index out of range *)
| TypeError          (* an operation applied to None *)
| OutOfFuel.         (* the bound put on a while loop was reached *)

Inductive result (A : Type) : Type :=
| Ok (a : A)
| Raise (e : exn).
Arguments Ok {A} a.
Arguments Raise {A} e.

#[global] Instance exn_eq_dec : EqDecision exn.
Proof. solve_decision. Defined.

Definition bind {A B : Type} (r : result A) (k : A → result B) : result B :=
  match r with Ok a => k a | Raise e => Raise e end.

Notation "x <- c1 ;; c2" := (bind c1 (fun x => c2))
  (at level 100, c1 at next level, right associativity).

(** [for x in xs: s = body(x, s)], stopping at the first exception. *)
Fixpoint for_each {X S : Type} (xs : list X) (body : X → S → result S) (s : S)
  : result S :=
  match xs with
  | [] => Ok s
  | x :: xs' => s' <- body x s ;; for_each xs' body s'
  end.

(** [range(n)] and [range(a, b)] as lists of integers. *)
Definition range (n : Z) : list Z := seqZ 0 n.
Definition range2 (a b : Z) : list Z := seqZ a (b - a).

(** ** Python list indexing *)

Definition py_index (len : nat) (i : Z) : option nat :=
  if (0 <=? i) && (i <? Z.of_nat len) then Some (Z.to_nat i)
  else if (- Z.of_nat len <=? i) && (i <? 0) then Some (Z.to_nat (Z.of_nat len + i))
  else None.

(** [l[i]] *)
Definition getitem {A : Type} (l : list A) (i : Z) : result A :=
  match py_index (length l) i with
  | Some k => match l !! k with Some x => Ok x | None => Raise IndexError end
  | None => Raise IndexError
  end.

(** [l[i] = x] *)
Definition setitem {A : Type} (l : list A) (i : Z) (x : A) : result (list A) :=
  match py_index (length l) i with
  | Some k => Ok (<[k:=x]> l)
  | None => Raise IndexError
  end.

(** [m[r][c]] *)
Definition mget {A : Type} (m : list (list A)) (r c : Z) : result A :=
  row <- getitem m r ;; getitem row c.

(** [m[r][c] = x]: the row object is fetched, then updated in place. *)
Definition mset {A : Type} (m : list (list A)) (r c : Z) (x : A)
  : result (list (list A)) :=
  row <- getitem m r ;; row' <- setitem row c x ;; setitem m r row'.

(** ** Cells and matrices *)

Inductive cell : Type :=
| CInt (z : Z)   (* an int, 0 or 1 in a well-formed symbol *)
| CRes           (* 'R', a reserved format-information cell *)
| CNone.         (* None, a cell not yet set *)

#[global] Instance cell_eq_dec : EqDecision cell.
Proof. solve_decision. Defined.

Abbreviation matrix := (list (list cell)).
Abbreviation function_map := (list (list bool)).

(** [isinstance(v, int)] *)
Definition is_int (v : cell) : bool :=
  match v with CInt _ => true | _ => false end.

(** [v is None] *)
Definition is_none (v : cell) : bool :=
  match v with CNone => true | _ => false end.

(** ** Bit strings

    [int(s, 2)], [format(v, '0wb')] and [len] on strings of binary digits. *)

Definition bits_to_Z (bs : list bool) : Z :=
  fold_left (λ acc b, 2 * acc + Z.b2z b) bs 0.

(** [format(v, '0wb')] for [0 <= v]: the binary digits of [v], most
    significant first, padded with zeros on the left to at least [w]. *)
Definition format_b (w : nat) (v : Z) : list bool :=
  let n := Nat.max w (Z.to_nat (Z.log2 v) + 1) in
  (λ i : nat, Z.testbit v (Z.of_nat i)) <$> rev (seq 0 n).

Definition len {A : Type} (l : list A) : Z := Z.of_nat (length l).

(** [l[-n:]] for [0 <= n]: the last [n] elements, the whole list when it
    has fewer, and also when [n] is 0. *)
Definition slice_last {A : Type} (l : list A) (n : Z) : list A :=
  if n =? 0 then l else drop (length l - Z.to_nat n) l.

(** ** matrix_layout.py *)

Definition V1_L_TOTAL_CODEWORDS : Z := 26.
Definition V2_L_TOTAL_CODEWORDS : Z := 44.
Definition V1_EFFECTIVE_BITSTREAM_LENGTH : Z := V1_L_TOTAL_CODEWORDS * 8.
Definition V2_EFFECTIVE_BITSTREAM_LENGTH : Z := V2_L_TOTAL_CODEWORDS * 8 + 7.

(** [ALIGNMENT_PATTERN_COORDS_LOOKUP.get(version, [])] *)
Definition ALIGNMENT_PATTERN_COORDS_LOOKUP (version : Z) : list Z :=
  match version with
  | 1 => []
  | 2 => [6; 18]
  | 3 => [6; 22] | 4 => [6; 26] | 5 => [6; 30] | 6 => [6; 34]
  | 7 => [6; 22; 38] | 8 => [6; 24; 42] | 9 => [6; 26; 46] | 10 => [6; 28; 50]
  | 11 => [6; 30; 54] | 12 => [6; 32; 58] | 13 => [6; 34; 62]
  | 14 => [6; 26; 46; 66]
  | 15 => [6; 26; 48; 70] | 16 => [6; 26; 50; 74] | 17 => [6; 30; 54; 78]
  | 18 => [6; 30; 56; 82] | 19 => [6; 30; 58; 86] | 20 => [6; 34; 62; 90]
  | 21 => [6; 28; 50; 72; 94] | 22 => [6; 26; 50; 74; 98]
  | 23 => [6; 30; 54; 78; 102]
  | 24 => [6; 28; 54; 80; 106] | 25 => [6; 32; 58; 84; 110]
  | 26 => [6; 30; 58; 86; 114]
  | 27 => [6; 34; 62; 90; 118] | 28 => [6; 26; 50; 74; 98; 122]
  | 29 => [6; 30; 54; 78; 102; 126]
  | 30 => [6; 26; 52; 78; 104; 130] | 31 => [6; 30; 56; 82; 108; 134]
  | 32 => [6; 34; 60; 86; 112; 138] | 33 => [6; 30; 58; 86; 114; 142]
  | 34 => [6; 34; 62; 90; 118; 146] | 35 => [6; 30; 54; 78; 102; 126; 150]
  | 36 => [6; 24; 50; 76; 102; 128; 154] | 37 => [6; 28; 54; 80; 106; 132; 158]
  | 38 => [6; 32; 58; 84; 110; 136; 162] | 39 => [6; 26; 54; 82; 110; 138; 166]
  | 40 => [6; 30; 58; 86; 114; 142; 170]
  | _ => []
  end.

Definition FORMAT_INFO_COORDINATES_PRIMARY : list (Z * Z) :=
  [ (8, 0); (8, 1); (8, 2); (8, 3); (8, 4); (8, 5); (8, 7);
    (8, 8);
    (7, 8); (5, 8); (4, 8); (3, 8); (2, 8); (1, 8); (0, 8) ].

Definition get_size_from_version (version : Z) : result Z :=
  if negb ((1 <=? version) && (version <=? 40)) then Raise BadVersion
  else Ok ((version - 1) * 4 + 21).

Definition get_version_from_size (size : Z) : result Z :=
  if negb ((size - 21) mod 4 =? 0) || negb ((21 <=? size) && (size <=? 177))
  then Raise BadSize
  else Ok ((size - 21) / 4 + 1).

Definition get_expected_bitstream_length_for_version (version : Z) : result Z :=
  if version =? 1 then Ok V1_EFFECTIVE_BITSTREAM_LENGTH
  else if version =? 2 then Ok V2_EFFECTIVE_BITSTREAM_LENGTH
  else Raise UnsupportedVersion.

(** *** The format string: BCH(15,5) and the XOR mask *)

(** The lists [data_as_ints] and [gen_as_ints] hold the ints 0 and 1; they
    are kept as bits and [^=] is [xorb]. *)
Definition _bch_poly_divide (message_poly_str generator_poly_str : list bool)
    (ecc_len : Z) : result (list bool) :=
  let num_message_bits := len message_poly_str in
  let num_gen_bits := len generator_poly_str in
  data_as_ints <-
    for_each (range (num_message_bits - ecc_len))
      (λ i (data : list bool),
         d <- getitem data i ;;
         if d then
           for_each (range num_gen_bits)
             (λ j (data' : list bool),
                x <- getitem data' (i + j) ;;
                g <- getitem generator_poly_str j ;;
                setitem data' (i + j) (xorb x g))
             data
         else Ok data)
      message_poly_str ;;
  Ok (slice_last data_as_ints ecc_len).

Definition get_format_string (ecc_level_indicator_str mask_pattern_indicator_str : list bool)
  : result (list bool) :=
  let data_5bit_str := ecc_level_indicator_str ++ mask_pattern_indicator_str in
  let message_poly_str_for_bch := data_5bit_str ++ replicate 10 false in
  let generator_poly_str_bch :=
    [true; false; true; false; false; true; true; false; true; true; true] in
  ecc_10bit_str <- _bch_poly_divide message_poly_str_for_bch generator_poly_str_bch 10 ;;
  let format_info_no_mask_str := data_5bit_str ++ ecc_10bit_str in
  let final_xor_mask_val := 21522 (* 0b101010000010010 *) in
  let final_format_val := Z.lxor (bits_to_Z format_info_no_mask_str) final_xor_mask_val in
  Ok (format_b 15 final_format_val).

(** *** Function patterns *)

Definition create_matrix (size : Z) : matrix :=
  replicate (Z.to_nat size) (replicate (Z.to_nat size) CNone).

Definition finder_pattern : list (list Z) :=
  [ [1; 1; 1; 1; 1; 1; 1];
    [1; 0; 0; 0; 0; 0; 1];
    [1; 0; 1; 1; 1; 0; 1];
    [1; 0; 1; 1; 1; 0; 1];
    [1; 0; 1; 1; 1; 0; 1];
    [1; 0; 0; 0; 0; 0; 1];
    [1; 1; 1; 1; 1; 1; 1] ].

Definition place_finder_pattern (m : matrix) (r_start c_start : Z) : result matrix :=
  for_each (range 7)
    (λ r_offset m1,
       for_each (range 7)
         (λ c_offset m2,
            v <- mget finder_pattern r_offset c_offset ;;
            mset m2 (r_start + r_offset) (c_start + c_offset) (CInt v))
         m1)
    m.

Definition place_finder_patterns (m : matrix) (size : Z) : result matrix :=
  m <- place_finder_pattern m 0 0 ;;
  m <- place_finder_pattern m 0 (size - 7) ;;
  place_finder_pattern m (size - 7) 0.

Definition add_separators (m : matrix) (size : Z) : result matrix :=
  m <- for_each (range 8)
         (λ i m, m <- mset m i 7 (CInt 0) ;; mset m 7 i (CInt 0)) m ;;
  m <- for_each (range 8)
         (λ i m, m <- mset m i (size - 8) (CInt 0) ;; mset m 7 (size - 1 - i) (CInt 0)) m ;;
  for_each (range 8)
    (λ i m, m <- mset m (size - 8) i (CInt 0) ;; mset m (size - 1 - i) 7 (CInt 0)) m.

Definition alignment_pattern : list (list Z) :=
  [ [1; 1; 1; 1; 1];
    [1; 0; 0; 0; 1];
    [1; 0; 1; 0; 1];
    [1; 0; 0; 0; 1];
    [1; 1; 1; 1; 1] ].

Definition place_alignment_pattern (m : matrix) (center_r center_c : Z) : result matrix :=
  for_each (range2 (-2) 3)
    (λ r_offset m1,
       for_each (range2 (-2) 3)
         (λ c_offset m2,
            let r := center_r + r_offset in
            let c := center_c + c_offset in
            if (0 <=? r) && (r <? len m2) then
              row0 <- getitem m2 0 ;;
              if (0 <=? c) && (c <? len row0) then
                v <- mget m2 r c ;;
                if is_none v then
                  p <- mget alignment_pattern (r_offset + 2) (c_offset + 2) ;;
                  mset m2 r c (CInt p)
                else Ok m2
              else Ok m2
            else Ok m2)
         m1)
    m.

Definition place_alignment_patterns (m : matrix) (version : Z) : result matrix :=
  if version <? 2 then Ok m
  else
    let coords_list := ALIGNMENT_PATTERN_COORDS_LOOKUP version in
    match coords_list with
    | [] => Ok m
    | _ =>
        let size := len m in
        let all_possible_centers :=
          r_val ← coords_list; c_val ← coords_list; [(r_val, c_val)] in
        for_each all_possible_centers
          (λ center m1,
             let '(r_center, c_center) := center in
             let finder_zones :=
               [ (0, 0, 7, 7); (0, size - 8, 7, size - 1); (size - 8, 0, size - 1, 7) ] in
             let r_align_start := r_center - 2 in
             let c_align_start := c_center - 2 in
             let r_align_end := r_center + 2 in
             let c_align_end := c_center + 2 in
             let overlaps_finder :=
               existsb
                 (λ z, let '(fr_start, fc_start, fr_end, fc_end) := z in
                       negb ((r_align_end <? fr_start) || (fr_end <? r_align_start)
                             || (c_align_end <? fc_start) || (fc_end <? c_align_start)))
                 finder_zones in
             if negb overlaps_finder then place_alignment_pattern m1 r_center c_center
             else Ok m1)
          m
    end.

(** [if m[r][c] is None: m[r][c] = x] *)
Definition set_if_none (m : matrix) (r c : Z) (x : cell) : result matrix :=
  v <- mget m r c ;;
  if is_none v then mset m r c x else Ok m.

Definition place_timing_patterns (m : matrix) (size : Z) : result matrix :=
  for_each (range2 8 (size - 8))
    (λ i m,
       let val := if i mod 2 =? 0 then 1 else 0 in
       m <- set_if_none m 6 i (CInt val) ;;
       set_if_none m i 6 (CInt val))
    m.

Definition reserve_format_info_areas (m : matrix) (size : Z) : result matrix :=
  m <- for_each FORMAT_INFO_COORDINATES_PRIMARY
         (λ rc m,
            let '(r_coord, c_coord) := rc in
            if (0 <=? r_coord) && (r_coord <? size) && (0 <=? c_coord) && (c_coord <? size)
            then set_if_none m r_coord c_coord CRes
            else Ok m)
         m ;;
  m <- for_each (range 8) (λ j_val m, set_if_none m 8 (size - 1 - j_val) CRes) m ;;
  for_each (range 8) (λ j_val m, set_if_none m (size - 1 - j_val) 8 CRes) m.

Definition place_dark_module (m : matrix) (size : Z) : result matrix :=
  let dark_module_row := size - 8 in
  let dark_module_col := 8 in
  if (0 <=? dark_module_row) && (dark_module_row <? size)
     && (0 <=? dark_module_col) && (dark_module_col <? size)
  then set_if_none m dark_module_row dark_module_col CRes
  else Ok m.

(** *** Zig-zag placement of the data bits *)

(** The innermost statement of [place_data_bits]: one candidate cell. The
    state is the matrix and the local [bit_idx]. *)
Definition place_cell (size : Z) (data_bits_str : list bool) (row current_c : Z)
    (st : matrix * Z) : result (matrix * Z) :=
  let '(m, bit_idx) := st in
  if (0 <=? current_c) && (current_c <? size) then
    v <- mget m row current_c ;;
    if is_none v then
      if bit_idx <? len data_bits_str then
        b <- getitem data_bits_str bit_idx ;;
        m' <- mset m row current_c (CInt (Z.b2z b)) ;;
        Ok (m', bit_idx + 1)
      else
        m' <- mset m row current_c (CInt 0) ;;
        Ok (m', bit_idx)
    else Ok st
  else Ok st.

(** The locals of [place_data_bits] that live across loop iterations. *)
Record walk : Type := mk_walk {
  w_matrix : matrix;
  w_bit_idx : Z;
  w_row : Z;
  w_col : Z;
  w_direction : Z
}.

(** [for _ in range(size)]: [n] is the number of iterations left; the loop
    is left by [break] when the row runs off the matrix. *)
Fixpoint rows_loop (n : nat) (size : Z) (data_bits_str : list bool)
    (current_path_col : Z) (w : walk) : result walk :=
  match n with
  | O => Ok w
  | S n' =>
      p <- for_each (range 2)
             (λ c_offset p,
                place_cell size data_bits_str (w_row w) (current_path_col - c_offset) p)
             (w_matrix w, w_bit_idx w) ;;
      let row := w_row w + w_direction w in
      if negb ((0 <=? row) && (row <? size)) then
        let direction := w_direction w * -1 in
        Ok (mk_walk p.1 p.2 (row + direction) (w_col w - 2) direction)
      else
        rows_loop n' size data_bits_str current_path_col
          (mk_walk p.1 p.2 row (w_col w) (w_direction w))
  end.

(** [while col >= 0], bounded by [fuel] iterations. *)
Fixpoint columns_loop (fuel : nat) (size : Z) (data_bits_str : list bool)
    (w : walk) : result walk :=
  if negb (0 <=? w_col w) then Ok w
  else
    match fuel with
    | O => Raise OutOfFuel
    | S fuel' =>
        if w_col w =? 6 then
          columns_loop fuel' size data_bits_str
            (mk_walk (w_matrix w) (w_bit_idx w) (w_row w) (w_col w - 1) (w_direction w))
        else
          w' <- rows_loop (Z.to_nat size) size data_bits_str (w_col w) w ;;
          if w_col w' <? 0 then Ok w'
          else columns_loop fuel' size data_bits_str w'
    end.

(** [place_data_bits] mutates the matrix and returns nothing; the model
    returns the matrix together with the final value of [bit_idx], the number
    of bits taken from the stream. Every iteration of the while loop lowers
    [col], so [size + 1] iterations are allowed. *)
Definition place_data_bits (m : matrix) (size : Z) (data_bits_str : list bool)
  : result (matrix * Z) :=
  w <- columns_loop (Z.to_nat size + 1) size data_bits_str
         (mk_walk m 0 (size - 1) (size - 1) (-1)) ;;
  m <- for_each (range size)
         (λ r_idx m,
            for_each (range size) (λ c_idx m, set_if_none m r_idx c_idx (CInt 0)) m)
         (w_matrix w) ;;
  Ok (m, w_bit_idx w).

(** The matrix with every function pattern placed and the format cells
    reserved, before any data bit. *)
Definition layout_function_patterns (version : Z) : result matrix :=
  size <- get_size_from_version version ;;
  let m := create_matrix size in
  m <- place_finder_patterns m size ;;
  m <- add_separators m size ;;
  m <- (if 2 <=? version then place_alignment_patterns m version else Ok m) ;;
  m <- place_timing_patterns m size ;;
  m <- reserve_format_info_areas m size ;;
  place_dark_module m size.

Definition generate_qr_module (final_bitstream : list bool) (version : Z)
  : result matrix :=
  size <- get_size_from_version version ;;
  m <- layout_function_patterns version ;;
  p <- place_data_bits m size final_bitstream ;;
  Ok p.1.

(** *** Format information placement *)

(** A loop body either goes on with a new state or executes [return]. *)
Inductive flow (S R : Type) : Type :=
| Next (s : S)
| Return (r : R).
Arguments Next {S R} s.
Arguments Return {S R} r.

Fixpoint for_each_return {X S R : Type} (xs : list X)
    (body : X → S → result (flow S R)) (s : S) : result (flow S R) :=
  match xs with
  | [] => Ok (Next s)
  | x :: xs' =>
      f <- body x s ;;
      match f with
      | Next s' => for_each_return xs' body s'
      | Return r => Ok (Return r)
      end
  end.

(** [enumerate(l)] *)
Definition enumerate {A : Type} (l : list A) : list (Z * A) :=
  imap (λ i x, (Z.of_nat i, x)) l.

(** The value is [Some matrix] when the function leaves through its
    [return matrix], [None] when it falls off its end. The state of the
    loops with an [idx] counter is the matrix and that counter. *)
Definition place_format_information (m : matrix) (fmt : list bool) (size : Z)
  : result (option matrix) :=
  let bits := Z.b2z <$> fmt in
  m <- for_each (enumerate FORMAT_INFO_COORDINATES_PRIMARY)
         (λ irc m,
            let '(i, (r, c)) := irc in
            b <- getitem bits i ;; mset m r c (CInt b))
         m ;;
  m <- for_each (range 8)
         (λ i m, b <- getitem bits i ;; mset m 8 (size - 1 - i) (CInt b)) m ;;
  st <- for_each (range 8)
          (λ r_coord (st : matrix * Z),
             if r_coord =? 6 then Ok st
             else
               b <- getitem bits st.2 ;;
               m' <- mset st.1 r_coord 8 (CInt b) ;;
               Ok (m', st.2 + 1))
          (m, 8) ;;
  st <- for_each (range 8)
          (λ i (st : matrix * Z),
             b <- getitem bits st.2 ;;
             m' <- mset st.1 (size - 1 - i) 8 (CInt b) ;;
             Ok (m', st.2 + 1))
          (st.1, 0) ;;
  version <- get_version_from_size size ;;
  f <- for_each_return (range 8)
         (λ c_coord (st : matrix * Z),
            if c_coord =? 6 then Ok (Next st)
            else
              b <- getitem bits st.2 ;;
              m' <- mset st.1 8 c_coord (CInt b) ;;
              let dark_row := 4 * version + 9 in
              let dark_col := 8 in
              m' <- mset m' dark_row dark_col (CInt 1) ;;
              Ok (Return m'))
         (st.1, 8) ;;
  match f with
  | Return m' => Ok (Some m')
  | Next _ => Ok None
  end.

(** ** matrix_masking.py: the eight mask conditions *)

Definition _should_mask_pattern_0 (r c : Z) : bool := (r + c) mod 2 =? 0.
Definition _should_mask_pattern_1 (r c : Z) : bool := r mod 2 =? 0.
Definition _should_mask_pattern_2 (r c : Z) : bool := c mod 3 =? 0.
Definition _should_mask_pattern_3 (r c : Z) : bool := (r + c) mod 3 =? 0.
(** [math.floor(r / 2)] goes through a float; for the indices of a matrix
    (far below 2^52) the float quotient floors to the integer quotient. *)
Definition _should_mask_pattern_4 (r c : Z) : bool := (r / 2 + c / 3) mod 2 =? 0.
Definition _should_mask_pattern_5 (r c : Z) : bool :=
  (r * c) mod 2 + (r * c) mod 3 =? 0.
Definition _should_mask_pattern_6 (r c : Z) : bool :=
  ((r * c) mod 2 + (r * c) mod 3) mod 2 =? 0.
Definition _should_mask_pattern_7 (r c : Z) : bool :=
  ((r + c) mod 2 + (r * c) mod 3) mod 2 =? 0.

(** The dictionary [MASK_CONDITION_FUNCTIONS]; ids outside 0..7 are rejected
    by the caller before the lookup. *)
Definition MASK_CONDITION_FUNCTIONS (pattern_id : Z) : Z → Z → bool :=
  match pattern_id with
  | 0 => _should_mask_pattern_0
  | 1 => _should_mask_pattern_1
  | 2 => _should_mask_pattern_2
  | 3 => _should_mask_pattern_3
  | 4 => _should_mask_pattern_4
  | 5 => _should_mask_pattern_5
  | 6 => _should_mask_pattern_6
  | _ => _should_mask_pattern_7
  end.

(** The body of the two nested loops of [apply_specific_mask_pattern]. *)
Definition mask_step (pattern_id : Z) (fmap : function_map) (r c : Z)
    (out_matrix : matrix) : result matrix :=
  f <- mget fmap r c ;;
  if f then Ok out_matrix
  else
    v <- mget out_matrix r c ;;
    match v with
    | CInt z =>
        if MASK_CONDITION_FUNCTIONS pattern_id r c
        then mset out_matrix r c (CInt (Z.lxor z 1))
        else Ok out_matrix
    | _ => Ok out_matrix
    end.

Definition apply_specific_mask_pattern (pattern_id : Z) (m : matrix)
    (fmap : function_map) : result matrix :=
  if negb ((0 <=? pattern_id) && (pattern_id <=? 7)) then Raise BadMaskId
  else
    let rows := Z.of_nat (length m) in
    let cols :=
      match m with
      | row0 :: _ => Z.of_nat (length row0)
      | [] => 0
      end in
    let mismatch :=
      match m with
      | [] => true
      | _ =>
          if negb (Z.of_nat (length fmap) =? rows) then true
          else if 0 <? cols then
            match fmap with
            | frow0 :: _ => negb (cols =? Z.of_nat (length frow0))
            | [] => true
            end
          else false
      end in
    if mismatch then Raise DimensionMismatch
    else
      (* out_matrix = [row[:] for row in matrix] *)
      for_each (range rows)
        (λ r out, for_each (range cols) (λ c out', mask_step pattern_id fmap r c out') out)
        m.

(** *** The function-pattern map *)

(** The nested helper [mark_area] of [create_function_pattern_matrix]. *)
Definition mark_area (size : Z) (func_matrix : function_map)
    (r_start c_start r_len c_len : Z) : result function_map :=
  for_each (range2 r_start (r_start + r_len))
    (λ r_val fm,
       for_each (range2 c_start (c_start + c_len))
         (λ c_val fm,
            if (0 <=? r_val) && (r_val <? size) && (0 <=? c_val) && (c_val <? size)
            then mset fm r_val c_val true
            else Ok fm)
         fm)
    func_matrix.

Definition create_function_pattern_matrix (version : Z) : result function_map :=
  size <- get_size_from_version version ;;
  let fm := replicate (Z.to_nat size) (replicate (Z.to_nat size) false) in
  fm <- mark_area size fm 0 0 8 8 ;;
  fm <- mark_area size fm 0 (size - 8) 8 8 ;;
  fm <- mark_area size fm (size - 8) 0 8 8 ;;
  fm <- for_each (range2 8 (size - 8))
          (λ i fm, fm <- mset fm 6 i true ;; mset fm i 6 true) fm ;;
  fm <- for_each FORMAT_INFO_COORDINATES_PRIMARY
          (λ rc fm,
             let '(r_coord, c_coord) := rc in
             if (0 <=? r_coord) && (r_coord <? size) && (0 <=? c_coord) && (c_coord <? size)
             then mset fm r_coord c_coord true
             else Ok fm)
          fm ;;
  fm <- for_each (range 8) (λ j_val fm, mset fm 8 (size - 1 - j_val) true) fm ;;
  fm <- for_each (range 8) (λ i_val fm, mset fm (size - 1 - i_val) 8 true) fm ;;
  if 2 <=? version then
    let coords_ref_list := ALIGNMENT_PATTERN_COORDS_LOOKUP version in
    let all_possible_centers_for_version :=
      filter
        (λ rc : Z * Z,
           ¬ ((rc.1 = 6 ∧ rc.2 = 6) ∨ (rc.1 = 6 ∧ rc.2 = size - 7)
              ∨ (rc.1 = size - 7 ∧ rc.2 = 6)))
        (r ← coords_ref_list; c ← coords_ref_list; [(r, c)]) in
    for_each all_possible_centers_for_version
      (λ center fm,
         let '(r_center, c_center) := center in
         let finder_areas := [ (0, 0, 8, 8); (0, size - 8, 8, 8); (size - 8, 0, 8, 8) ] in
         let overlaps_finder_area :=
           existsb
             (λ a, let '(fr, fc, flr, flc) := a in
                   negb ((r_center + 2 <? fr) || (fr + flr - 1 <? r_center - 2)
                         || (c_center + 2 <? fc) || (fc + flc - 1 <? c_center - 2)))
             finder_areas in
         if overlaps_finder_area then Ok fm
         else
           for_each (range2 (-2) 3)
             (λ r_offset fm,
                for_each (range2 (-2) 3)
                  (λ c_offset fm,
                     if (0 <=? r_center + r_offset) && (r_center + r_offset <? size)
                        && (0 <=? c_center + c_offset) && (c_center + c_offset <? size)
                     then mset fm (r_center + r_offset) (c_center + c_offset) true
                     else Ok fm)
                  fm)
             fm)
      fm
  else Ok fm.

(** *** The four penalty rules

    The rules compare cells with [==]; the values they meet are the three
    kinds of [cell], compared by [cell_eqb]. *)

Definition cell_eqb (a b : cell) : bool := bool_decide (a = b).

(** One scan line of Rule 1. [get j] reads the [j]-th module of the line;
    the state of the inner loop is [(count, current_val, penalty)]. *)
Definition rule1_line (size : Z) (get : Z → result cell) (penalty : Z) : result Z :=
  let count := 1 in
  current_val <- (if 0 <? size then get 0 else Ok (CInt (-1))) ;;
  st <- for_each (range2 1 size)
          (λ j (st : Z * cell * Z),
             let '(count, current_val, penalty) := st in
             v <- get j ;;
             if cell_eqb v current_val then Ok (count + 1, current_val, penalty)
             else
               let penalty := if 5 <=? count then penalty + (3 + (count - 5)) else penalty in
               v' <- get j ;;
               Ok (1, v', penalty))
          (count, current_val, penalty) ;;
  let '(count, _, penalty) := st in
  Ok (if 5 <=? count then penalty + (3 + (count - 5)) else penalty).

Definition _calculate_penalty_rule1 (m : matrix) : result Z :=
  let size := len m in
  penalty <- for_each (range size)
               (λ r_idx penalty, rule1_line size (λ c_idx, mget m r_idx c_idx) penalty) 0 ;;
  for_each (range size)
    (λ c_idx penalty, rule1_line size (λ r_idx, mget m r_idx c_idx) penalty) penalty.

Definition _calculate_penalty_rule2 (m : matrix) : result Z :=
  let size := len m in
  for_each (range (size - 1))
    (λ r_idx penalty,
       for_each (range (size - 1))
         (λ c_idx penalty,
            a <- mget m r_idx c_idx ;;
            b <- mget m (r_idx + 1) c_idx ;;
            if cell_eqb a b then
              a <- mget m r_idx c_idx ;;
              b <- mget m r_idx (c_idx + 1) ;;
              if cell_eqb a b then
                a <- mget m r_idx c_idx ;;
                b <- mget m (r_idx + 1) (c_idx + 1) ;;
                if cell_eqb a b then Ok (penalty + 3) else Ok penalty
              else Ok penalty
            else Ok penalty)
         penalty)
    0.

Definition patterns_to_check_horizontal : list (list cell) :=
  [ CInt <$> [0; 0; 0; 0; 1; 0; 1; 1; 1; 0; 1];
    CInt <$> [1; 0; 1; 1; 1; 0; 1; 0; 0; 0; 0] ].

(** [slice == patterns[0] or slice == patterns[1]] *)
Definition matches_finder_like (slice : list cell) : bool :=
  existsb (λ pat, bool_decide (slice = pat)) patterns_to_check_horizontal.

(** [[f(k) for k in ks]] *)
Fixpoint list_comprehension {X A : Type} (ks : list X) (f : X → result A)
  : result (list A) :=
  match ks with
  | [] => Ok []
  | k :: ks' => a <- f k ;; l <- list_comprehension ks' f ;; Ok (a :: l)
  end.

Definition _calculate_penalty_rule3 (m : matrix) : result Z :=
  let size := len m in
  let pat_len := 11 in
  penalty <- for_each (range size)
    (λ r_idx penalty,
       for_each (range (size - pat_len + 1))
         (λ c_idx penalty,
            row <- getitem m r_idx ;;
            (* row[c_idx : c_idx + pat_len]; a slice never raises *)
            let current_row_slice := take (Z.to_nat pat_len) (drop (Z.to_nat c_idx) row) in
            if matches_finder_like current_row_slice then Ok (penalty + 40) else Ok penalty)
         penalty)
    0 ;;
  for_each (range size)
    (λ c_idx penalty,
       for_each (range (size - pat_len + 1))
         (λ r_idx penalty,
            current_col_slice <-
              list_comprehension (range2 r_idx (r_idx + pat_len)) (λ k, mget m k c_idx) ;;
            if matches_finder_like current_col_slice then Ok (penalty + 40) else Ok penalty)
         penalty)
    penalty.

(** Python floats are IEEE 754 binary64 numbers, the primitive floats of
    Rocq. [float_of_int] is the conversion of an int (exact below 2^53, the
    counts of modules are far below) and [math_floor] is [math.floor] on a
    finite float; on an infinity or a NaN [math.floor] raises, which Rule 4
    cannot meet since it divides by a non-zero count. *)
Definition float_of_int (z : Z) : float := PrimFloat.of_uint63 (Uint63.of_Z z).

Definition math_floor (f : float) : Z :=
  match Prim2SF f with
  | S754_finite s mant e =>
      let q := if 0 <=? e then Z.pos mant * 2 ^ e else Z.pos mant / 2 ^ (- e) in
      let exact := (0 <=? e) || (Z.pos mant mod 2 ^ (- e) =? 0) in
      if s then (if exact then - q else - q - 1) else q
  | _ => 0
  end.

(** [row.count(1)] *)
Definition count_dark (row : list cell) : Z :=
  len (filter (λ v, v = CInt 1) row).

Definition _calculate_penalty_rule4 (m : matrix) : Z :=
  let size := len m in
  if size =? 0 then 0
  else
    let total_modules := size * size in
    let dark_modules := foldr Z.add 0 (count_dark <$> m) in
    let percent_dark :=
      PrimFloat.mul (PrimFloat.div (float_of_int dark_modules) (float_of_int total_modules))
        100%float in
    let deviation := PrimFloat.abs (PrimFloat.sub percent_dark (float_of_int 50)) in
    let penalty_factor := math_floor (PrimFloat.div deviation (float_of_int 5)) in
    penalty_factor * 10.

(** The early exit returns [10 ^ 18], which in Python is a bitwise XOR. *)
Definition calculate_total_penalty_score (m : matrix) : result (Z * list Z) :=
  let malformed :=
    match m with
    | [] => true
    | row0 :: _ => bool_decide (row0 = [])
    end in
  if malformed then Ok (Z.lxor 10 18, replicate 4 (Z.lxor 10 18))
  else
    p1 <- _calculate_penalty_rule1 m ;;
    p2 <- _calculate_penalty_rule2 m ;;
    p3 <- _calculate_penalty_rule3 m ;;
    let penalties := [p1; p2; p3; _calculate_penalty_rule4 m] in
    let total_score := foldr Z.add 0 penalties in
    Ok (total_score, penalties).

(** *** Choice of the mask *)

(** The three locals updated by the loop of [find_best_pattern];
    [best_score = None] stands for [float('inf')]. *)
Record best : Type := mk_best {
  best_score : option Z;
  best_mask_id : Z;
  best_actually_masked_matrix : option matrix
}.

(** [[val if isinstance(val, int) else 0 for val in row] for row in m] *)
Definition int_or_zero (m : matrix) : matrix :=
  (λ row : list cell, (λ val, if is_int val then val else CInt 0) <$> row) <$> m.

Definition find_best_pattern (base_qr_matrix_with_placeholders : matrix)
    (fmap : function_map) : result (matrix * Z) :=
  let eval_matrix_base := int_or_zero base_qr_matrix_with_placeholders in
  b <- for_each (range 8)
         (λ p_id b,
            current_masked_for_eval_scoring <-
              apply_specific_mask_pattern p_id eval_matrix_base fmap ;;
            sp <- calculate_total_penalty_score current_masked_for_eval_scoring ;;
            let score := sp.1 in
            let better :=
              match best_score b with
              | None => true
              | Some bs => score <? bs
              end in
            if better then
              bm <- apply_specific_mask_pattern p_id base_qr_matrix_with_placeholders fmap ;;
              Ok (mk_best (Some score) p_id (Some bm))
            else Ok b)
         (mk_best None (-1) None) ;;
  match best_actually_masked_matrix b with
  | Some bm => Ok (bm, best_mask_id b)
  | None =>
      bm <- apply_specific_mask_pattern 0 base_qr_matrix_with_placeholders fmap ;;
      Ok (bm, 0)
  end.

(** ** data_encoding.py *)

(** A Python [str] is its list of code points. ISO-8859-1 encodes exactly
    the code points below 256, each as the byte of the same value;
    [UnicodeEncodeError] is turned into the first [ValueError]. *)
Definition encode_iso_8859_1 (data : list Z) : result (list Z) :=
  if forallb (λ c, (0 <=? c) && (c <? 256)) data then Ok data
  else Raise InvalidCharacter.

Definition pad_bytes : list (list bool) :=
  [ [true; true; true; false; true; true; false; false];
    [false; false; false; true; false; false; false; true] ].

(** [while len(bit_stream) < total_bits_needed], bounded by [fuel]. *)
Fixpoint pad_loop (fuel : nat) (total_bits_needed : Z) (bit_stream : list bool)
    (pad_index : Z) : result (list bool) :=
  if len bit_stream <? total_bits_needed then
    match fuel with
    | O => Raise OutOfFuel
    | S fuel' =>
        pad <- getitem pad_bytes (pad_index mod 2) ;;
        pad_loop fuel' total_bits_needed (bit_stream ++ pad) (pad_index + 1)
    end
  else Ok bit_stream.

(** [[s[i:i + 8] for i in range(0, len(s), 8)]] *)
Definition split_codewords (bit_stream : list bool) : list (list bool) :=
  (λ k : nat, take 8 (drop (8 * k) bit_stream)) <$> seq 0 ((length bit_stream + 7) / 8)%nat.

(** Every iteration of the padding loop adds eight bits, so
    [total_bits_needed] iterations are allowed. *)
Definition encode_byte_mode (data : list Z) : result (list (list bool) * Z) :=
  data_bytes <- encode_iso_8859_1 data ;;
  vd <- (if len data_bytes <=? 17 then Ok (1, 19)
         else if len data_bytes <=? 32 then Ok (2, 34)
         else Raise PayloadTooLong) ;;
  let version : Z := vd.1 in
  let total_data_codewords : Z := vd.2 in
  let bit_stream := [false; true; false; false] in
  let bit_stream := bit_stream ++ format_b 8 (len data_bytes) in
  let bit_stream := fold_left (λ bs byte, bs ++ format_b 8 byte) data_bytes bit_stream in
  let total_bits_needed := total_data_codewords * 8 in
  let remaining_bits := total_bits_needed - len bit_stream in
  let terminator_bits := Z.min 4 remaining_bits in
  let bit_stream := bit_stream ++ replicate (Z.to_nat terminator_bits) false in
  let bit_stream :=
    if negb (len bit_stream mod 8 =? 0)
    then bit_stream ++ replicate (Z.to_nat (8 - len bit_stream mod 8)) false
    else bit_stream in
  bit_stream <- pad_loop (Z.to_nat total_bits_needed) total_bits_needed bit_stream 0 ;;
  let codewords := split_codewords bit_stream in
  Ok (take (Z.to_nat total_data_codewords) codewords, version).

(** ** error_correction.py and the pipeline of app.py

    The Reed-Solomon codec is the third-party library [reedsolo]:
    [rs_encode nsym data] stands for [RSCodec(nsym).encode(data)], which
    returns a [bytearray], the message followed by its [nsym] check bytes. *)

Section Pipeline.

Variable rs_encode : Z → list Z → list Z.

Definition generate_error_correction (data_codeword_integers : list Z) (version : Z)
  : result (list (list bool)) :=
  ecc_count <- (if version =? 1 then Ok 7
                else if version =? 2 then Ok 10
                else Raise UnsupportedVersion) ;;
  let full_message_integers := rs_encode ecc_count data_codeword_integers in
  let ecc_byte_integers := slice_last full_message_integers ecc_count in
  Ok (format_b 8 <$> ecc_byte_integers).

(** The bit string handed to [generate_qr_module]. *)
Definition final_bitstream (text : list Z) : result (list bool * Z) :=
  dv <- encode_byte_mode text ;;
  let data_cw := dv.1 in
  let version := dv.2 in
  let data_cw_int := bits_to_Z <$> data_cw in
  ecc_cw <- generate_error_correction data_cw_int version ;;
  let all_codewords := data_cw ++ ecc_cw in
  let final_bits := concat all_codewords in
  let final_bits := if version =? 2 then final_bits ++ replicate 7 false else final_bits in
  Ok (final_bits, version).

(** [assemble_qr_matrix(text)] with [explain=False]; the value is the entry
    ["final"] of the returned dictionary, together with the version and the
    mask id, both locals of the function. *)
Definition assemble_qr_matrix (text : list Z) : result (matrix * Z * Z) :=
  bv <- final_bitstream text ;;
  let final_bits := bv.1 in
  let version := bv.2 in
  m <- generate_qr_module final_bits version ;;
  mask_map <- create_function_pattern_matrix version ;;
  mb <- find_best_pattern m mask_map ;;
  let masked_matrix := mb.1 in
  let best_mask := mb.2 in
  fmt <- get_format_string [false; true] (format_b 3 best_mask) ;;
  let int_matrix := int_or_zero masked_matrix in
  size <- get_size_from_version version ;;
  final <- place_format_information int_matrix fmt size ;;
  match final with
  | Some final_matrix => Ok (final_matrix, version, best_mask)
  | None => Raise TypeError (* len(None) *)
  end.

End Pipeline.

(** [assemble_qr_matrix(text, explain=True)]: the dictionary of the five
    steps, as the tuple of its entries "step1", "step2", "step3", "step4" and
    "final". The last is what [place_format_information] returned, [None]
    included: its length is not taken in this mode. *)
Definition assemble_qr_matrix_explain (rs_encode : Z → list Z → list Z) (text : list Z)
  : result (matrix * matrix * matrix * matrix * option matrix) :=
  dv <- encode_byte_mode text ;;
  let data_cw := dv.1 in
  let version := dv.2 in
  let data_cw_int := bits_to_Z <$> data_cw in
  ecc_cw <- generate_error_correction rs_encode data_cw_int version ;;
  let all_codewords := data_cw ++ ecc_cw in
  let final_bits := concat all_codewords in
  let final_bits := if version =? 2 then final_bits ++ replicate 7 false else final_bits in
  m <- generate_qr_module final_bits version ;;
  mask_map <- create_function_pattern_matrix version ;;
  mb <- find_best_pattern m mask_map ;;
  let masked_matrix := mb.1 in
  let best_mask := mb.2 in
  fmt <- get_format_string [false; true] (format_b 3 best_mask) ;;
  let int_matrix := int_or_zero masked_matrix in
  size <- get_size_from_version version ;;
  final_matrix <- place_format_information int_matrix fmt size ;;
  step1 <- generate_qr_module (concat data_cw) version ;;
  step2 <- generate_qr_module (concat (data_cw ++ ecc_cw)) version ;;
  Ok (step1, step2, m, masked_matrix, final_matrix).

(** ** ScreenShots/backupjavafx/data_encoding.py

    The older copy of the encoder. It differs from [encode_byte_mode] in
    three places: the stream is brought to a byte boundary by a loop that
    appends one zero at a time, the padding loop checks the room left before
    it appends a pad codeword, and a last step forces the number of
    codewords. *)

Module Backupjavafx.

(** [while len(bit_stream) % 8 != 0 and len(bit_stream) < capacity:
       bit_stream += '0'], bounded by [fuel]. *)
Fixpoint align_loop (fuel : nat) (capacity : Z) (bit_stream : list bool)
  : result (list bool) :=
  if negb (len bit_stream mod 8 =? 0) && (len bit_stream <? capacity) then
    match fuel with
    | O => Raise OutOfFuel
    | S fuel' => align_loop fuel' capacity (bit_stream ++ [false])
    end
  else Ok bit_stream.

(** [while len(bit_stream) < capacity], with its [break], bounded by
    [fuel]. *)
Fixpoint pad_loop (fuel : nat) (capacity : Z) (bit_stream : list bool)
    (pad_index : Z) : result (list bool) :=
  if len bit_stream <? capacity then
    match fuel with
    | O => Raise OutOfFuel
    | S fuel' =>
        let remaining := capacity - len bit_stream in
        if 8 <=? remaining then
          pad <- getitem pad_bytes (pad_index mod 2) ;;
          pad_loop fuel' capacity (bit_stream ++ pad) (pad_index + 1)
        else Ok (bit_stream ++ replicate (Z.to_nat remaining) false)
    end
  else Ok bit_stream.

(** [while len(codewords) < total: codewords.append('00000000')], bounded by
    [fuel]. *)
Fixpoint fill_codewords (fuel : nat) (total : Z) (codewords : list (list bool))
  : result (list (list bool)) :=
  if len codewords <? total then
    match fuel with
    | O => Raise OutOfFuel
    | S fuel' => fill_codewords fuel' total (codewords ++ [replicate 8 false])
    end
  else Ok codewords.

(** The first loop adds one bit and the second eight bits in every
    iteration, so [capacity] iterations are allowed to each; the third adds
    one codeword, so [total] iterations are allowed. *)
Definition encode_byte_mode (data : list Z) : result (list (list bool) * Z) :=
  data_bytes <- encode_iso_8859_1 data ;;
  let max_data_bytes_v1_l := 17 in
  let max_data_bytes_v2_l := 32 in
  vd <- (if len data_bytes <=? max_data_bytes_v1_l then Ok (1, 19)
         else if len data_bytes <=? max_data_bytes_v2_l then Ok (2, 34)
         else Raise PayloadTooLong) ;;
  let version : Z := vd.1 in
  let total_data_codewords_for_version : Z := vd.2 in
  let total_bits_capacity_for_data_codewords := total_data_codewords_for_version * 8 in
  let bit_stream := [false; true; false; false] in
  let bit_stream := bit_stream ++ format_b 8 (len data_bytes) in
  let bit_stream := fold_left (λ bs byte_val, bs ++ format_b 8 byte_val) data_bytes bit_stream in
  let remaining_bits := total_bits_capacity_for_data_codewords - len bit_stream in
  let terminator_bits := Z.min 4 remaining_bits in
  let bit_stream := bit_stream ++ replicate (Z.to_nat terminator_bits) false in
  bit_stream <- align_loop (Z.to_nat total_bits_capacity_for_data_codewords)
                  total_bits_capacity_for_data_codewords bit_stream ;;
  bit_stream <- pad_loop (Z.to_nat total_bits_capacity_for_data_codewords)
                  total_bits_capacity_for_data_codewords bit_stream 0 ;;
  let data_codewords_binary_strings := split_codewords bit_stream in
  data_codewords_binary_strings <-
    (if negb (len data_codewords_binary_strings =? total_data_codewords_for_version) then
       fill_codewords (Z.to_nat total_data_codewords_for_version)
         total_data_codewords_for_version
         (take (Z.to_nat total_data_codewords_for_version) data_codewords_binary_strings)
     else Ok data_codewords_binary_strings) ;;
  Ok (data_codewords_binary_strings, version).

End Backupjavafx.

(** ** Reed-Solomon over GF(256) *)

Module RS.

(** Modelled from the spec: the module [reedsolo] is not among the sources;
    the field GF(2^8) with primitive polynomial 0x11D, polynomials as
    coefficient sequences with the high degree first, the generator
    polynomial g_e(x) = prod_{i<e} (x - alpha^i) and the division of
    message(x) * x^e by g_e(x) follow sections 4.1 and 4.3 of the
    specification. *)
Definition prim_poly : Z := 285. (* 0x11D *)

(** Multiplication by x (the element alpha), reduced modulo [prim_poly]. *)
Definition xtime (a : Z) : Z :=
  let s := Z.shiftl a 1 in
  if Z.testbit s 8 then Z.lxor s prim_poly else s.

(** The product of two field elements: the product of the two polynomials
    over GF(2), reduced modulo [prim_poly]; [n] is the number of bits of [b]
    still to be used. *)
Fixpoint gf_mul_bits (n : nat) (a b : Z) : Z :=
  match n with
  | O => 0
  | S n' => Z.lxor (if Z.odd b then a else 0) (gf_mul_bits n' (xtime a) (Z.shiftr b 1))
  end.

Definition gf_mul (a b : Z) : Z := gf_mul_bits 8 a b.

(** alpha^i *)
Fixpoint gf_pow_alpha (i : nat) : Z :=
  match i with
  | O => 1
  | S i' => xtime (gf_pow_alpha i')
  end.

(** The antilog and log tables, of size 256. *)
Definition gf_exp : list Z := gf_pow_alpha <$> seq 0 256.
Definition gf_log : list Z :=
  (λ a : Z, default 0 (Z.of_nat <$> list_find (λ e, e = a) (take 255 gf_exp) ≫= (Some ∘ fst)))
    <$> seqZ 0 256.

(** Sum of two polynomials: the shorter sequence is extended with leading
    zero coefficients; addition of coefficients is XOR. *)
Definition gf_poly_pad (n : nat) (p : list Z) : list Z :=
  replicate (n - length p) 0 ++ p.

Definition gf_poly_add (p q : list Z) : list Z :=
  let n := Nat.max (length p) (length q) in
  zip_with Z.lxor (gf_poly_pad n p) (gf_poly_pad n q).

(** p(x) * x^k *)
Definition gf_poly_shift (p : list Z) (k : nat) : list Z := p ++ replicate k 0.

Definition gf_poly_scale (p : list Z) (c : Z) : list Z := (λ a, gf_mul a c) <$> p.

(** Product of two polynomials, high degree first. *)
Fixpoint gf_poly_mul (p q : list Z) : list Z :=
  match p with
  | [] => []
  | a :: p' =>
      gf_poly_add (gf_poly_shift (gf_poly_scale q a) (length p')) (gf_poly_mul p' q)
  end.

(** Horner evaluation. *)
Definition gf_poly_eval (p : list Z) (x : Z) : Z :=
  fold_left (λ acc c, Z.lxor (gf_mul acc x) c) p 0.

(** g_e(x); subtraction is addition in characteristic 2. *)
Fixpoint rs_generator_poly_upto (e : nat) : list Z :=
  match e with
  | O => [1]
  | S e' => gf_poly_mul (rs_generator_poly_upto e') [1; gf_pow_alpha e']
  end.
Definition rs_generator_poly (e : nat) : list Z := rs_generator_poly_upto e.

(** Long division by a monic polynomial [g]: at each of the [n] steps the
    leading coefficient [c] of the dividend is cancelled by adding
    [c * g(x) * x^k], [k] being the degree of the dividend minus that of
    [g]; the cancelled coefficient is dropped. What is left after [n] steps
    is the remainder. *)
Fixpoint gf_poly_rem (n : nat) (dividend g : list Z) : list Z :=
  match n with
  | O => dividend
  | S n' =>
      match dividend with
      | [] => []
      | c :: rest =>
          let k := (length rest - length (tail g))%nat in
          gf_poly_rem n' (gf_poly_add rest (gf_poly_shift (gf_poly_scale (tail g) c) k)) g
      end
  end.

(** The check codewords: the remainder of message(x) * x^e by g_e(x), high
    degree first. *)
Definition rs_ecc (e : nat) (msg : list Z) : list Z :=
  gf_poly_rem (length msg) (gf_poly_shift msg e) (rs_generator_poly e).

(** The systematic codeword: the message followed by its check codewords,
    what [RSCodec(e).encode(msg)] returns for a message of one block. *)
Definition rs_encode (nsym : Z) (msg : list Z) : list Z :=
  msg ++ rs_ecc (Z.to_nat nsym) msg.

End RS.

(** * Definitions used to state the properties *)

(** A matrix of [rows] rows which all have [cols] cells. *)
Definition shape {A : Type} (rows cols : nat) (m : list (list A)) : Prop :=
  length m = rows ∧ Forall (λ row, length row = cols) m.

(** The cell at row [r], column [c], when there is one. *)
Definition cell_at {A : Type} (m : list (list A)) (r c : nat) : option A :=
  row ← m !! r; row !! c.

(** The table with entry [f r c] at row [r], column [c]. *)
Definition tabulate {A : Type} (rows cols : nat) (f : nat → nat → A) : list (list A) :=
  (λ r, f r <$> seq 0 cols) <$> seq 0 rows.

(** The cell value [place_format_information] writes for bit [i] of the
    format string. *)
Definition format_bit (fmt : list bool) (i : nat) : cell :=
  CInt (Z.b2z (default false (fmt !! i))).

(** The cells [place_format_information] has written when it returns, each
    with the index of the format bit it then holds, for a symbol of side [N]:
    the cells around the top-left finder, the copy along row 8 and the copy
    along column 8. *)
Definition format_cells_as_written (N : nat) : list (nat * nat * nat) :=
  [ (8, 0, 8); (8, 1, 1); (8, 2, 2); (8, 3, 3); (8, 4, 4); (8, 5, 5); (8, 7, 6);
    (8, 8, 7);
    (0, 8, 8); (1, 8, 9); (2, 8, 10); (3, 8, 11); (4, 8, 12); (5, 8, 13);
    (7, 8, 14) ]%nat
  ++ ((λ i, (8, N - 1 - i, i)%nat) <$> seq 0 8)
  ++ ((λ i, (N - 1 - i, 8, i)%nat) <$> seq 0 7).

(** The primary copy in the words of the specification: the fifteen cells
    of [FORMAT_INFO_COORDINATES_PRIMARY] hold the bits of the format string
    in their order. *)
Definition spec_primary_copy_placed (out : matrix) (fmt : list bool) : Prop :=
  ∀ (i : nat) (r c : Z),
    FORMAT_INFO_COORDINATES_PRIMARY !! i = Some (r, c) →
    cell_at out (Z.to_nat r) (Z.to_nat c) = Some (format_bit fmt i).

(** The four-rule penalty total of the matrix masked with pattern [p], every
    cell that is not an int scored as 0. *)
Definition mask_score (m : matrix) (fmap : function_map) (p : Z) : result Z :=
  mm <- apply_specific_mask_pattern p (int_or_zero m) fmap ;;
  sp <- calculate_total_penalty_score mm ;;
  Ok sp.1.

(** The data bit stream in the words of the specification, for a payload
    [bytes] and [D] data codewords: mode indicator, character count, payload,
    terminator of up to four zeros cut at the capacity, zeros up to the next
    byte boundary, then the two pad codewords in alternation. *)
Fixpoint spec_pad_codewords (k : nat) (first second : list bool) : list bool :=
  match k with
  | O => []
  | S k' => first ++ spec_pad_codewords k' second first
  end.

Definition spec_data_stream (bytes : list Z) (D : Z) : list bool :=
  let mode := [false; true; false; false] in
  let count := format_b 8 (len bytes) in
  let payload := concat (format_b 8 <$> bytes) in
  let s1 := mode ++ count ++ payload in
  let s2 := s1 ++ replicate (Z.to_nat (Z.min 4 (8 * D - len s1))) false in
  let s3 := s2 ++ replicate (Z.to_nat ((8 - len s2 mod 8) mod 8)) false in
  s3 ++ spec_pad_codewords (Z.to_nat ((8 * D - len s3) / 8))
          [true; true; true; false; true; true; false; false]
          [false; false; false; true; false; false; false; true].

(** The code points of the string "HELLO WORLD". *)
Definition hello_world : list Z := [72; 69; 76; 76; 79; 32; 87; 79; 82; 76; 68].

(** An 8-bit value. *)
Definition is_byte (a : Z) : Prop := 0 ≤ a < 256.

(** The number of cells a function map marks as non-function. *)
Definition count_non_function (fm : function_map) : nat :=
  length (filter (λ b, b = false) (concat fm)).

(** The right-hand columns of the column pairs of the zig-zag, from the right
    edge to the left one, the timing column 6 stepped over. *)
Fixpoint zigzag_columns (fuel : nat) (col : Z) : list nat :=
  match fuel with
  | O => []
  | S fuel' =>
      if col <? 0 then []
      else if col =? 6 then zigzag_columns fuel' (col - 1)
      else Z.to_nat col :: zigzag_columns fuel' (col - 2)
  end.

(** The cells in the order of the zig-zag: column pairs from right to left,
    the first pair upwards and then alternating, in each row the right cell
    before the left one. *)
Definition zigzag_cells (N : nat) : list (nat * nat) :=
  concat
    (imap (λ j col,
             r ← (if Nat.even j then rev (seq 0 N) else seq 0 N);
             [(r, col); (r, col - 1)%nat])
       (zigzag_columns N (Z.of_nat N - 1))).

(** The non-function cells in the order of the zig-zag. *)
Definition data_cells (N : nat) (fm : function_map) : list (nat * nat) :=
  filter (λ rc, cell_at fm rc.1 rc.2 = Some false) (zigzag_cells N).

(** The function map, the laid-out matrix and the data cells of versions 1
    and 2, evaluated once. *)
Definition function_map_of (version : Z) : function_map :=
  match create_function_pattern_matrix version with Ok fm => fm | Raise _ => [] end.
Definition layout_of (version : Z) : matrix :=
  match layout_function_patterns version with Ok m => m | Raise _ => [] end.

Definition function_map_v1 : function_map := Eval vm_compute in function_map_of 1.
Definition function_map_v2 : function_map := Eval vm_compute in function_map_of 2.
Definition layout_v1 : matrix := Eval vm_compute in layout_of 1.
Definition layout_v2 : matrix := Eval vm_compute in layout_of 2.
Definition data_cells_v1 : list (nat * nat) := Eval vm_compute in data_cells 21 function_map_v1.
Definition data_cells_v2 : list (nat * nat) := Eval vm_compute in data_cells 25 function_map_v2.

(** The eight mask predicates in the words of the specification. *)
Definition spec_mask_predicate (p r c : Z) : Prop :=
  match p with
  | 0 => (r + c) mod 2 = 0
  | 1 => r mod 2 = 0
  | 2 => c mod 3 = 0
  | 3 => (r + c) mod 3 = 0
  | 4 => (r / 2 + c / 3) mod 2 = 0
  | 5 => (r * c) mod 2 + (r * c) mod 3 = 0
  | 6 => ((r * c) mod 2 + (r * c) mod 3) mod 2 = 0
  | 7 => ((r + c) mod 2 + (r * c) mod 3) mod 2 = 0
  | _ => False
  end.

(** What masking does to one cell, and the matrix in which the cells before
    position [(R, C)] in row-major order have been treated. *)
Definition masked_cell (p : Z) (fmap : function_map) (r c : nat) (v : cell) : cell :=
  match cell_at fmap r c, v with
  | Some false, CInt z =>
      if MASK_CONDITION_FUNCTIONS p (Z.of_nat r) (Z.of_nat c) then CInt (Z.lxor z 1) else v
  | _, _ => v
  end.

Definition masked_upto (p : Z) (fmap : function_map) (R C : nat) (m : matrix) : matrix :=
  imap (λ r row,
          imap (λ c v,
                  if (r <? R)%nat || ((r =? R)%nat && (c <? C)%nat)
                  then masked_cell p fmap r c v else v) row) m.

Definition masked (p : Z) (fmap : function_map) (m : matrix) : matrix :=
  imap (λ r row, imap (λ c v, masked_cell p fmap r c v) row) m.

(** The state of the loop of [find_best_pattern] after the candidates
    [0..k-1]: the best of them, first among equals. *)
Definition best_among (m : matrix) (fmap : function_map) (k : Z) (b : best) : Prop :=
  (k = 0 ∧ b = mk_best None (-1) None) ∨
  ∃ id sid,
    b = mk_best (Some sid) id (Some (masked id fmap m)) ∧
    0 ≤ id < k ∧ mask_score m fmap id = Ok sid ∧
    ∀ q, 0 ≤ q < k → ∃ sq, mask_score m fmap q = Ok sq ∧ sid ≤ sq ∧ (sq = sid → id ≤ q).

(** Horner evaluation started from an accumulator. *)
Definition eval_from (x acc : Z) (p : list Z) : Z :=
  fold_left (λ acc c, Z.lxor (RS.gf_mul acc x) c) p acc.

(** [x] is a root of every multiple [c * g] of [g], [c] a byte. *)
Definition root_of_multiples (g : list Z) (x : Z) : Prop :=
  ∀ c, is_byte c → RS.gf_poly_eval (RS.gf_poly_scale g c) x = 0.

(** What holds of the locals of [place_data_bits] between two steps. *)
Definition walk_ok (N : nat) (w : walk) : Prop :=
  shape N N (w_matrix w) ∧ 0 ≤ w_bit_idx w ∧ 0 ≤ w_row w < Z.of_nat N ∧
  (w_direction w = -1 ∨ w_direction w = 1).

(** The number of rows still ahead in the current direction. *)
Definition rows_ahead (N : nat) (w : walk) : Z :=
  if w_direction w =? -1 then w_row w + 1 else Z.of_nat N - w_row w.

(** The remainder of the polynomial [w] over GF(2), of degree at most 14,
    by the generator [x^10 + x^8 + x^5 + x^4 + x^2 + x + 1] of the format
    code, both held as integers (the generator is 0x537 = 1335). *)
Definition bch_remainder (w : Z) : Z :=
  fold_left
    (λ acc (i : nat),
       if Z.testbit acc (Z.of_nat i + 10) then Z.lxor acc (Z.shiftl 1335 (Z.of_nat i)) else acc)
    [4; 3; 2; 1; 0]%nat w.

(** The number of positions at which two bit strings differ. *)
Definition hamming (a b : list bool) : nat :=
  length (filter (λ d : bool, d = true) (zip_with xorb a b)).

(** The cells of a matrix that have been set, as a map of booleans. *)
Definition set_cells (m : matrix) : function_map :=
  (λ row : list cell, (λ v, negb (is_none v)) <$> row) <$> m.

(** The function map of a version is the map of the cells set by the layout
    steps of [generate_qr_module], and both have the side of the version. *)
Definition layout_agrees (version : Z) : bool :=
  match create_function_pattern_matrix version, layout_function_patterns version with
  | Ok fm, Ok m =>
      bool_decide (fm = set_cells m)
      && (length m =? Z.to_nat (17 + 4 * version))%nat
      && forallb (λ row : list cell, (length row =? Z.to_nat (17 + 4 * version))%nat) m
  | _, _ => false
  end.

(** The number of dark modules that Rule 4 counts. *)
Definition dark_modules (m : matrix) : Z := foldr Z.add 0 (count_dark <$> m).

(** The arithmetic of [_calculate_penalty_rule4] on its two counts, in
    floats as the code has it. *)
Definition penalty_rule4_of_counts (size dark : Z) : Z :=
  if size =? 0 then 0
  else
    let total_modules := size * size in
    let percent_dark :=
      PrimFloat.mul (PrimFloat.div (float_of_int dark) (float_of_int total_modules))
        100%float in
    let deviation := PrimFloat.abs (PrimFloat.sub percent_dark (float_of_int 50)) in
    let penalty_factor := math_floor (PrimFloat.div deviation (float_of_int 5)) in
    penalty_factor * 10.

(** Rule 4 in exact arithmetic: ten points for every full 5% that the share
    of dark modules is away from 50%. *)
Definition exact_penalty_rule4 (total dark : Z) : Z :=
  10 * (Z.abs (100 * dark - 50 * total) / (5 * total)).

(** The two agree on every count of dark modules of a matrix of side
    [size]. *)
Definition rule4_exact_for (size : Z) : bool :=
  forallb (λ dark, penalty_rule4_of_counts size dark =? exact_penalty_rule4 (size * size) dark)
    (seqZ 0 (size * size + 1)).

(** The index of the format bit that [place_format_information] leaves in
    the cell at row [r], column [c], when it leaves one there. *)
Definition written_format_bit (N r c : nat) : option nat :=
  snd <$> head (filter (λ t : nat * nat * nat, t.1 = (r, c)) (format_cells_as_written N)).

(** What [place_format_information] makes of one cell: the dark module,
    a format bit, or the cell as it was. *)
Definition format_cell (N : nat) (fmt : list bool) (r c : nat) (v : cell) : cell :=
  if bool_decide (r = (N - 8)%nat ∧ c = 8%nat) then CInt 1
  else match written_format_bit N r c with
       | Some i => format_bit fmt i
       | None => v
       end.

(** The matrix in which every cell has gone through [format_cell]. *)
Definition format_information_placed (N : nat) (fmt : list bool) (m : matrix) : matrix :=
  imap (λ r row, imap (λ c v, format_cell N fmt r c v) row) m.

(** The cells of row 8 and column 8 that [place_format_information] writes:
    those next to the top-left finder (the timing cells left out), the last
    eight of row 8 and the last eight of column 8. *)
Definition is_format_cell (N r c : nat) : bool :=
  ((r =? 8)%nat && (((c <=? 8)%nat && negb (c =? 6)%nat) || (N - 8 <=? c)%nat))
  || ((c =? 8)%nat && (((r <=? 8)%nat && negb (r =? 6)%nat) || (N - 8 <=? r)%nat)).

(** [m'] is [m] with some of its empty cells filled with 0 or 1: a cell
    that is set in [m] is the same in [m'], an empty cell of [m] is empty, 0
    or 1 in [m']. *)
Definition fills (m m' : matrix) : Prop :=
  ∀ r c v, cell_at m r c = Some v →
    if is_none v
    then cell_at m' r c = Some CNone ∨ cell_at m' r c = Some (CInt 0)
         ∨ cell_at m' r c = Some (CInt 1)
    else cell_at m' r c = Some v.

(** No cell is empty. *)
Definition no_empty_cell (m : matrix) : Prop :=
  ∀ r c v, cell_at m r c = Some v → v ≠ CNone.

(** The locals of [place_data_bits] with another value of [bit_idx]. *)
Definition with_bit_idx (w : walk) (i : Z) : walk :=
  mk_walk (w_matrix w) i (w_row w) (w_col w) (w_direction w).

(** Reading a stream of byte mode back: the character count is in the
    eight bits after the four of the mode indicator, and that many bytes
    follow it. *)
Definition decode_stream (s : list bool) : list Z :=
  let n := bits_to_Z (take 8 (drop 4 s)) in
  bits_to_Z <$> split_codewords (take (8 * Z.to_nat n) (drop 12 s)).

Definition decode_byte_mode (codewords : list (list bool)) : list Z :=
  decode_stream (concat codewords).

(** The layout of a version has the three finder patterns in its corners,
    light separators around them, timing patterns that start dark, 31
    reserved cells, the dark module among them, and from version 2 on an
    alignment pattern centred six cells from the bottom-right corner. *)
Definition layout_has_patterns (version : Z) : bool :=
  match layout_function_patterns version with
  | Ok m =>
      let N := Z.to_nat (17 + 4 * version) in
      forallb (λ r, forallb (λ c,
                 bool_decide (cell_at m r c = CInt <$> cell_at finder_pattern r c)
                 && bool_decide (cell_at m r (N - 7 + c) = CInt <$> cell_at finder_pattern r c)
                 && bool_decide (cell_at m (N - 7 + r) c = CInt <$> cell_at finder_pattern r c))
                 (seq 0 7)) (seq 0 7)
      && forallb (λ i,
                 bool_decide (cell_at m 7 i = Some (CInt 0))
                 && bool_decide (cell_at m i 7 = Some (CInt 0))
                 && bool_decide (cell_at m 7 (N - 1 - i) = Some (CInt 0))
                 && bool_decide (cell_at m i (N - 8) = Some (CInt 0))
                 && bool_decide (cell_at m (N - 8) i = Some (CInt 0))
                 && bool_decide (cell_at m (N - 1 - i) 7 = Some (CInt 0)))
           (seq 0 8)
      && forallb (λ i,
                 negb ((8 <=? i)%nat && (i <? N - 8)%nat)
                 || (bool_decide (cell_at m 6 i = Some (CInt (if Nat.even i then 1 else 0)))
                     && bool_decide (cell_at m i 6 = Some (CInt (if Nat.even i then 1 else 0)))))
           (seq 0 N)
      && bool_decide (cell_at m (N - 8) 8 = Some CRes)
      && (length (filter (λ v, v = CRes) (concat m)) =? 31)%nat
      && ((version <? 2)
          || forallb (λ r, forallb (λ c,
                        bool_decide (cell_at m (N - 9 + r) (N - 9 + c)
                                     = CInt <$> cell_at alignment_pattern r c))
                        (seq 0 5)) (seq 0 5))
  | Raise _ => false
  end.

(** The number of empty cells of a matrix. *)
Definition count_none (m : matrix) : nat :=
  length (filter (λ v, v = CNone) (concat m)).

(** The bits read from the data cells of a symbol in the order of the
    zig-zag, the mask taken off. *)
Definition read_data_modules (final : matrix) (version mask : Z) : list bool :=
  (λ rc : nat * nat,
     xorb (bool_decide (cell_at final rc.1 rc.2 = Some (CInt 1)))
       (MASK_CONDITION_FUNCTIONS mask (Z.of_nat rc.1) (Z.of_nat rc.2)))
  <$> data_cells (Z.to_nat (17 + 4 * version)) (function_map_of version).

(** ** The four penalty rules in the words of the specification

    The colour of a module is its cell; a dark module is the int 1. *)

Definition sum_Z (l : list Z) : Z := foldr Z.add 0 l.

(** The lengths of the maximal runs of equal colour of a line, from its
    first module to its last. *)
Fixpoint runs (line : list cell) : list nat :=
  match line with
  | [] => []
  | x :: rest =>
      match runs rest with
      | k :: ks => if bool_decide (head rest = Some x) then S k :: ks else 1%nat :: k :: ks
      | [] => [1%nat]
      end
  end.

(** N1: a run of length [k >= 5] contributes [3 + (k - 5)]. *)
Definition spec_run_score (k : nat) : Z :=
  if (5 <=? k)%nat then 3 + (Z.of_nat k - 5) else 0.

Definition spec_N1_line (line : list cell) : Z := sum_Z (spec_run_score <$> runs line).

(** The columns of a matrix of side [N], each from top to bottom. *)
Definition columns (N : nat) (m : matrix) : list (list cell) :=
  (λ c, (λ row : list cell, default CNone (row !! c)) <$> m) <$> seq 0 N.

(** N1: for each row and each column. *)
Definition spec_N1 (N : nat) (m : matrix) : Z :=
  sum_Z (spec_N1_line <$> m) + sum_Z (spec_N1_line <$> columns N m).

(** N2: 3 for each 2 x 2 block of identical colour, the block named by its
    top-left module; overlapping blocks count independently. *)
Definition block_of_one_colour (m : matrix) (r c : nat) : Prop :=
  cell_at m r c = cell_at m (r + 1) c ∧ cell_at m r c = cell_at m r (c + 1) ∧
  cell_at m r c = cell_at m (r + 1) (c + 1).

#[global] Instance block_of_one_colour_dec (m : matrix) (r c : nat) :
  Decision (block_of_one_colour m r c).
Proof. unfold block_of_one_colour. apply _. Defined.

Definition spec_N2 (N : nat) (m : matrix) : Z :=
  sum_Z ((λ r, sum_Z ((λ c, if bool_decide (block_of_one_colour m r c) then 3 else 0)
                        <$> seq 0 (N - 1)))
           <$> seq 0 (N - 1)).

(** N3: the two windows 10111010000 and 00001011101, bit 1 dark. *)
Definition finder_like_windows : list (list cell) :=
  [ CInt <$> [1; 0; 1; 1; 1; 0; 1; 0; 0; 0; 0];
    CInt <$> [0; 0; 0; 0; 1; 0; 1; 1; 1; 0; 1] ].

(** The windows of length 11 of a line. *)
Definition windows (line : list cell) : list (list cell) :=
  (λ i, take 11 (drop i line)) <$> seq 0 (length line - 10).

(** N3: 40 for every window of length 11 that equals one of the two. *)
Definition spec_N3_line (line : list cell) : Z :=
  sum_Z ((λ w, if bool_decide (w ∈ finder_like_windows) then 40 else 0) <$> windows line).

Definition spec_N3 (N : nat) (m : matrix) : Z :=
  sum_Z (spec_N3_line <$> m) + sum_Z (spec_N3_line <$> columns N m).

(** N4: with [p] the percentage of dark modules over all [N * N] cells,
    [10 * floor (|p - 50| / 5)], in exact arithmetic. *)
Definition spec_dark_modules (m : matrix) : Z :=
  Z.of_nat (length (filter (λ v, v = CInt 1) (concat m))).

Definition spec_N4 (N : nat) (m : matrix) : Z :=
  let total := Z.of_nat N * Z.of_nat N in
  10 * (Z.abs (100 * spec_dark_modules m - 50 * total) / (5 * total)).

(** The four-rule penalty total. *)
Definition spec_penalty_total (N : nat) (m : matrix) : Z :=
  spec_N1 N m + spec_N2 N m + spec_N3 N m + spec_N4 N m.

(** Scoring treats any cell that holds no bit yet, a reserved cell above
    all, as light. *)
Definition reserved_as_light (m : matrix) : matrix :=
  (λ row : list cell,
     (λ v, match v with CInt z => CInt z | CRes | CNone => CInt 0 end) <$> row) <$> m.

(** The cells of [m] that hold no bit yet are function cells of [fmap], as
    the reserved format cells of a pre-format matrix are in the function map
    of its version. *)
Definition placeholders_in_function_cells (m : matrix) (fmap : function_map) : Prop :=
  ∀ r c v, cell_at m r c = Some v → is_int v = false → cell_at fmap r c = Some true.

(** The pre-format matrix of version 1 for the stream 1101. *)
Definition pre_format_v1 : matrix :=
  Eval vm_compute in
    match generate_qr_module [true; true; false; true] 1 with
    | Ok m => m
    | Raise _ => []
    end.

(** * Properties *)

(** ** The result monad and loops *)

Lemma bind_Ok {A B : Type} (r : result A) (k : A → result B) (b : B) :
  bind r k = Ok b ↔ ∃ a, r = Ok a ∧ k a = Ok b.
Proof.
  destruct r as [a|e]; simpl; split.
  - intros H. exists a. auto.
  - intros (a' & Ha & Hk). congruence.
  - discriminate.
  - intros (a' & Ha & _). discriminate.
Qed.

(** A loop over an interval of integers establishes an invariant indexed by
    the loop counter. *)
Lemma for_each_seqZ_inv {S : Type} (P : Z → S → Prop) (body : Z → S → result S)
    (a n : Z) (s : S) :
  0 ≤ n →
  P a s →
  (∀ k t, a ≤ k < a + n → P k t → ∃ t', body k t = Ok t' ∧ P (k + 1) t') →
  ∃ s', for_each (seqZ a n) body s = Ok s' ∧ P (a + n) s'.
Proof.
  intros Hn. revert a s.
  induction n as [|n Hn' IH|] using (Z.succ_pred_induction 0); intros a s HP Hbody.
  - exists s. rewrite Z.add_0_r. by rewrite seqZ_nil.
  - rewrite seqZ_cons by lia. simpl.
    destruct (Hbody a s) as (t & Ht & HPt); [lia|done|].
    rewrite Ht. simpl. replace (Z.pred (Z.succ n)) with n by lia.
    destruct (IH Hn' (Z.succ a) t) as (s' & Hs' & HPs').
    + by replace (Z.succ a) with (a + 1) by lia.
    + intros k u Hk Hu. apply Hbody; [lia|done].
    + exists s'. split; [done|]. by replace (a + Z.succ n) with (Z.succ a + n) by lia.
  - lia.
Qed.

(** ** Python indexing inside the bounds *)

Lemma py_index_in_range (n : nat) (i : Z) :
  0 ≤ i < Z.of_nat n → py_index n i = Some (Z.to_nat i).
Proof.
  intros Hi. unfold py_index.
  destruct (0 <=? i) eqn:H1; [|lia]. destruct (i <? Z.of_nat n) eqn:H2; [done|lia].
Qed.

Lemma getitem_lookup {A : Type} (l : list A) (k : nat) (x : A) :
  l !! k = Some x → getitem l (Z.of_nat k) = Ok x.
Proof.
  intros Hk. unfold getitem.
  rewrite py_index_in_range by (apply lookup_lt_Some in Hk; lia).
  by rewrite Nat2Z.id, Hk.
Qed.

Lemma getitem_lookup_Z {A : Type} (l : list A) (i : Z) (x : A) :
  0 ≤ i → l !! Z.to_nat i = Some x → getitem l i = Ok x.
Proof.
  intros Hi Hx. rewrite <- (Z2Nat.id i) by done. by apply getitem_lookup.
Qed.

Lemma setitem_in_range {A : Type} (l : list A) (k : nat) (x : A) :
  (k < length l)%nat → setitem l (Z.of_nat k) x = Ok (<[k:=x]> l).
Proof.
  intros Hk. unfold setitem. rewrite py_index_in_range by lia. by rewrite Nat2Z.id.
Qed.

Lemma mget_cell_at {A : Type} (m : list (list A)) (r c : nat) (x : A) :
  cell_at m r c = Some x → mget m (Z.of_nat r) (Z.of_nat c) = Ok x.
Proof.
  unfold cell_at, mget. intros H.
  destruct (m !! r) as [row|] eqn:Hr; [|done]. simpl in H.
  rewrite (getitem_lookup _ _ _ Hr). simpl. by apply getitem_lookup.
Qed.

Lemma mset_in_range {A : Type} (m : list (list A)) (r c : nat) (row : list A) (x : A) :
  m !! r = Some row → (c < length row)%nat →
  mset m (Z.of_nat r) (Z.of_nat c) x = Ok (<[r := <[c:=x]> row]> m).
Proof.
  intros Hr Hc. unfold mset. rewrite (getitem_lookup _ _ _ Hr). simpl.
  rewrite setitem_in_range by done. simpl.
  apply setitem_in_range. by apply lookup_lt_Some in Hr.
Qed.

Lemma shape_lookup {A : Type} (rows cols : nat) (m : list (list A)) (r : nat) :
  shape rows cols m → (r < rows)%nat → ∃ row, m !! r = Some row ∧ length row = cols.
Proof.
  intros [Hlen Hall] Hr.
  destruct (lookup_lt_is_Some_2 m r) as [row Hrow]; [lia|].
  exists row. split; [done|]. by eapply Forall_lookup_1 in Hall.
Qed.

Lemma shape_cell_at {A : Type} (rows cols : nat) (m : list (list A)) (r c : nat) :
  shape rows cols m → (r < rows)%nat → (c < cols)%nat → is_Some (cell_at m r c).
Proof.
  intros Hs Hr Hc. destruct (shape_lookup _ _ _ _ Hs Hr) as (row & Hrow & Hlen).
  unfold cell_at. rewrite Hrow. simpl. apply lookup_lt_is_Some_2. lia.
Qed.

Lemma cell_at_Some_lt {A : Type} (rows cols : nat) (m : list (list A)) (r c : nat) (x : A) :
  shape rows cols m → cell_at m r c = Some x → (r < rows)%nat ∧ (c < cols)%nat.
Proof.
  intros [Hlen Hall] H. unfold cell_at in H.
  destruct (m !! r) as [row|] eqn:Hr; [|done]. simpl in H.
  pose proof (Forall_lookup_1 _ _ _ _ Hall Hr) as Hrow. simpl in Hrow.
  apply lookup_lt_Some in Hr, H. lia.
Qed.

(** ** Masking *)

Lemma cell_at_masked_upto (p : Z) (fmap : function_map) (R C : nat) (m : matrix) (r c : nat) :
  cell_at (masked_upto p fmap R C m) r c =
  (λ v, if (r <? R)%nat || ((r =? R)%nat && (c <? C)%nat)
        then masked_cell p fmap r c v else v) <$> cell_at m r c.
Proof.
  unfold cell_at, masked_upto. rewrite list_lookup_imap.
  destruct (m !! r) as [row|]; simpl; [|done]. by rewrite list_lookup_imap.
Qed.

Lemma cell_at_masked (p : Z) (fmap : function_map) (m : matrix) (r c : nat) :
  cell_at (masked p fmap m) r c = masked_cell p fmap r c <$> cell_at m r c.
Proof.
  unfold cell_at, masked. rewrite list_lookup_imap.
  destruct (m !! r) as [row|]; simpl; [|done]. by rewrite list_lookup_imap.
Qed.

Lemma masked_shape (p : Z) (fmap : function_map) (m : matrix) (rows cols : nat) :
  shape rows cols m → shape rows cols (masked p fmap m).
Proof.
  intros [Hlen Hall]. split.
  - unfold masked. by rewrite length_imap.
  - apply Forall_lookup. intros r row Hr. unfold masked in Hr.
    rewrite list_lookup_imap in Hr. destruct (m !! r) as [row0|] eqn:Hr0; [|done].
    simpl in Hr. injection Hr as <-. rewrite length_imap.
    by eapply Forall_lookup_1 in Hall.
Qed.

(** Treating one more cell is an update of that cell. *)
Lemma masked_upto_S (p : Z) (fmap : function_map) (m : matrix) (r c : nat)
    (row : list cell) (v : cell) :
  m !! r = Some row → row !! c = Some v →
  masked_upto p fmap r (S c) m =
  <[r := <[c := masked_cell p fmap r c v]>
           (imap (λ c' v', if (r <? r)%nat || ((r =? r)%nat && (c' <? c)%nat)
                           then masked_cell p fmap r c' v' else v') row)]>
    (masked_upto p fmap r c m).
Proof.
  intros Hr Hc. apply list_eq. intros r'.
  rewrite list_lookup_insert.
  destruct (decide (r = r' ∧ (r < length (masked_upto p fmap r c m))%nat)) as [[<- _]|Hne].
  - unfold masked_upto. rewrite list_lookup_imap.
    rewrite Hr. simpl. f_equal. apply list_eq. intros c'.
    rewrite list_lookup_insert, !list_lookup_imap, length_imap.
    destruct (decide (c = c' ∧ (c < length row)%nat)) as [[<- _]|Hne].
    + rewrite Hc. simpl. rewrite Nat.eqb_refl.
      replace (c <? S c)%nat with true by (symmetry; apply Nat.ltb_lt; lia).
      by rewrite orb_true_r.
    + assert (c ≠ c') as Hcc.
      { intros <-. apply Hne. split; [done|]. by apply lookup_lt_Some in Hc. }
      destruct (row !! c') as [v'|]; simpl; [|done].
      replace (c' <? S c)%nat with (c' <? c)%nat; [done|].
      destruct (Nat.ltb_spec c' c), (Nat.ltb_spec c' (S c)); lia || done.
  - assert (r ≠ r') as Hrr.
    { intros <-. apply Hne. split; [done|].
      unfold masked_upto. rewrite length_imap. by apply lookup_lt_Some in Hr. }
    unfold masked_upto. rewrite !list_lookup_imap.
    destruct (m !! r') as [row'|]; simpl; [|done]. f_equal.
    apply imap_ext. intros c' v' _.
    replace (r' =? r)%nat with false by (symmetry; apply Nat.eqb_neq; lia).
    done.
Qed.

Lemma mask_step_spec (p : Z) (fmap : function_map) (m : matrix) (rows cols r c : nat) :
  shape rows cols m → shape rows cols fmap → (r < rows)%nat → (c < cols)%nat →
  mask_step p fmap (Z.of_nat r) (Z.of_nat c) (masked_upto p fmap r c m)
  = Ok (masked_upto p fmap r (S c) m).
Proof.
  intros Hm Hf Hr Hc.
  destruct (shape_cell_at _ _ _ _ _ Hf Hr Hc) as [f Hfc].
  destruct (shape_lookup _ _ _ _ Hm Hr) as (row & Hrow & Hlen).
  destruct (lookup_lt_is_Some_2 row c) as [v Hv]; [lia|].
  assert (cell_at (masked_upto p fmap r c m) r c = Some v) as Hcur.
  { rewrite cell_at_masked_upto. unfold cell_at. rewrite Hrow. simpl. rewrite Hv. simpl.
    rewrite Nat.ltb_irrefl. simpl. by rewrite Nat.ltb_irrefl, andb_false_r. }
  assert (masked_upto p fmap r c m !! r =
          Some (imap (λ c' v', if (r <? r)%nat || ((r =? r)%nat && (c' <? c)%nat)
                               then masked_cell p fmap r c' v' else v') row)) as Hcurrow.
  { unfold masked_upto. rewrite list_lookup_imap, Hrow. done. }
  rewrite (masked_upto_S _ _ _ _ _ _ _ Hrow Hv).
  unfold mask_step. rewrite (mget_cell_at _ _ _ _ Hfc). simpl.
  unfold masked_cell. rewrite Hfc.
  assert (∀ x, x = v →
    Ok (masked_upto p fmap r c m) =
    Ok (<[r := <[c := x]> (imap (λ c' v', if (r <? r)%nat || ((r =? r)%nat && (c' <? c)%nat)
                                   then masked_cell p fmap r c' v' else v') row)]>
          (masked_upto p fmap r c m))) as Hid.
  { intros x ->. f_equal. symmetry. apply list_insert_id. rewrite Hcurrow. f_equal.
    symmetry. apply list_insert_id. rewrite list_lookup_imap, Hv. simpl.
    rewrite Nat.ltb_irrefl. simpl. by rewrite Nat.ltb_irrefl, andb_false_r. }
  destruct f.
  - by apply Hid.
  - rewrite (mget_cell_at _ _ _ _ Hcur). simpl.
    destruct v as [z| |]; try by apply Hid.
    destruct (MASK_CONDITION_FUNCTIONS p (Z.of_nat r) (Z.of_nat c)); [|by apply Hid].
    apply (mset_in_range _ _ _ _ _ Hcurrow). rewrite length_imap. lia.
Qed.

Lemma masked_upto_row_end (p : Z) (fmap : function_map) (m : matrix) (rows cols r : nat) :
  shape rows cols m → masked_upto p fmap r cols m = masked_upto p fmap (S r) 0 m.
Proof.
  intros [Hlen Hall]. unfold masked_upto. apply imap_ext. intros r' row Hr'.
  apply imap_ext. intros c' v Hc'.
  pose proof (Forall_lookup_1 _ _ _ _ Hall Hr') as Hrow. simpl in Hrow.
  apply lookup_lt_Some in Hc'.
  replace (c' <? cols)%nat with true by (symmetry; apply Nat.ltb_lt; lia).
  rewrite andb_true_r, andb_false_r, orb_false_r.
  destruct (Nat.ltb_spec r' r), (Nat.eqb_spec r' r), (Nat.ltb_spec r' (S r)); lia || done.
Qed.

Lemma masked_upto_0 (p : Z) (fmap : function_map) (m : matrix) :
  masked_upto p fmap 0 0 m = m.
Proof.
  unfold masked_upto. apply list_eq. intros r. rewrite list_lookup_imap.
  destruct (m !! r) as [row|]; simpl; [|done]. f_equal.
  apply list_eq. intros c. rewrite list_lookup_imap.
  destruct (row !! c); simpl; [|done]. by rewrite andb_false_r.
Qed.

Lemma masked_upto_all (p : Z) (fmap : function_map) (m : matrix) :
  masked_upto p fmap (length m) 0 m = masked p fmap m.
Proof.
  unfold masked_upto, masked. apply imap_ext. intros r row Hr.
  apply imap_ext. intros c v _. apply lookup_lt_Some in Hr.
  by replace (r <? length m)%nat with true by (symmetry; apply Nat.ltb_lt; lia).
Qed.

(** On a rectangular matrix with a function map of the same dimensions the
    two nested loops compute [masked]. *)
Lemma apply_specific_mask_pattern_masked (p : Z) (m : matrix) (fmap : function_map)
    (rows cols : nat) :
  0 ≤ p ≤ 7 → (0 < rows)%nat → shape rows cols m → shape rows cols fmap →
  apply_specific_mask_pattern p m fmap = Ok (masked p fmap m).
Proof.
  intros Hp Hrows Hm Hf. unfold apply_specific_mask_pattern.
  replace ((0 <=? p) && (p <=? 7)) with true by (symmetry; apply andb_true_iff; lia).
  simpl negb. cbv iota.
  pose proof Hm as [Hlen Hall]. pose proof Hf as [Hflen Hfall].
  destruct m as [|row0 mtl] eqn:Em; [simpl in Hlen; lia|]. rewrite <- Em in *.
  assert (length row0 = cols) as Hrow0.
  { rewrite Em in Hall. by inversion Hall. }
  destruct fmap as [|frow0 ftl] eqn:Ef; [simpl in Hflen; lia|]. rewrite <- Ef in *.
  assert (length frow0 = cols) as Hfrow0.
  { rewrite Ef in Hfall. by inversion Hfall. }
  rewrite Hflen, Hlen, Z.eqb_refl. simpl negb. cbv iota.
  rewrite Hrow0, Hfrow0, Z.eqb_refl. simpl negb.
  replace (if 0 <? Z.of_nat cols then false else false) with false by (by destruct (0 <? _)).
  cbv iota. unfold range.
  destruct (for_each_seqZ_inv
              (λ k s, 0 ≤ k ∧ s = masked_upto p fmap (Z.to_nat k) 0 m)
              (λ r out, for_each (seqZ 0 (Z.of_nat cols))
                          (λ c out', mask_step p fmap r c out') out)
              0 (Z.of_nat rows) m) as (s' & Hs' & _ & ->).
  - lia.
  - split; [lia|]. by rewrite masked_upto_0.
  - intros k t Hk [_ ->].
    destruct (for_each_seqZ_inv
                (λ j s, 0 ≤ j ∧ s = masked_upto p fmap (Z.to_nat k) (Z.to_nat j) m)
                (λ c out', mask_step p fmap k c out')
                0 (Z.of_nat cols) (masked_upto p fmap (Z.to_nat k) 0 m))
      as (s'' & Hs'' & _ & ->).
    + lia.
    + done.
    + intros j t' Hj [_ ->]. eexists. split; [|split; [lia|done]].
      rewrite <- (Z2Nat.id k) at 1 by lia. rewrite <- (Z2Nat.id j) at 1 by lia.
      replace (Z.to_nat (j + 1)) with (S (Z.to_nat j)) by lia.
      eapply mask_step_spec; eauto; lia.
    + eexists. split; [exact Hs''|]. split; [lia|].
      replace (Z.to_nat (0 + Z.of_nat cols)) with cols by lia.
      replace (Z.to_nat (k + 1)) with (S (Z.to_nat k)) by lia.
      by eapply masked_upto_row_end.
  - rewrite Hs'. f_equal.
    replace (Z.to_nat (0 + Z.of_nat rows)) with (length m) by lia.
    apply masked_upto_all.
Qed.

Lemma MASK_CONDITION_FUNCTIONS_spec (p r c : Z) :
  0 ≤ p ≤ 7 → MASK_CONDITION_FUNCTIONS p r c = true ↔ spec_mask_predicate p r c.
Proof.
  intros Hp.
  assert (p = 0 ∨ p = 1 ∨ p = 2 ∨ p = 3 ∨ p = 4 ∨ p = 5 ∨ p = 6 ∨ p = 7) as Hcases by lia.
  destruct Hcases as [->|[->|[->|[->|[->|[->|[->| ->]]]]]]]; simpl;
    unfold _should_mask_pattern_0, _should_mask_pattern_1, _should_mask_pattern_2,
      _should_mask_pattern_3, _should_mask_pattern_4, _should_mask_pattern_5,
      _should_mask_pattern_6, _should_mask_pattern_7;
    apply Z.eqb_eq.
Qed.

Lemma lxor_1_ne (z : Z) : Z.lxor z 1 ≠ z.
Proof.
  intros H. assert (Z.lxor (Z.lxor z 1) z = 0) as H0 by (rewrite H; apply Z.lxor_nilpotent).
  rewrite (Z.lxor_comm z 1), Z.lxor_assoc, Z.lxor_nilpotent, Z.lxor_0_r in H0. lia.
Qed.

Lemma lxor_1_twice (z : Z) : Z.lxor (Z.lxor z 1) 1 = z.
Proof. rewrite Z.lxor_assoc, Z.lxor_nilpotent. apply Z.lxor_0_r. Qed.

Lemma masked_cell_twice (p : Z) (fmap : function_map) (r c : nat) (v : cell) :
  masked_cell p fmap r c (masked_cell p fmap r c v) = v.
Proof.
  unfold masked_cell. destruct (cell_at fmap r c) as [[|]|]; try done.
  destruct v as [z| |]; try done.
  destruct (MASK_CONDITION_FUNCTIONS p (Z.of_nat r) (Z.of_nat c)) eqn:E; rewrite ?E; [|done].
  by rewrite lxor_1_twice.
Qed.

Lemma masked_twice (p : Z) (fmap : function_map) (m : matrix) :
  masked p fmap (masked p fmap m) = m.
Proof.
  unfold masked. apply list_eq. intros r. rewrite !list_lookup_imap.
  destruct (m !! r) as [row|]; simpl; [|done]. f_equal.
  apply list_eq. intros c. rewrite !list_lookup_imap.
  destruct (row !! c) as [v|]; simpl; [|done]. by rewrite masked_cell_twice.
Qed.

(** C6: for a mask id in 0..7, a function map of the dimensions of the matrix
    and a matrix whose cells are 0 or 1 wherever the function map is false,
    [apply_specific_mask_pattern] returns a matrix of the same dimensions in
    which a cell is the input cell XOR 1 (and so differs from it) exactly when
    the function map is false there and the mask predicate of the
    specification holds, and is the input cell everywhere else; cells under a
    true function map and reserved cells keep their value. *)
Theorem apply_specific_mask_pattern_flips_exactly_data_cells
    (p : Z) (m : matrix) (fmap : function_map) (rows cols : nat) :
  0 ≤ p ≤ 7 → (0 < rows)%nat → shape rows cols m → shape rows cols fmap →
  (∀ r c v, cell_at fmap r c = Some false → cell_at m r c = Some v →
            v = CInt 0 ∨ v = CInt 1) →
  ∃ out,
    apply_specific_mask_pattern p m fmap = Ok out ∧ shape rows cols out ∧
    ∀ r c, (r < rows)%nat → (c < cols)%nat →
      ∃ f v w,
        cell_at fmap r c = Some f ∧ cell_at m r c = Some v ∧ cell_at out r c = Some w ∧
        (f = false ∧ spec_mask_predicate p (Z.of_nat r) (Z.of_nat c) →
           ∃ z, v = CInt z ∧ w = CInt (Z.lxor z 1) ∧ w ≠ v) ∧
        (¬ (f = false ∧ spec_mask_predicate p (Z.of_nat r) (Z.of_nat c)) → w = v) ∧
        (f = true → w = v) ∧ (v = CRes → w = v).
Proof.
  intros Hp Hrows Hm Hf Hbits. exists (masked p fmap m).
  split; [by eapply apply_specific_mask_pattern_masked|].
  split; [by apply masked_shape|].
  intros r c Hr Hc.
  destruct (shape_cell_at _ _ _ _ _ Hf Hr Hc) as [f Hfc].
  destruct (shape_cell_at _ _ _ _ _ Hm Hr Hc) as [v Hv].
  exists f, v, (masked_cell p fmap r c v).
  split; [done|]. split; [done|]. split; [by rewrite cell_at_masked, Hv|].
  unfold masked_cell. rewrite Hfc.
  pose proof (MASK_CONDITION_FUNCTIONS_spec p (Z.of_nat r) (Z.of_nat c) Hp) as Hspec.
  repeat split.
  - intros [-> Hpred]. apply Hspec in Hpred. rewrite Hpred.
    destruct (Hbits r c v Hfc Hv) as [-> | ->]; eexists; (split; [done|]); split; done.
  - intros Hn. destruct f; [done|]. destruct v as [z| |]; try done.
    destruct (MASK_CONDITION_FUNCTIONS p (Z.of_nat r) (Z.of_nat c)); [|done].
    exfalso. apply Hn. split; [done|]. by apply Hspec.
  - by intros ->.
  - intros ->. by destruct f.
Qed.

Lemma apply_specific_mask_pattern_flips_exactly_data_cells_witness :
  ∃ out,
    apply_specific_mask_pattern 3 [[CInt 0; CInt 1]; [CRes; CInt 1]]
      [[false; false]; [true; false]] = Ok out ∧ shape 2 2 out ∧
    ∀ r c, (r < 2)%nat → (c < 2)%nat →
      ∃ f v w,
        cell_at [[false; false]; [true; false]] r c = Some f ∧
        cell_at [[CInt 0; CInt 1]; [CRes; CInt 1]] r c = Some v ∧
        cell_at out r c = Some w ∧
        (f = false ∧ spec_mask_predicate 3 (Z.of_nat r) (Z.of_nat c) →
           ∃ z, v = CInt z ∧ w = CInt (Z.lxor z 1) ∧ w ≠ v) ∧
        (¬ (f = false ∧ spec_mask_predicate 3 (Z.of_nat r) (Z.of_nat c)) → w = v) ∧
        (f = true → w = v) ∧ (v = CRes → w = v).
Proof.
  apply (apply_specific_mask_pattern_flips_exactly_data_cells 3
           [[CInt 0; CInt 1]; [CRes; CInt 1]] [[false; false]; [true; false]] 2 2).
  - lia.
  - lia.
  - split; [reflexivity|]. repeat constructor.
  - split; [reflexivity|]. repeat constructor.
  - intros [|[|r]] [|[|c]] v Hf Hv; cbv in Hf, Hv; simplify_eq; auto.
Defined.

(** C10: for a mask id in 0..7, a matrix and a function map of the same
    dimensions, applying [apply_specific_mask_pattern] to its own result, with
    the same pattern id and function map, gives back the input matrix. (The
    cells need not even be 0 or 1.) *)
Theorem apply_specific_mask_pattern_involution
    (p : Z) (m : matrix) (fmap : function_map) (rows cols : nat) :
  0 ≤ p ≤ 7 → (0 < rows)%nat → shape rows cols m → shape rows cols fmap →
  ∃ out,
    apply_specific_mask_pattern p m fmap = Ok out ∧
    apply_specific_mask_pattern p out fmap = Ok m.
Proof.
  intros Hp Hrows Hm Hf. exists (masked p fmap m).
  split; [by eapply apply_specific_mask_pattern_masked|].
  rewrite (apply_specific_mask_pattern_masked p _ fmap rows cols);
    [|done|done|by apply masked_shape|done].
  by rewrite masked_twice.
Qed.

Lemma apply_specific_mask_pattern_involution_witness :
  ∃ out,
    apply_specific_mask_pattern 6 [[CInt 0; CInt 1; CInt 1]; [CRes; CInt 1; CInt 0]]
      [[false; false; false]; [true; false; false]] = Ok out ∧
    apply_specific_mask_pattern 6 out [[false; false; false]; [true; false; false]]
    = Ok [[CInt 0; CInt 1; CInt 1]; [CRes; CInt 1; CInt 0]].
Proof.
  apply (apply_specific_mask_pattern_involution 6 _ _ 2 3).
  - lia.
  - lia.
  - split; [reflexivity|]. repeat constructor.
  - split; [reflexivity|]. repeat constructor.
Defined.

(** ** Matrices of a known size as tables *)

Lemma tabulate_shape {A : Type} (rows cols : nat) (f : nat → nat → A) :
  shape rows cols (tabulate rows cols f).
Proof.
  split.
  - unfold tabulate. by rewrite length_fmap, length_seq.
  - unfold tabulate. apply Forall_fmap, Forall_forall. intros r _. simpl.
    by rewrite length_fmap, length_seq.
Qed.

Lemma shape_tabulate {A : Type} (d : A) (rows cols : nat) (m : list (list A)) :
  shape rows cols m →
  m = tabulate rows cols (λ r c, default d (cell_at m r c)).
Proof.
  intros [Hlen Hall]. apply list_eq. intros r. unfold tabulate.
  rewrite list_lookup_fmap.
  destruct (m !! r) as [row|] eqn:Hr.
  - pose proof (Forall_lookup_1 _ _ _ _ Hall Hr) as Hrow. simpl in Hrow.
    rewrite lookup_seq_lt by (apply lookup_lt_Some in Hr; lia). simpl. f_equal.
    apply list_eq. intros c. rewrite list_lookup_fmap.
    destruct (row !! c) as [x|] eqn:Hc.
    + rewrite lookup_seq_lt by (apply lookup_lt_Some in Hc; lia). simpl.
      unfold cell_at. rewrite Hr. simpl. by rewrite Hc.
    + apply lookup_ge_None in Hc. by rewrite lookup_seq_ge by lia.
  - apply lookup_ge_None in Hr. by rewrite lookup_seq_ge by lia.
Qed.

Lemma list_of_length_15 {A : Type} (l : list A) :
  length l = 15%nat →
  ∃ a0 a1 a2 a3 a4 a5 a6 a7 a8 a9 a10 a11 a12 a13 a14,
    l = [a0; a1; a2; a3; a4; a5; a6; a7; a8; a9; a10; a11; a12; a13; a14].
Proof.
  intros H. do 15 (destruct l as [|? l]; [discriminate|]).
  destruct l; [|discriminate]. by repeat eexists.
Qed.

(** ** Format information placement *)

(** What [place_format_information] returns on a version 1 or version 2
    matrix: it leaves through its [return], the dark module is 1, and the
    cells listed in [format_cells_as_written] hold the bits given there. *)
Lemma place_format_information_cells (N : nat) (m : matrix) (fmt : list bool) :
  N = 21%nat ∨ N = 25%nat → shape N N m → length fmt = 15%nat →
  ∃ out,
    place_format_information m fmt (Z.of_nat N) = Ok (Some out) ∧
    shape N N out ∧
    cell_at out (N - 8) 8 = Some (CInt 1) ∧
    Forall (λ rci, cell_at out rci.1.1 rci.1.2 = Some (format_bit fmt rci.2))
      (format_cells_as_written N).
Proof.
  intros HN Hm Hfmt.
  destruct (list_of_length_15 fmt Hfmt)
    as (b0 & b1 & b2 & b3 & b4 & b5 & b6 & b7 & b8 & b9 & b10 & b11 & b12 & b13 & b14 & ->).
  rewrite (shape_tabulate CNone N N m Hm).
  generalize (λ r c, default CNone (cell_at m r c)). intros f.
  destruct HN as [-> | ->].
  - remember (place_format_information _ _ _) as res eqn:E. vm_compute in E. subst res.
    eexists. split; [reflexivity|].
    split; [split; [reflexivity|repeat constructor]|].
    split; [reflexivity|]. repeat constructor.
  - remember (place_format_information _ _ _) as res eqn:E. vm_compute in E. subst res.
    eexists. split; [reflexivity|].
    split; [split; [reflexivity|repeat constructor]|].
    split; [reflexivity|]. repeat constructor.
Qed.

(** C1 (the code departs from the specification): on the all-zero 21x21
    matrix and the format string of level L with mask 3, 111100010011101,
    [place_format_information] returns a matrix whose primary cells do not
    hold the bits in their order: cell (8,0) holds bit 8 (a 0) where bit 0 is
    1, and cell (7,8) holds bit 14 (a 1) where bit 8 is 0. *)
Theorem place_format_information_overwrites_primary_copy :
  let fmt := [true; true; true; true; false; false; false; true;
              false; false; true; true; true; false; true] in
  get_format_string [false; true] [false; true; true] = Ok fmt ∧
  ∃ out,
    place_format_information (replicate 21 (replicate 21 (CInt 0))) fmt 21 = Ok (Some out) ∧
    cell_at out 8 0 = Some (CInt 0) ∧ format_bit fmt 0 = CInt 1 ∧
    cell_at out 7 8 = Some (CInt 1) ∧ format_bit fmt 8 = CInt 0 ∧
    ¬ spec_primary_copy_placed out fmt.
Proof.
  intros fmt. split; [by vm_compute|].
  remember (place_format_information _ _ _) as res eqn:E. vm_compute in E. subst res.
  eexists. split; [reflexivity|].
  repeat split.
  intros H. specialize (H 0%nat 8 0 eq_refl). vm_compute in H. discriminate.
Qed.

(** ** The penalty rules return on square matrices *)

Lemma mget_in_shape {A : Type} (rows cols : nat) (m : list (list A)) (r c : Z) :
  shape rows cols m → 0 ≤ r < Z.of_nat rows → 0 ≤ c < Z.of_nat cols →
  ∃ x, mget m r c = Ok x ∧ cell_at m (Z.to_nat r) (Z.to_nat c) = Some x.
Proof.
  intros Hm Hr Hc.
  destruct (shape_cell_at rows cols m (Z.to_nat r) (Z.to_nat c) Hm) as [x Hx]; [lia..|].
  exists x. split; [|done].
  rewrite <- (Z2Nat.id r), <- (Z2Nat.id c) by lia. by apply mget_cell_at.
Qed.

(** A loop whose body always returns, returns. *)
Lemma for_each_seqZ_returns {S : Type} (body : Z → S → result S) (a n : Z) (s : S) :
  (∀ k t, a ≤ k < a + n → ∃ t', body k t = Ok t') →
  ∃ s', for_each (seqZ a n) body s = Ok s'.
Proof.
  intros Hbody. destruct (Z.le_gt_cases 0 n) as [Hn|Hn].
  - destruct (for_each_seqZ_inv (λ _ _, True) body a n s Hn I) as (s' & Hs' & _).
    + intros k t Hk _. destruct (Hbody k t Hk) as [t' Ht']. eauto.
    + eauto.
  - exists s. by rewrite seqZ_nil by lia.
Qed.

Lemma rule1_line_returns (size : Z) (get : Z → result cell) (penalty : Z) :
  (∀ j, 0 ≤ j < size → ∃ x, get j = Ok x) →
  ∃ z, rule1_line size get penalty = Ok z.
Proof.
  intros Hget. unfold rule1_line.
  assert (∃ v, (if 0 <? size then get 0 else Ok (CInt (-1))) = Ok v) as [v ->].
  { destruct (Z.ltb_spec 0 size); [apply Hget; lia|eauto]. }
  simpl. unfold range2.
  match goal with
  | |- context [for_each (seqZ ?a ?n) ?body ?s0] =>
      destruct (for_each_seqZ_returns body a n s0) as [st ->]
  end.
  - intros k [[count cur] pen] Hk. destruct (Hget k) as [x Hx]; [lia|].
    cbn beta iota. rewrite Hx. simpl.
    destruct (cell_eqb x cur); simpl; eauto.
  - simpl. destruct st as [[count cur] pen]. eauto.
Qed.

Lemma _calculate_penalty_rule1_returns (n : nat) (m : matrix) :
  shape n n m → ∃ z, _calculate_penalty_rule1 m = Ok z.
Proof.
  intros Hm. unfold _calculate_penalty_rule1, range, len. destruct Hm as [Hlen Hall].
  rewrite Hlen. pose proof (conj Hlen Hall : shape n n m) as Hm.
  destruct (for_each_seqZ_returns
    (λ r_idx penalty, rule1_line (Z.of_nat n) (λ c_idx, mget m r_idx c_idx) penalty)
    0 (Z.of_nat n) 0) as [pen ->].
  - intros k t Hk. apply rule1_line_returns. intros j Hj.
    destruct (mget_in_shape n n m k j Hm) as (x & Hx & _); [lia..|]. eauto.
  - simpl. apply for_each_seqZ_returns.
    intros k t Hk. apply rule1_line_returns. intros j Hj.
    destruct (mget_in_shape n n m j k Hm) as (x & Hx & _); [lia..|]. eauto.
Qed.

Lemma _calculate_penalty_rule2_returns (n : nat) (m : matrix) :
  shape n n m → ∃ z, _calculate_penalty_rule2 m = Ok z.
Proof.
  intros Hm. unfold _calculate_penalty_rule2, range, len.
  replace (length m) with n by (by destruct Hm).
  apply for_each_seqZ_returns. intros r pen Hr.
  apply for_each_seqZ_returns. intros c pen' Hc.
  destruct (mget_in_shape n n m r c Hm) as (a & Ha & _); [lia..|].
  destruct (mget_in_shape n n m (r + 1) c Hm) as (b & Hb & _); [lia..|].
  destruct (mget_in_shape n n m r (c + 1) Hm) as (b' & Hb' & _); [lia..|].
  destruct (mget_in_shape n n m (r + 1) (c + 1) Hm) as (b'' & Hb'' & _); [lia..|].
  cbn beta. rewrite Ha, Hb, Hb', Hb''. simpl.
  destruct (cell_eqb a b), (cell_eqb a b'), (cell_eqb a b''); eauto.
Qed.

Lemma list_comprehension_returns {A : Type} (ks : list Z) (f : Z → result A) :
  (∀ k, k ∈ ks → ∃ a, f k = Ok a) → ∃ l, list_comprehension ks f = Ok l.
Proof.
  induction ks as [|k ks IH]; intros Hf; simpl; [eauto|].
  destruct (Hf k) as [a ->]; [by left|]. simpl.
  destruct IH as [l ->]; [|simpl; eauto].
  intros k' Hk'. apply Hf. by right.
Qed.

Lemma _calculate_penalty_rule3_returns (n : nat) (m : matrix) :
  shape n n m → ∃ z, _calculate_penalty_rule3 m = Ok z.
Proof.
  intros Hm. unfold _calculate_penalty_rule3, range, len.
  replace (length m) with n by (by destruct Hm).
  destruct (for_each_seqZ_returns
    (λ r_idx penalty,
       for_each (seqZ 0 (Z.of_nat n - 11 + 1))
         (λ c_idx penalty0,
            row <- getitem m r_idx ;;
            if matches_finder_like (take (Z.to_nat 11) (drop (Z.to_nat c_idx) row))
            then Ok (penalty0 + 40) else Ok penalty0) penalty)
    0 (Z.of_nat n) 0) as [pen ->].
  - intros r t Hr. apply for_each_seqZ_returns. intros c t' Hc.
    destruct (shape_lookup n n m (Z.to_nat r) Hm) as (row & Hrow & _); [lia|].
    cbn beta. rewrite (getitem_lookup_Z m r row) by (lia || done). simpl.
    destruct (matches_finder_like _); eauto.
  - simpl. apply for_each_seqZ_returns. intros c t Hc.
    apply for_each_seqZ_returns. intros r t' Hr.
    destruct (list_comprehension_returns (range2 r (r + 11)) (λ k, mget m k c)) as [l ->].
    + intros k Hk. unfold range2 in Hk. apply elem_of_seqZ in Hk.
      destruct (mget_in_shape n n m k c Hm) as (x & Hx & _); [lia..|]. eauto.
    + simpl. destruct (matches_finder_like l); eauto.
Qed.

Lemma calculate_total_penalty_score_returns (n : nat) (m : matrix) :
  shape n n m → ∃ sp, calculate_total_penalty_score m = Ok sp.
Proof.
  intros Hm. unfold calculate_total_penalty_score.
  destruct (match m with [] => true | row0 :: _ => bool_decide (row0 = []) end); [eauto|].
  destruct (_calculate_penalty_rule1_returns n m Hm) as [p1 ->].
  destruct (_calculate_penalty_rule2_returns n m Hm) as [p2 ->].
  destruct (_calculate_penalty_rule3_returns n m Hm) as [p3 ->].
  simpl. eauto.
Qed.

(** ** Choice of the mask *)

Lemma int_or_zero_shape (rows cols : nat) (m : matrix) :
  shape rows cols m → shape rows cols (int_or_zero m).
Proof.
  intros [Hlen Hall]. split.
  - unfold int_or_zero. by rewrite length_fmap.
  - unfold int_or_zero. apply Forall_fmap. eapply Forall_impl; [exact Hall|].
    intros row Hrow. simpl. by rewrite length_fmap.
Qed.

Lemma mask_score_returns (n : nat) (m : matrix) (fmap : function_map) (p : Z) :
  (0 < n)%nat → shape n n m → shape n n fmap → 0 ≤ p ≤ 7 →
  ∃ s, mask_score m fmap p = Ok s.
Proof.
  intros Hn Hm Hf Hp. unfold mask_score.
  rewrite (apply_specific_mask_pattern_masked p _ fmap n n);
    [|done|done|by apply int_or_zero_shape|done].
  simpl.
  destruct (calculate_total_penalty_score_returns n (masked p fmap (int_or_zero m)))
    as [sp ->]; [by apply masked_shape, int_or_zero_shape|].
  simpl. eauto.
Qed.

Lemma find_best_pattern_step (n : nat) (m : matrix) (fmap : function_map) (k : Z) (b : best) :
  (0 < n)%nat → shape n n m → shape n n fmap → 0 ≤ k < 8 →
  best_among m fmap k b →
  ∃ b',
    (current_masked_for_eval_scoring <-
       apply_specific_mask_pattern k (int_or_zero m) fmap ;;
     sp <- calculate_total_penalty_score current_masked_for_eval_scoring ;;
     let score := sp.1 in
     let better :=
       match best_score b with
       | None => true
       | Some bs => score <? bs
       end in
     if better then
       bm <- apply_specific_mask_pattern k m fmap ;;
       Ok (mk_best (Some score) k (Some bm))
     else Ok b) = Ok b' ∧
    best_among m fmap (k + 1) b'.
Proof.
  intros Hn Hm Hf Hk Hb.
  destruct (mask_score_returns n m fmap k Hn Hm Hf) as [s Hs]; [lia|].
  pose proof Hs as Hs'. unfold mask_score in Hs'.
  destruct (apply_specific_mask_pattern k (int_or_zero m) fmap) as [mm|e]; [|done].
  simpl in Hs'. simpl.
  destruct (calculate_total_penalty_score mm) as [sp|e]; [|done].
  simpl in Hs'. injection Hs' as Hsp. simpl. rewrite Hsp.
  rewrite (apply_specific_mask_pattern_masked k m fmap n n) by (done || lia).
  destruct Hb as [[-> ->] | (id & sid & -> & Hid & Hsid & Hall)].
  - simpl. eexists. split; [done|]. right. exists 0, s.
    split; [done|]. split; [lia|]. split; [done|].
    intros q Hq. assert (q = 0) as -> by lia. exists s. split; [done|]. lia.
  - simpl. destruct (Z.ltb_spec s sid) as [Hlt|Hge].
    + simpl. eexists. split; [done|]. right. exists k, s.
      split; [done|]. split; [lia|]. split; [done|].
      intros q Hq. destruct (decide (q = k)) as [->|Hne].
      * exists s. split; [done|]. lia.
      * destruct (Hall q) as (sq & Hsq & Hle & _); [lia|].
        exists sq. split; [done|]. lia.
    + eexists. split; [done|]. right. exists id, sid.
      split; [done|]. split; [lia|]. split; [done|].
      intros q Hq. destruct (decide (q = k)) as [->|Hne].
      * exists s. split; [done|]. lia.
      * apply Hall. lia.
Qed.

(** On a square matrix with a function map of the same side,
    [find_best_pattern] returns the matrix masked with a pattern id in 0..7
    whose score, as the loop computes it, is at most the score of every id
    in 0..7, and which is the lowest id among those that reach the same
    score. *)
Lemma find_best_pattern_minimal_score (n : nat) (m : matrix) (fmap : function_map) :
  (0 < n)%nat → shape n n m → shape n n fmap →
  ∃ out id sid,
    find_best_pattern m fmap = Ok (out, id) ∧
    0 ≤ id ≤ 7 ∧
    apply_specific_mask_pattern id m fmap = Ok out ∧
    mask_score m fmap id = Ok sid ∧
    ∀ q, 0 ≤ q ≤ 7 →
      ∃ sq, mask_score m fmap q = Ok sq ∧ sid ≤ sq ∧ (sq = sid → id ≤ q).
Proof.
  intros Hn Hm Hf. unfold find_best_pattern, range.
  match goal with
  | |- context [for_each (seqZ 0 8) ?body ?s0] =>
      destruct (for_each_seqZ_inv (best_among m fmap) body 0 8 s0) as (b & -> & Hb)
  end.
  - lia.
  - by left.
  - intros k t Hk Ht. by eapply (find_best_pattern_step n).
  - simpl. destruct Hb as [[? _] | (id & sid & -> & Hid & Hsid & Hall)]; [lia|].
    simpl. exists (masked id fmap m), id, sid.
    split; [done|]. split; [lia|].
    split; [eapply apply_specific_mask_pattern_masked; eauto; lia|].
    split; [done|]. intros q Hq. apply Hall. lia.
Qed.

(** ** Byte-mode encoding *)

Lemma format_b_8_length (v : Z) : 0 ≤ v < 256 → length (format_b 8 v) = 8%nat.
Proof.
  intros Hv. unfold format_b. rewrite length_fmap, length_rev, length_seq.
  destruct (decide (v = 0)) as [->|Hne]; [done|].
  assert (Z.log2 v < 8) by (apply Z.log2_lt_pow2; lia).
  pose proof (Z.log2_nonneg v). lia.
Qed.

Lemma encode_iso_8859_1_Ok (data : list Z) :
  (∀ c, c ∈ data → 0 ≤ c < 256) → encode_iso_8859_1 data = Ok data.
Proof.
  intros H. unfold encode_iso_8859_1.
  replace (forallb _ data) with true; [done|]. symmetry.
  apply forallb_forall. intros c Hc. apply list_elem_of_In in Hc.
  apply H in Hc. apply andb_true_iff. lia.
Qed.

Lemma encode_iso_8859_1_Raise (data : list Z) :
  (∃ c, c ∈ data ∧ ¬ (0 ≤ c < 256)) → encode_iso_8859_1 data = Raise InvalidCharacter.
Proof.
  intros (c & Hc & Hout). unfold encode_iso_8859_1.
  destruct (forallb _ data) eqn:E; [|done].
  rewrite forallb_forall in E. apply list_elem_of_In in Hc.
  apply E in Hc. apply andb_true_iff in Hc. lia.
Qed.

Lemma payload_fold (data : list Z) (init : list bool) :
  fold_left (λ bs byte, bs ++ format_b 8 byte) data init
  = init ++ concat (format_b 8 <$> data).
Proof.
  revert init. induction data as [|b data IH]; intros init; csimpl.
  - by rewrite app_nil_r.
  - rewrite IH. by rewrite <- app_assoc.
Qed.

Lemma payload_length (data : list Z) :
  (∀ c, c ∈ data → 0 ≤ c < 256) →
  length (concat (format_b 8 <$> data)) = (8 * length data)%nat.
Proof.
  induction data as [|b data IH]; intros H; csimpl; [done|].
  rewrite length_app, format_b_8_length by (apply H; by left).
  rewrite IH; [lia|]. intros c Hc. apply H. by right.
Qed.

(** The padding loop appends the pad codewords in alternation and returns
    when the stream is full. *)
Lemma pad_loop_spec (total : Z) (k : nat) :
  ∀ (fuel : nat) (bs : list bool) (idx : Z),
    (k ≤ fuel)%nat → len bs + 8 * Z.of_nat k = total →
    (idx mod 2 = 0 →
       pad_loop fuel total bs idx
       = Ok (bs ++ spec_pad_codewords k
                     [true; true; true; false; true; true; false; false]
                     [false; false; false; true; false; false; false; true])) ∧
    (idx mod 2 = 1 →
       pad_loop fuel total bs idx
       = Ok (bs ++ spec_pad_codewords k
                     [false; false; false; true; false; false; false; true]
                     [true; true; true; false; true; true; false; false])).
Proof.
  induction k as [|k IH]; intros fuel bs idx Hfuel Hlen.
  - assert (pad_loop fuel total bs idx = Ok bs) as ->.
    { destruct fuel; simpl; (destruct (Z.ltb_spec (len bs) total); [lia|done]). }
    simpl. by rewrite app_nil_r.
  - destruct fuel as [|fuel]; [lia|]. simpl.
    destruct (Z.ltb_spec (len bs) total) as [_|?]; [|lia].
    split; intros Hpar; rewrite Hpar; simpl.
    + destruct (IH fuel (bs ++ [true; true; true; false; true; true; false; false]) (idx + 1))
        as [_ H1]; [lia|unfold len in *; rewrite length_app; simpl; lia|].
      rewrite H1 by (rewrite Z.add_mod, Hpar by lia; done).
      by rewrite <- app_assoc.
    + destruct (IH fuel (bs ++ [false; false; false; true; false; false; false; true]) (idx + 1))
        as [H0 _]; [lia|unfold len in *; rewrite length_app; simpl; lia|].
      rewrite H0 by (rewrite Z.add_mod, Hpar by lia; done).
      by rewrite <- app_assoc.
Qed.

Lemma spec_pad_codewords_length (k : nat) (p q : list bool) :
  length p = 8%nat → length q = 8%nat → length (spec_pad_codewords k p q) = (8 * k)%nat.
Proof.
  revert p q. induction k as [|k IH]; intros p q Hp Hq; simpl; [done|].
  rewrite length_app, IH by done. lia.
Qed.

(** Cutting a stream into codewords and gluing them again. *)
Lemma concat_chunks (bs : list bool) (n : nat) :
  concat ((λ k : nat, take 8 (drop (8 * k) bs)) <$> seq 0 n) = take (8 * n) bs.
Proof.
  induction n as [|n IH]; [done|].
  rewrite seq_S, fmap_app, concat_app, IH. simpl. rewrite app_nil_r.
  rewrite take_take_drop. f_equal. lia.
Qed.

Lemma split_codewords_full (bs : list bool) (D : nat) :
  length bs = (8 * D)%nat →
  length (split_codewords bs) = D ∧
  concat (split_codewords bs) = bs ∧
  Forall (λ cw, length cw = 8%nat) (split_codewords bs).
Proof.
  intros Hlen. unfold split_codewords. rewrite Hlen.
  replace ((8 * D + 7) / 8)%nat with D
    by (apply Nat.div_unique with 7%nat; lia).
  split; [by rewrite length_fmap, length_seq|].
  split.
  - rewrite concat_chunks. apply take_ge. lia.
  - apply Forall_fmap, Forall_forall. intros k Hk. apply elem_of_seq in Hk. simpl.
    rewrite length_take, length_drop. lia.
Qed.

Lemma byte_aligned (x : Z) : (16 + 8 * x) mod 8 = 0.
Proof. replace (16 + 8 * x) with ((2 + x) * 8) by lia. by apply Z.mod_mul. Qed.

(** The outcome of [encode_byte_mode] on a payload within the capacity. *)
Lemma encode_byte_mode_stream (data : list Z) :
  (∀ c, c ∈ data → 0 ≤ c < 256) → len data ≤ 32 →
  let version := if len data <=? 17 then 1 else 2 in
  let D := if len data <=? 17 then 19 else 34 in
  ∃ codewords,
    encode_byte_mode data = Ok (codewords, version) ∧
    length codewords = Z.to_nat D ∧
    Forall (λ cw, length cw = 8%nat) codewords ∧
    concat codewords = spec_data_stream data D ∧
    len (concat codewords) = 8 * D.
Proof.
  intros Hlatin Hlen version D.
  assert (length ([false; true; false; false] ++ format_b 8 (len data)
                  ++ concat (format_b 8 <$> data)) = (12 + 8 * length data)%nat) as Hs1.
  { rewrite !length_app. rewrite format_b_8_length by (unfold len in *; lia).
    rewrite payload_length by done. simpl. lia. }
  assert (0 ≤ len data) as Hnn by (unfold len; lia).
  assert (D = 19 ∧ len data ≤ 17 ∨ D = 34 ∧ 17 < len data) as HD.
  { subst D. destruct (Z.leb_spec (len data) 17); [left|right]; lia. }
  set (s1 := [false; true; false; false] ++ format_b 8 (len data)
             ++ concat (format_b 8 <$> data)) in *.
  assert (len s1 = 12 + 8 * len data) as Hs1'. { unfold len. rewrite Hs1. lia. }
  set (s2 := s1 ++ replicate 4 false).
  assert (len s2 = 16 + 8 * len data) as Hs2.
  { unfold len, s2. rewrite length_app, length_replicate. unfold len in Hs1'. lia. }
  set (k := Z.to_nat (D - 2 - len data)).
  assert (len s2 + 8 * Z.of_nat k = D * 8) as Hk by (unfold k; lia).
  set (stream := s2 ++ spec_pad_codewords k
                         [true; true; true; false; true; true; false; false]
                         [false; false; false; true; false; false; false; true]).
  assert (length stream = (8 * Z.to_nat D)%nat) as Hstream.
  { unfold stream. rewrite length_app, spec_pad_codewords_length by done.
    unfold len in Hk. lia. }
  destruct (split_codewords_full stream (Z.to_nat D) Hstream) as (Hn & Hcat & Hall).
  assert (encode_byte_mode data = Ok (take (Z.to_nat D) (split_codewords stream), version)) as Henc.
  { unfold encode_byte_mode. rewrite encode_iso_8859_1_Ok by done. cbn [bind].
    replace (len data <=? 32) with true by (symmetry; apply Z.leb_le; lia).
    assert ((if len data <=? 17 then Ok (1, 19) else Ok (2, 34))
            = (Ok (version, D) : result (Z * Z))) as ->.
    { subst version D. by destruct (len data <=? 17). }
    cbn [bind fst snd]. rewrite payload_fold.
    rewrite <- (app_assoc [false; true; false; false] (format_b 8 (len data))
                  (concat (format_b 8 <$> data))).
    fold s1.
    assert (Z.to_nat (Z.min 4 (D * 8 - len s1)) = 4%nat) as -> by lia.
    fold s2. rewrite Hs2.
    rewrite byte_aligned.
    simpl negb. cbv iota.
    destruct (pad_loop_spec (D * 8) k (Z.to_nat (D * 8)) s2 0) as [-> _]; [lia|done|done|].
    done. }
  exists (take (Z.to_nat D) (split_codewords stream)).
  rewrite take_ge by lia.
  split; [by rewrite Henc, take_ge by lia|].
  split; [done|]. split; [done|]. rewrite Hcat.
  split; [|unfold len; rewrite Hstream; lia].
  unfold spec_data_stream. fold s1.
  assert (Z.to_nat (Z.min 4 (8 * D - len s1)) = 4%nat) as -> by lia.
  fold s2. rewrite Hs2.
  rewrite byte_aligned.
  simpl replicate. rewrite app_nil_r.
  replace (Z.to_nat ((8 * D - len s2) / 8)) with k; [done|].
  unfold k. f_equal. rewrite Hs2.
  replace (8 * D - (16 + 8 * len data)) with ((D - 2 - len data) * 8) by lia.
  by rewrite Z.div_mul.
Qed.

Lemma encode_byte_mode_too_long (data : list Z) :
  (∀ c, c ∈ data → 0 ≤ c < 256) → 32 < len data →
  encode_byte_mode data = Raise PayloadTooLong.
Proof.
  intros Hlatin Hlen. unfold encode_byte_mode.
  rewrite encode_iso_8859_1_Ok by done. cbn [bind].
  replace (len data <=? 17) with false by (symmetry; apply Z.leb_gt; lia).
  by replace (len data <=? 32) with false by (symmetry; apply Z.leb_gt; lia).
Qed.

Lemma encode_byte_mode_invalid (data : list Z) :
  (∃ c, c ∈ data ∧ ¬ (0 ≤ c < 256)) → encode_byte_mode data = Raise InvalidCharacter.
Proof.
  intros H. unfold encode_byte_mode. by rewrite encode_iso_8859_1_Raise.
Qed.

(** C3: [encode_byte_mode] fails with [InvalidCharacter] exactly when some
    character is outside ISO-8859-1 (code points 0..255); otherwise it fails
    with [PayloadTooLong] exactly when the byte length exceeds 32; otherwise
    it succeeds, with version 1 and 19 codewords for a length of at most 17
    and version 2 and 34 codewords for a length of at most 32. *)
Theorem encode_byte_mode_outcomes (data : list Z) :
  (encode_byte_mode data = Raise InvalidCharacter
   ↔ ∃ c, c ∈ data ∧ ¬ (0 ≤ c < 256)) ∧
  (encode_byte_mode data = Raise PayloadTooLong
   ↔ (∀ c, c ∈ data → 0 ≤ c < 256) ∧ 32 < len data) ∧
  ((∃ cw v, encode_byte_mode data = Ok (cw, v))
   ↔ (∀ c, c ∈ data → 0 ≤ c < 256) ∧ len data ≤ 32) ∧
  (∀ cw v, encode_byte_mode data = Ok (cw, v) →
     (len data ≤ 17 ∧ v = 1 ∧ length cw = 19%nat) ∨
     (17 < len data ≤ 32 ∧ v = 2 ∧ length cw = 34%nat)).
Proof.
  destruct (decide (Forall (λ c, 0 ≤ c < 256) data)) as [Hall|Hnot].
  - rewrite Forall_forall in Hall.
    assert (¬ ∃ c, c ∈ data ∧ ¬ (0 ≤ c < 256)) as Hnobad.
    { intros (c & Hc & Hout). by apply Hout, Hall. }
    destruct (Z.le_gt_cases (len data) 32) as [Hle|Hgt].
    + destruct (encode_byte_mode_stream data Hall Hle) as (cw0 & Henc & Hn & _).
      rewrite Henc. split; [split; [done|intros H; by destruct Hnobad]|].
      split; [split; [done|intros [_ ?]; lia]|].
      split; [split; [done|eauto]|].
      intros cw v [= <- <-]. rewrite Hn.
      destruct (Z.leb_spec (len data) 17); [left|right]; repeat split; done || lia.
    + rewrite (encode_byte_mode_too_long data Hall) by lia.
      split; [split; [done|intros H; by destruct Hnobad]|].
      split; [split; [split; [done|lia]|done]|].
      split; [split; [intros (cw & v & ?); done|intros [_ ?]; lia]|].
      intros cw v ?. done.
  - assert (∃ c, c ∈ data ∧ ¬ (0 ≤ c < 256)) as Hbad.
    { apply not_Forall_Exists in Hnot; [|apply _]. by apply Exists_exists in Hnot. }
    assert (¬ ∀ c, c ∈ data → 0 ≤ c < 256) as Hnall.
    { intros Hall. destruct Hbad as (c & Hc & Hout). by apply Hout, Hall. }
    rewrite (encode_byte_mode_invalid data Hbad).
    split; [done|].
    split; [split; [done|intros [? _]; done]|].
    split; [split; [intros (cw & v & ?); done|intros [? _]; done]|].
    intros cw v ?. done.
Qed.

(** C4: for an input of ISO-8859-1 byte length at most 32, the data codewords
    returned by [encode_byte_mode] are D codewords of eight bits (D = 19 for a
    length of at most 17, else 34) whose concatenation is exactly 8*D bits
    long and is the stream of the specification: mode indicator 0100, 8-bit
    character count, the payload bytes MSB first, the terminator of up to
    four zeros cut at the capacity, zeros to the byte boundary, and the pad
    codewords 11101100 and 00010001 in alternation up to 8*D bits. *)
Theorem encode_byte_mode_bit_stream (data : list Z) :
  Forall (λ c, 0 ≤ c < 256) data → len data ≤ 32 →
  let D := if len data <=? 17 then 19 else 34 in
  ∃ codewords version,
    encode_byte_mode data = Ok (codewords, version) ∧
    len codewords = D ∧
    Forall (λ cw, len cw = 8) codewords ∧
    len (concat codewords) = 8 * D ∧
    concat codewords = spec_data_stream data D.
Proof.
  intros Hall Hlen D. rewrite Forall_forall in Hall.
  destruct (encode_byte_mode_stream data Hall Hlen) as (cw & Henc & Hn & Hcw & Hcat & Hbits).
  exists cw, (if len data <=? 17 then 1 else 2).
  split; [done|]. split.
  - unfold len at 1. rewrite Hn. subst D. destruct (len data <=? 17); done.
  - split; [|done]. eapply Forall_impl; [exact Hcw|]. intros x Hx. unfold len. by rewrite Hx.
Qed.

Lemma encode_byte_mode_bit_stream_witness :
  ∃ codewords version,
    encode_byte_mode hello_world = Ok (codewords, version) ∧
    len codewords = 19 ∧
    Forall (λ cw, len cw = 8) codewords ∧
    len (concat codewords) = 8 * 19 ∧
    concat codewords = spec_data_stream hello_world 19.
Proof.
  apply (encode_byte_mode_bit_stream hello_world).
  - repeat constructor; lia.
  - vm_compute. discriminate.
Defined.

(** C5 as stated fails: the first three data codewords of "HELLO WORLD" are
    not 0x40, 0xB5, 0x94. *)
Lemma hello_world_codewords_not_40_B5_94 :
  ¬ ∃ codewords version,
      encode_byte_mode hello_world = Ok (codewords, version) ∧
      version = 1 ∧
      bits_to_Z <$> take 3 codewords = [64; 181; 148].
Proof.
  intros (cw & v & Henc & _ & H3). vm_compute in Henc.
  injection Henc as <- <-. vm_compute in H3. discriminate.
Qed.

(** ** Reed-Solomon: the field *)

(** Equalities between XOR combinations, bit by bit. *)
Ltac solve_lxor :=
  apply Z.bits_inj'; intros ?n ?Hn; rewrite ?Z.lxor_spec, ?Z.bits_0;
  repeat match goal with
         | |- context [Z.testbit ?a ?n] => destruct (Z.testbit a n)
         end;
  reflexivity.

(** A property checked on the 256 bytes holds of every byte. *)
Lemma forall_bytes (P : Z → bool) :
  forallb P (seqZ 0 256) = true → ∀ a, is_byte a → P a = true.
Proof.
  intros H a Ha. rewrite forallb_forall in H. apply H.
  apply list_elem_of_In, elem_of_seqZ. unfold is_byte in Ha. lia.
Qed.

Lemma is_byte_bool (a : Z) : (0 <=? a) && (a <? 256) = true ↔ is_byte a.
Proof. unfold is_byte. rewrite andb_true_iff. lia. Qed.

Lemma xtime_byte (a : Z) : is_byte a → is_byte (RS.xtime a).
Proof.
  intros Ha. apply is_byte_bool.
  apply (forall_bytes (λ a, (0 <=? RS.xtime a) && (RS.xtime a <? 256))); [|done].
  by vm_compute.
Qed.

Lemma lxor_byte (a b : Z) : is_byte a → is_byte b → is_byte (Z.lxor a b).
Proof.
  intros Ha Hb. apply is_byte_bool.
  apply (forall_bytes (λ b, (0 <=? Z.lxor a b) && (Z.lxor a b <? 256))); [|done].
  apply (forall_bytes
           (λ a, forallb (λ b, (0 <=? Z.lxor a b) && (Z.lxor a b <? 256)) (seqZ 0 256)));
    [|done].
  by vm_compute.
Qed.

Lemma gf_mul_bits_byte (n : nat) (a b : Z) : is_byte a → is_byte (RS.gf_mul_bits n a b).
Proof.
  revert a b. induction n as [|n IH]; intros a b Ha; simpl.
  - unfold is_byte. lia.
  - apply lxor_byte; [destruct (Z.odd b); [done|unfold is_byte; lia]|].
    apply IH. by apply xtime_byte.
Qed.

Lemma gf_mul_byte (a b : Z) : is_byte a → is_byte (RS.gf_mul a b).
Proof. apply gf_mul_bits_byte. Qed.

Lemma xtime_lxor (a b : Z) :
  RS.xtime (Z.lxor a b) = Z.lxor (RS.xtime a) (RS.xtime b).
Proof.
  unfold RS.xtime. cbv zeta. rewrite Z.shiftl_lxor, Z.lxor_spec.
  generalize (Z.shiftl a 1) (Z.shiftl b 1) RS.prim_poly. intros sa sb P.
  destruct (Z.testbit sa 8), (Z.testbit sb 8); simpl; solve_lxor.
Qed.

(** Multiplication distributes over addition on the left. *)
Lemma gf_mul_bits_lxor_l (n : nat) (a a' b : Z) :
  RS.gf_mul_bits n (Z.lxor a a') b
  = Z.lxor (RS.gf_mul_bits n a b) (RS.gf_mul_bits n a' b).
Proof.
  revert a a' b. induction n as [|n IH]; intros a a' b; simpl; [done|].
  rewrite xtime_lxor, IH.
  generalize (RS.gf_mul_bits n (RS.xtime a) (Z.shiftr b 1))
             (RS.gf_mul_bits n (RS.xtime a') (Z.shiftr b 1)). intros u u'.
  destruct (Z.odd b); solve_lxor.
Qed.

Lemma gf_mul_lxor_l (a a' b : Z) :
  RS.gf_mul (Z.lxor a a') b = Z.lxor (RS.gf_mul a b) (RS.gf_mul a' b).
Proof. apply gf_mul_bits_lxor_l. Qed.

Lemma gf_mul_0_l (b : Z) : RS.gf_mul 0 b = 0.
Proof.
  unfold RS.gf_mul. generalize 8%nat. intros n. revert b.
  induction n as [|n IH]; intros b; simpl; [done|].
  change (RS.xtime 0) with 0. rewrite IH. by destruct (Z.odd b).
Qed.

Lemma gf_mul_1_l (c : Z) : is_byte c → RS.gf_mul 1 c = c.
Proof.
  intros Hc. apply Z.eqb_eq.
  apply (forall_bytes (λ c, RS.gf_mul 1 c =? c)); [|done]. by vm_compute.
Qed.

(** The antilog and log tables give the same product. *)
Lemma gf_mul_by_tables (a b : Z) :
  is_byte a → is_byte b → a ≠ 0 → b ≠ 0 →
  ∃ la lb, RS.gf_log !! Z.to_nat a = Some la ∧ RS.gf_log !! Z.to_nat b = Some lb ∧
           RS.gf_exp !! Z.to_nat ((la + lb) mod 255) = Some (RS.gf_mul a b).
Proof.
  intros Ha Hb Ha0 Hb0.
  set (P := λ a b : Z,
         (a =? 0) || (b =? 0) ||
         bool_decide (RS.gf_exp !! Z.to_nat ((default 0 (RS.gf_log !! Z.to_nat a)
                                              + default 0 (RS.gf_log !! Z.to_nat b)) mod 255)
                      = Some (RS.gf_mul a b))).
  assert (P a b = true) as HP.
  { apply (forall_bytes (P a)); [|done].
    apply (forall_bytes (λ a, forallb (P a) (seqZ 0 256))); [|done]. by vm_compute. }
  unfold P in HP.
  destruct (Z.eqb_spec a 0); [done|]. destruct (Z.eqb_spec b 0); [done|].
  simpl in HP. apply bool_decide_eq_true in HP.
  assert (is_Some (RS.gf_log !! Z.to_nat a)) as [la Hla].
  { apply lookup_lt_is_Some. unfold is_byte in Ha. vm_compute length. lia. }
  assert (is_Some (RS.gf_log !! Z.to_nat b)) as [lb Hlb].
  { apply lookup_lt_is_Some. unfold is_byte in Hb. vm_compute length. lia. }
  rewrite Hla, Hlb in HP. simpl in HP. eauto.
Qed.

(** ** Reed-Solomon: evaluation and division *)

Lemma gf_poly_eval_eval_from (p : list Z) (x : Z) : RS.gf_poly_eval p x = eval_from x 0 p.
Proof. done. Qed.

Lemma eval_from_app (x acc : Z) (p q : list Z) :
  eval_from x acc (p ++ q) = eval_from x (eval_from x acc p) q.
Proof. unfold eval_from. apply fold_left_app. Qed.

Lemma eval_from_cons_0 (x c : Z) (p : list Z) :
  eval_from x 0 (c :: p) = eval_from x c p.
Proof. unfold eval_from. simpl. by rewrite gf_mul_0_l, Z.lxor_0_l. Qed.

Lemma eval_from_zeros (x : Z) (k : nat) : eval_from x 0 (replicate k 0) = 0.
Proof.
  induction k as [|k IH]; [done|]. simpl replicate. by rewrite eval_from_cons_0.
Qed.

(** Evaluation is additive. *)
Lemma eval_from_lxor (x : Z) (p q : list Z) :
  ∀ a b, length p = length q →
  eval_from x (Z.lxor a b) (zip_with Z.lxor p q)
  = Z.lxor (eval_from x a p) (eval_from x b q).
Proof.
  revert q. induction p as [|c p IH]; intros [|d q] a b Hlen; try done.
  simpl in Hlen. unfold eval_from in *. simpl.
  rewrite <- IH by lia. f_equal. rewrite gf_mul_lxor_l.
  generalize (RS.gf_mul a x) (RS.gf_mul b x). intros u v. solve_lxor.
Qed.

Lemma zip_with_lxor_zeros_l (p : list Z) :
  zip_with Z.lxor (replicate (length p) 0) p = p.
Proof. induction p as [|c p IH]; [done|]. simpl. by rewrite IH, Z.lxor_0_l. Qed.

Lemma gf_poly_add_same_length (p q : list Z) :
  length p = length q → RS.gf_poly_add p q = zip_with Z.lxor p q.
Proof.
  intros H. unfold RS.gf_poly_add, RS.gf_poly_pad. rewrite H, Nat.max_id, Nat.sub_diag.
  done.
Qed.

(** Cancelling the leading coefficient does not change the value at a root
    of the divisor. *)
Lemma gf_poly_rem_step_eval (g' rest : list Z) (c x : Z) :
  root_of_multiples (1 :: g') x → is_byte c → (length g' ≤ length rest)%nat →
  eval_from x 0
    (RS.gf_poly_add rest
       (RS.gf_poly_shift (RS.gf_poly_scale g' c) (length rest - length g')))
  = eval_from x 0 (c :: rest).
Proof.
  intros Hroot Hc Hlen.
  set (S := RS.gf_poly_shift (RS.gf_poly_scale g' c) (length rest - length g')).
  assert (length S = length rest) as HS.
  { unfold S, RS.gf_poly_shift, RS.gf_poly_scale.
    rewrite length_app, length_fmap, length_replicate. lia. }
  rewrite gf_poly_add_same_length by done.
  rewrite <- (Z.lxor_0_l 0) at 1. rewrite eval_from_lxor by done.
  rewrite eval_from_cons_0.
  rewrite <- (zip_with_lxor_zeros_l rest) at 2.
  rewrite <- (Z.lxor_0_r c) at 1. rewrite eval_from_lxor by (by rewrite length_replicate).
  assert (Z.lxor (eval_from x c (replicate (length rest) 0)) (eval_from x 0 S) = 0) as H0.
  { rewrite <- HS at 1. rewrite <- eval_from_lxor by (by rewrite length_replicate).
    rewrite Z.lxor_0_r, zip_with_lxor_zeros_l.
    pose proof (Hroot c Hc) as Hr. rewrite gf_poly_eval_eval_from in Hr.
    unfold RS.gf_poly_scale in Hr. rewrite fmap_cons, eval_from_cons_0 in Hr.
    rewrite gf_mul_1_l in Hr by done.
    unfold S, RS.gf_poly_shift. rewrite eval_from_app. unfold RS.gf_poly_scale. rewrite Hr.
    apply eval_from_zeros. }
  apply Z.lxor_eq in H0. rewrite H0.
  generalize (eval_from x 0 rest) (eval_from x 0 S). intros u v. solve_lxor.
Qed.

Lemma gf_poly_add_bytes (p q : list Z) :
  length p = length q → Forall is_byte p → Forall is_byte q →
  Forall is_byte (RS.gf_poly_add p q).
Proof.
  intros Hlen Hp Hq. rewrite gf_poly_add_same_length by done.
  revert q Hlen Hq. induction Hp as [|a p Ha Hp IH]; intros [|b q] Hlen Hq; try done.
  simpl. inversion Hq; subst. constructor; [by apply lxor_byte|].
  apply IH; [simpl in Hlen; lia|done].
Qed.

Lemma gf_poly_shift_scale_bytes (g' : list Z) (c : Z) (k : nat) :
  Forall is_byte g' → Forall is_byte (RS.gf_poly_shift (RS.gf_poly_scale g' c) k).
Proof.
  intros Hg. unfold RS.gf_poly_shift, RS.gf_poly_scale. apply Forall_app. split.
  - apply Forall_fmap. eapply Forall_impl; [exact Hg|]. intros a Ha. by apply gf_mul_byte.
  - apply Forall_replicate. unfold is_byte. lia.
Qed.

(** Long division keeps the value at a root of the divisor, shortens the
    dividend by one coefficient per step and stays within the bytes. *)
Lemma gf_poly_rem_eval (g' : list Z) (x : Z) (n : nat) :
  root_of_multiples (1 :: g') x → Forall is_byte g' →
  ∀ dividend,
    Forall is_byte dividend → (n + length g' ≤ length dividend)%nat →
    eval_from x 0 (RS.gf_poly_rem n dividend (1 :: g')) = eval_from x 0 dividend ∧
    length (RS.gf_poly_rem n dividend (1 :: g')) = (length dividend - n)%nat ∧
    Forall is_byte (RS.gf_poly_rem n dividend (1 :: g')).
Proof.
  intros Hroot Hg. induction n as [|n IH]; intros dividend Hbytes Hlen.
  - simpl. split; [done|]. split; [lia|done].
  - destruct dividend as [|c rest]; [simpl in Hlen; lia|].
    inversion Hbytes as [|? ? Hc Hrest]; subst. simpl in Hlen.
    cbn [RS.gf_poly_rem tail].
    set (S := RS.gf_poly_shift (RS.gf_poly_scale g' c) (length rest - length g')).
    assert (length S = length rest) as HS.
    { unfold S, RS.gf_poly_shift, RS.gf_poly_scale.
      rewrite length_app, length_fmap, length_replicate. lia. }
    assert (length (RS.gf_poly_add rest S) = length rest) as Hadd.
    { rewrite gf_poly_add_same_length by done. rewrite length_zip_with. lia. }
    destruct (IH (RS.gf_poly_add rest S)) as (He & Hl & Hb).
    + apply gf_poly_add_bytes; [done|done|]. by apply gf_poly_shift_scale_bytes.
    + lia.
    + rewrite He, Hl, Hadd. split; [|split; [simpl; lia|done]].
      apply gf_poly_rem_step_eval; [done|done|lia].
Qed.

Lemma forall_below (P : nat → bool) (n : nat) :
  forallb P (seq 0 n) = true → ∀ i, (i < n)%nat → P i = true.
Proof.
  intros H i Hi. rewrite forallb_forall in H. apply H.
  apply list_elem_of_In, elem_of_seq. lia.
Qed.

Lemma Forall_is_byte_bool (l : list Z) :
  forallb (λ a, (0 <=? a) && (a <? 256)) l = true → Forall is_byte l.
Proof.
  intros H. rewrite forallb_forall in H. apply Forall_forall. intros a Ha.
  apply is_byte_bool, H. by apply list_elem_of_In.
Qed.

(** The generators for 7 and 10 check codewords are monic, made of bytes,
    and vanish, with all their multiples, at alpha^0 .. alpha^(e-1). *)
Lemma rs_generator_poly_roots (e : nat) :
  e = 7%nat ∨ e = 10%nat →
  ∃ g', RS.rs_generator_poly e = 1 :: g' ∧ length g' = e ∧ Forall is_byte g' ∧
        ∀ i, (i < e)%nat → root_of_multiples (1 :: g') (RS.gf_pow_alpha i).
Proof.
  intros He.
  exists (tail (RS.rs_generator_poly e)).
  split; [by destruct He as [-> | ->]; vm_compute|].
  split; [by destruct He as [-> | ->]; vm_compute|].
  split; [apply Forall_is_byte_bool; by destruct He as [-> | ->]; vm_compute|].
  intros i Hi c Hc. apply Z.eqb_eq.
  apply (forall_bytes
           (λ c, RS.gf_poly_eval (RS.gf_poly_scale (1 :: tail (RS.rs_generator_poly e)) c)
                   (RS.gf_pow_alpha i) =? 0)); [|done].
  apply (forall_below
           (λ i, forallb
                   (λ c, RS.gf_poly_eval
                           (RS.gf_poly_scale (1 :: tail (RS.rs_generator_poly e)) c)
                           (RS.gf_pow_alpha i) =? 0) (seqZ 0 256)) e); [|done].
  by destruct He as [-> | ->]; vm_compute.
Qed.

Lemma rs_ecc_spec (e : nat) (msg : list Z) :
  e = 7%nat ∨ e = 10%nat → Forall is_byte msg →
  length (RS.rs_ecc e msg) = e ∧ Forall is_byte (RS.rs_ecc e msg) ∧
  ∀ i, (i < e)%nat → RS.gf_poly_eval (msg ++ RS.rs_ecc e msg) (RS.gf_pow_alpha i) = 0.
Proof.
  intros He Hmsg.
  destruct (rs_generator_poly_roots e He) as (g' & Hg & Hlen & Hbytes & Hroots).
  assert (Forall is_byte (RS.gf_poly_shift msg e)) as Hdiv.
  { unfold RS.gf_poly_shift. apply Forall_app. split; [done|].
    apply Forall_replicate. unfold is_byte. lia. }
  assert (length (RS.gf_poly_shift msg e) = (length msg + e)%nat) as Hdivlen.
  { unfold RS.gf_poly_shift. by rewrite length_app, length_replicate. }
  unfold RS.rs_ecc. rewrite Hg.
  assert (0 < e)%nat as He0 by (destruct He; lia).
  destruct (gf_poly_rem_eval g' (RS.gf_pow_alpha 0) (length msg) (Hroots 0%nat He0) Hbytes
              (RS.gf_poly_shift msg e)) as (_ & Hl0 & Hb0); [done|lia|].
  split; [lia|]. split; [done|].
  intros i Hi.
  destruct (gf_poly_rem_eval g' (RS.gf_pow_alpha i) (length msg) (Hroots i Hi) Hbytes
              (RS.gf_poly_shift msg e)) as (Heval & Hl & _); [done|lia|].
  set (ecc := RS.gf_poly_rem (length msg) (RS.gf_poly_shift msg e) (1 :: g')) in *.
  assert (length ecc = e) as Hecc by lia.
  rewrite gf_poly_eval_eval_from, eval_from_app.
  set (A := eval_from (RS.gf_pow_alpha i) 0 msg).
  rewrite <- (zip_with_lxor_zeros_l ecc) at 1. rewrite <- (Z.lxor_0_r A) at 1.
  rewrite eval_from_lxor by (by rewrite length_replicate).
  rewrite Hecc, Heval. unfold RS.gf_poly_shift. rewrite eval_from_app. fold A.
  apply Z.lxor_nilpotent.
Qed.

Lemma bits_to_Z_format_b_8 (b : Z) : is_byte b → bits_to_Z (format_b 8 b) = b.
Proof.
  intros Hb. apply Z.eqb_eq.
  apply (forall_bytes (λ b, bits_to_Z (format_b 8 b) =? b)); [|done]. by vm_compute.
Qed.

(** C9: for the D data codewords of version 1 (D = 19, E = 7) or version 2
    (D = 34, E = 10), [generate_error_correction] returns E codewords of
    eight bits which are, high degree first, the remainder of
    message(x) * x^E by g_E(x) over GF(256) with primitive polynomial 0x11D,
    and the D + E codewords together, read as a polynomial, vanish at
    alpha^0 .. alpha^(E-1). *)
Theorem generate_error_correction_reed_solomon (data : list Z) (version : Z) :
  Forall is_byte data →
  (version = 1 ∧ len data = 19) ∨ (version = 2 ∧ len data = 34) →
  let E : nat := if version =? 1 then 7%nat else 10%nat in
  ∃ ecc,
    generate_error_correction RS.rs_encode data version = Ok ecc ∧
    length ecc = E ∧
    Forall (λ cw, length cw = 8%nat) ecc ∧
    bits_to_Z <$> ecc
    = RS.gf_poly_rem (length data) (RS.gf_poly_shift data E) (RS.rs_generator_poly E) ∧
    ∀ i, (i < E)%nat →
      RS.gf_poly_eval (data ++ (bits_to_Z <$> ecc)) (RS.gf_pow_alpha i) = 0.
Proof.
  intros Hdata Hv E.
  assert (E = 7%nat ∨ E = 10%nat) as HE.
  { subst E. destruct Hv as [[-> _] | [-> _]]; simpl; auto. }
  destruct (rs_ecc_spec E data HE Hdata) as (Hlen & Hbytes & Hroots).
  assert (generate_error_correction RS.rs_encode data version
          = Ok (format_b 8 <$> RS.rs_ecc E data)) as Hgen.
  { unfold generate_error_correction, RS.rs_encode.
    destruct Hv as [[-> _] | [-> _]]; simpl bind; cbv beta; f_equal; f_equal;
      unfold slice_last; simpl Z.eqb; cbv iota;
      (apply drop_app_length'; rewrite length_app;
       change (Z.to_nat 7) with E; change (Z.to_nat 10) with E; lia). }
  assert (bits_to_Z <$> (format_b 8 <$> RS.rs_ecc E data) = RS.rs_ecc E data) as Hround.
  { rewrite <- list_fmap_compose. rewrite <- (list_fmap_id (RS.rs_ecc E data)) at 2.
    apply Forall_fmap_ext_1. eapply Forall_impl; [exact Hbytes|].
    intros b Hb. simpl. by apply bits_to_Z_format_b_8. }
  exists (format_b 8 <$> RS.rs_ecc E data).
  split; [done|]. split; [by rewrite length_fmap|].
  split.
  - apply Forall_fmap. eapply Forall_impl; [exact Hbytes|].
    intros b Hb. simpl. by apply format_b_8_length.
  - rewrite Hround. split; [done|]. exact Hroots.
Qed.

Lemma generate_error_correction_reed_solomon_witness :
  ∃ ecc,
    generate_error_correction RS.rs_encode
      [64; 180; 132; 84; 196; 196; 242; 5; 116; 245; 36; 196; 64; 236; 17; 236; 17; 236; 17] 1
    = Ok ecc ∧
    length ecc = 7%nat ∧
    Forall (λ cw, length cw = 8%nat) ecc ∧
    bits_to_Z <$> ecc
    = RS.gf_poly_rem 19
        (RS.gf_poly_shift
           [64; 180; 132; 84; 196; 196; 242; 5; 116; 245; 36; 196; 64; 236; 17; 236; 17; 236; 17]
           7)
        (RS.rs_generator_poly 7) ∧
    ∀ i, (i < 7)%nat →
      RS.gf_poly_eval
        ([64; 180; 132; 84; 196; 196; 242; 5; 116; 245; 36; 196; 64; 236; 17; 236; 17; 236; 17]
         ++ (bits_to_Z <$> ecc)) (RS.gf_pow_alpha i) = 0.
Proof.
  apply (generate_error_correction_reed_solomon
           [64; 180; 132; 84; 196; 196; 242; 5; 116; 245; 36; 196; 64; 236; 17; 236; 17; 236; 17]
           1).
  - repeat constructor; lia.
  - left. split; reflexivity.
Defined.

(** C5, amended: for "HELLO WORLD" [encode_byte_mode] selects version 1, the
    first three data codewords are 0x40, 0xB4, 0x84, and with the error
    correction codewords appended there are 26 codewords. *)
Theorem hello_world_codewords :
  ∃ data_cw ecc_cw,
    encode_byte_mode hello_world = Ok (data_cw, 1) ∧
    bits_to_Z <$> take 3 data_cw = [64; 180; 132] ∧
    generate_error_correction RS.rs_encode (bits_to_Z <$> data_cw) 1 = Ok ecc_cw ∧
    length (data_cw ++ ecc_cw) = 26%nat.
Proof.
  remember (encode_byte_mode hello_world) as r eqn:E. vm_compute in E. subst r.
  eexists _, _. split; [reflexivity|]. split; [by vm_compute|].
  remember (generate_error_correction _ _ _) as r eqn:E. vm_compute in E. subst r.
  split; reflexivity.
Qed.

(** ** Data placement *)

Lemma list_tabulate {A : Type} (d : A) (n : nat) (l : list A) :
  length l = n → l = (λ i, default d (l !! i)) <$> seq 0 n.
Proof.
  intros Hlen. apply list_eq. intros i. rewrite list_lookup_fmap.
  destruct (l !! i) as [x|] eqn:Hi.
  - rewrite lookup_seq_lt by (apply lookup_lt_Some in Hi; lia). simpl. by rewrite Hi.
  - apply lookup_ge_None in Hi. by rewrite lookup_seq_ge by lia.
Qed.

(** A property of the indexed elements of a list, checked along the list. *)
Lemma forall_indexed {A : Type} (P : nat → A → Prop) (l : list A) :
  Forall (λ ix, P ix.1 ix.2) (imap pair l) → ∀ i x, l !! i = Some x → P i x.
Proof.
  intros H i x Hi. rewrite Forall_lookup in H.
  apply (H i (i, x)). by rewrite list_lookup_imap, Hi.
Qed.

(** A property of the cells of an [N] x [N] table, checked cell by cell. *)
Lemma forall_cells {A : Type} (N : nat) (m : list (list A)) (P : nat → nat → A → bool) :
  shape N N m →
  forallb (λ r, forallb (λ c, match cell_at m r c with
                               | Some x => P r c x
                               | None => true
                               end) (seq 0 N)) (seq 0 N) = true →
  ∀ r c x, cell_at m r c = Some x → P r c x = true.
Proof.
  intros Hm H r c x Hx.
  destruct (cell_at_Some_lt N N m r c x Hm Hx) as [Hr Hc].
  pose proof (forall_below _ N H r Hr) as Hrow. simpl in Hrow.
  pose proof (forall_below _ N Hrow c Hc) as Hcell. simpl in Hcell.
  by rewrite Hx in Hcell.
Qed.


(** Two lists read through the same indices. *)
Lemma fmap_seq_lookup {A B : Type} (g : A → B) (h : nat → B) (l : list A) (n : nat) :
  g <$> l = h <$> seq 0 n → ∀ i x, l !! i = Some x → g x = h i ∧ (i < n)%nat.
Proof.
  intros H i x Hi.
  assert ((g <$> l) !! i = Some (g x)) as Hg by (by rewrite list_lookup_fmap, Hi).
  rewrite H, list_lookup_fmap in Hg.
  destruct (seq 0 n !! i) as [j|] eqn:Hj; [|done].
  apply lookup_seq in Hj as [-> Hlt]. simpl in Hg. split; [congruence|done].
Qed.

(** The function maps and laid-out matrices of the two versions. *)
Lemma create_function_pattern_matrix_v1 : create_function_pattern_matrix 1 = Ok function_map_v1.
Proof. vm_compute. reflexivity. Qed.

Lemma create_function_pattern_matrix_v2 : create_function_pattern_matrix 2 = Ok function_map_v2.
Proof. vm_compute. reflexivity. Qed.

Lemma layout_function_patterns_v1 : layout_function_patterns 1 = Ok layout_v1.
Proof. vm_compute. reflexivity. Qed.

Lemma layout_function_patterns_v2 : layout_function_patterns 2 = Ok layout_v2.
Proof. vm_compute. reflexivity. Qed.

Lemma function_map_v1_shape : shape 21 21 function_map_v1.
Proof. split; [reflexivity|repeat constructor]. Qed.

Lemma function_map_v2_shape : shape 25 25 function_map_v2.
Proof. split; [reflexivity|repeat constructor]. Qed.

Lemma layout_v1_shape : shape 21 21 layout_v1.
Proof. split; [reflexivity|repeat constructor]. Qed.

Lemma layout_v2_shape : shape 25 25 layout_v2.
Proof. split; [reflexivity|repeat constructor]. Qed.

(** The data cells: each non-function cell once. *)
Lemma data_cells_complete (N : nat) (fm : function_map) (cells : list (nat * nat)) :
  shape N N fm → data_cells N fm = cells →
  forallb (λ r, forallb (λ c, match cell_at fm r c with
                               | Some x => x || bool_decide ((r, c) ∈ cells)
                               | None => true
                               end) (seq 0 N)) (seq 0 N) = true →
  ∀ r c, (r, c) ∈ data_cells N fm ↔ cell_at fm r c = Some false.
Proof.
  intros Hfm Hcells Hall r c. split.
  - unfold data_cells. intros H. by apply list_elem_of_filter in H as [H _].
  - intros Hrc. rewrite Hcells.
    pose proof (forall_cells N fm (λ r c x, x || bool_decide ((r, c) ∈ cells)) Hfm Hall
                  r c false Hrc) as H.
    simpl in H. by apply bool_decide_eq_true in H.
Qed.

Lemma data_cells_v1_spec :
  data_cells 21 function_map_v1 = data_cells_v1 ∧
  NoDup data_cells_v1 ∧ length data_cells_v1 = 208%nat ∧
  count_non_function function_map_v1 = 208%nat ∧
  ∀ r c, (r, c) ∈ data_cells 21 function_map_v1 ↔ cell_at function_map_v1 r c = Some false.
Proof.
  assert (data_cells 21 function_map_v1 = data_cells_v1) as Hc by (vm_compute; reflexivity).
  split; [done|].
  split; [apply (bool_decide_unpack _); vm_compute; exact I|].
  split; [reflexivity|]. split; [vm_compute; reflexivity|].
  apply (data_cells_complete 21 _ _ function_map_v1_shape Hc). vm_compute. reflexivity.
Qed.

Lemma data_cells_v2_spec :
  data_cells 25 function_map_v2 = data_cells_v2 ∧
  NoDup data_cells_v2 ∧ length data_cells_v2 = 359%nat ∧
  count_non_function function_map_v2 = 359%nat ∧
  ∀ r c, (r, c) ∈ data_cells 25 function_map_v2 ↔ cell_at function_map_v2 r c = Some false.
Proof.
  assert (data_cells 25 function_map_v2 = data_cells_v2) as Hc by (vm_compute; reflexivity).
  split; [done|].
  split; [apply (bool_decide_unpack _); vm_compute; exact I|].
  split; [reflexivity|]. split; [vm_compute; reflexivity|].
  apply (data_cells_complete 25 _ _ function_map_v2_shape Hc). vm_compute. reflexivity.
Qed.

(** Evaluation of [place_data_bits] on a stream whose bits are
    [f 0 .. f (L-1)]: the value is computed with [f] left open, the data
    cells are read back in the order of the zig-zag, and the function cells
    are compared with the laid-out matrix. *)
Ltac evaluate_placement Hshape :=
  match goal with
  | |- ∃ m, ?t = _ ∧ _ =>
      let v := eval vm_compute in t in
      match v with Ok (?m, _) => exists m end
  end;
  split; [vm_compute; reflexivity|];
  split; [split; [reflexivity|repeat constructor]|];
  split; [vm_compute; reflexivity|];
  intros ?r ?c ?Hrc;
  match goal with
  | Hfun : cell_at ?fm ?r ?c = Some true |- cell_at ?m0 ?r ?c = cell_at ?l0 ?r ?c =>
      let H := fresh "H" in
      match type of Hshape with
      | shape ?N _ _ =>
          pose proof (forall_cells N fm
                        (λ r c x, negb x || bool_decide (cell_at m0 r c = cell_at l0 r c))
                        Hshape) as H
      end;
      specialize (H ltac:(vm_compute; reflexivity) r c true Hfun);
      simpl in H; by apply bool_decide_eq_true in H
  end.

Lemma place_data_bits_v1 (f : nat → bool) :
  ∃ m,
    place_data_bits layout_v1 21 (f <$> seq 0 208) = Ok (m, 208) ∧
    shape 21 21 m ∧
    (λ rc, cell_at m rc.1 rc.2) <$> data_cells_v1
    = (λ i, Some (CInt (Z.b2z (f i)))) <$> seq 0 208 ∧
    ∀ r c, cell_at function_map_v1 r c = Some true → cell_at m r c = cell_at layout_v1 r c.
Proof. evaluate_placement function_map_v1_shape. Qed.

Lemma place_data_bits_v2 (f : nat → bool) :
  ∃ m,
    place_data_bits layout_v2 25 (f <$> seq 0 359) = Ok (m, 359) ∧
    shape 25 25 m ∧
    (λ rc, cell_at m rc.1 rc.2) <$> data_cells_v2
    = (λ i, Some (CInt (Z.b2z (f i)))) <$> seq 0 359 ∧
    ∀ r c, cell_at function_map_v2 r c = Some true → cell_at m r c = cell_at layout_v2 r c.
Proof. evaluate_placement function_map_v2_shape. Qed.

(** The bits of a stream of the expected length end up, in the order of the
    zig-zag, in the data cells. *)
Lemma placed_bits_lookup (bits : list bool) (L : nat) (cells : list (nat * nat)) (m : matrix) :
  length bits = L →
  (λ rc, cell_at m rc.1 rc.2) <$> cells
  = (λ i, Some (CInt (Z.b2z (default false (bits !! i))))) <$> seq 0 L →
  ∀ i r c, cells !! i = Some (r, c) →
    ∃ b, bits !! i = Some b ∧ cell_at m r c = Some (CInt (Z.b2z b)).
Proof.
  intros Hlen Hcells i r c Hi.
  destruct (fmap_seq_lookup _ _ _ _ Hcells i (r, c) Hi) as [Hcell Hlt]. simpl in Hcell.
  destruct (lookup_lt_is_Some_2 bits i) as [b Hb]; [lia|].
  exists b. split; [done|]. by rewrite Hcell, Hb.
Qed.

(** C7: the function-pattern map of [create_function_pattern_matrix] has 208
    non-function cells for version 1 and 359 for version 2, the length
    8*(D+E)+R of the bit stream; [place_data_bits], applied to the laid-out
    matrix and a stream of that length, returns having taken every bit of the
    stream, bit [i] standing in the [i]-th non-function cell of the zig-zag
    (each non-function cell occurs there exactly once), the function cells
    left as laid out. *)
Theorem place_data_bits_fills_non_function_cells (version : Z) :
  version = 1 ∨ version = 2 →
  ∃ (N L : nat) (fm : function_map) (layout : matrix),
    get_size_from_version version = Ok (Z.of_nat N) ∧
    get_expected_bitstream_length_for_version version = Ok (Z.of_nat L) ∧
    Z.of_nat L = (if version =? 1 then 8 * (19 + 7) + 0 else 8 * (34 + 10) + 7) ∧
    L = (if version =? 1 then 208%nat else 359%nat) ∧
    create_function_pattern_matrix version = Ok fm ∧
    layout_function_patterns version = Ok layout ∧
    count_non_function fm = L ∧
    NoDup (data_cells N fm) ∧ length (data_cells N fm) = L ∧
    (∀ r c, (r, c) ∈ data_cells N fm ↔ cell_at fm r c = Some false) ∧
    ∀ bits : list bool, length bits = L →
      ∃ m,
        place_data_bits layout (Z.of_nat N) bits = Ok (m, Z.of_nat L) ∧
        generate_qr_module bits version = Ok m ∧
        (∀ i r c, data_cells N fm !! i = Some (r, c) →
           ∃ b, bits !! i = Some b ∧ cell_at m r c = Some (CInt (Z.b2z b))) ∧
        (∀ r c, cell_at fm r c = Some true → cell_at m r c = cell_at layout r c).
Proof.
  intros [-> | ->].
  - destruct data_cells_v1_spec as (Hcells & Hnodup & Hlen & Hcount & Hiff).
    exists 21%nat, 208%nat, function_map_v1, layout_v1.
    split; [reflexivity|]. split; [reflexivity|]. split; [reflexivity|].
    split; [reflexivity|]. split; [exact create_function_pattern_matrix_v1|].
    split; [exact layout_function_patterns_v1|]. split; [done|].
    rewrite Hcells. split; [done|]. split; [done|].
    split; [by rewrite <- Hcells|].
    intros bits Hbits.
    destruct (place_data_bits_v1 (λ i, default false (bits !! i)))
      as (m & Hplace & _ & Hread & Hframe).
    rewrite <- (list_tabulate false 208 bits Hbits) in Hplace.
    exists m. split; [exact Hplace|]. split.
    + unfold generate_qr_module. change (get_size_from_version 1) with (Ok 21 : result Z).
      cbn [bind]. rewrite layout_function_patterns_v1. cbn [bind].
      change (Z.of_nat 21) with 21 in Hplace. by rewrite Hplace.
    + split; [|done]. by apply placed_bits_lookup with (L := 208%nat).
  - destruct data_cells_v2_spec as (Hcells & Hnodup & Hlen & Hcount & Hiff).
    exists 25%nat, 359%nat, function_map_v2, layout_v2.
    split; [reflexivity|]. split; [reflexivity|]. split; [reflexivity|].
    split; [reflexivity|]. split; [exact create_function_pattern_matrix_v2|].
    split; [exact layout_function_patterns_v2|]. split; [done|].
    rewrite Hcells. split; [done|]. split; [done|].
    split; [by rewrite <- Hcells|].
    intros bits Hbits.
    destruct (place_data_bits_v2 (λ i, default false (bits !! i)))
      as (m & Hplace & _ & Hread & Hframe).
    rewrite <- (list_tabulate false 359 bits Hbits) in Hplace.
    exists m. split; [exact Hplace|]. split.
    + unfold generate_qr_module. change (get_size_from_version 2) with (Ok 25 : result Z).
      cbn [bind]. rewrite layout_function_patterns_v2. cbn [bind].
      change (Z.of_nat 25) with 25 in Hplace. by rewrite Hplace.
    + split; [|done]. by apply placed_bits_lookup with (L := 359%nat).
Qed.

Lemma place_data_bits_fills_non_function_cells_witness :
  ∃ (N L : nat) (fm : function_map) (layout : matrix),
    get_size_from_version 1 = Ok (Z.of_nat N) ∧
    get_expected_bitstream_length_for_version 1 = Ok (Z.of_nat L) ∧
    Z.of_nat L = (if 1 =? 1 then 8 * (19 + 7) + 0 else 8 * (34 + 10) + 7) ∧
    L = (if 1 =? 1 then 208%nat else 359%nat) ∧
    create_function_pattern_matrix 1 = Ok fm ∧
    layout_function_patterns 1 = Ok layout ∧
    count_non_function fm = L ∧
    NoDup (data_cells N fm) ∧ length (data_cells N fm) = L ∧
    (∀ r c, (r, c) ∈ data_cells N fm ↔ cell_at fm r c = Some false) ∧
    ∀ bits : list bool, length bits = L →
      ∃ m,
        place_data_bits layout (Z.of_nat N) bits = Ok (m, Z.of_nat L) ∧
        generate_qr_module bits 1 = Ok m ∧
        (∀ i r c, data_cells N fm !! i = Some (r, c) →
           ∃ b, bits !! i = Some b ∧ cell_at m r c = Some (CInt (Z.b2z b))) ∧
        (∀ r c, cell_at fm r c = Some true → cell_at m r c = cell_at layout r c).
Proof.
  apply (place_data_bits_fills_non_function_cells 1). left. reflexivity.
Defined.

(** ** The zig-zag returns on every stream *)

Lemma mset_shape {A : Type} (rows cols : nat) (m : list (list A)) (r c : Z) (x : A) :
  shape rows cols m → 0 ≤ r < Z.of_nat rows → 0 ≤ c < Z.of_nat cols →
  ∃ m', mset m r c x = Ok m' ∧ shape rows cols m'.
Proof.
  intros Hm Hr Hc.
  destruct (shape_lookup rows cols m (Z.to_nat r) Hm) as (row & Hrow & Hlen); [lia|].
  exists (<[Z.to_nat r := <[Z.to_nat c := x]> row]> m). split.
  - rewrite <- (Z2Nat.id r), <- (Z2Nat.id c) at 1 by lia.
    apply mset_in_range; [done|lia].
  - destruct Hm as [Hrows Hall]. split; [by rewrite length_insert|].
    apply Forall_insert; [done|]. by rewrite length_insert.
Qed.

Lemma set_if_none_shape (rows cols : nat) (m : matrix) (r c : Z) (x : cell) :
  shape rows cols m → 0 ≤ r < Z.of_nat rows → 0 ≤ c < Z.of_nat cols →
  ∃ m', set_if_none m r c x = Ok m' ∧ shape rows cols m'.
Proof.
  intros Hm Hr Hc. unfold set_if_none.
  destruct (mget_in_shape rows cols m r c Hm Hr Hc) as (v & -> & _). simpl.
  destruct (is_none v); [by apply mset_shape|eauto].
Qed.

Lemma place_cell_shape (N : nat) (bits : list bool) (row c : Z) (m : matrix) (idx : Z) :
  shape N N m → 0 ≤ row < Z.of_nat N → 0 ≤ idx →
  ∃ m' idx',
    place_cell (Z.of_nat N) bits row c (m, idx) = Ok (m', idx') ∧
    shape N N m' ∧ 0 ≤ idx'.
Proof.
  intros Hm Hrow Hidx. unfold place_cell.
  destruct ((0 <=? c) && (c <? Z.of_nat N)) eqn:Hc; [|eauto].
  apply andb_true_iff in Hc as [Hc1%Z.leb_le Hc2%Z.ltb_lt].
  destruct (mget_in_shape N N m row c Hm) as (v & -> & _); [lia..|]. simpl.
  destruct (is_none v); [|eauto].
  destruct (Z.ltb_spec idx (len bits)) as [Hlt|Hge].
  - destruct (lookup_lt_is_Some_2 bits (Z.to_nat idx)) as [b Hb]; [unfold len in Hlt; lia|].
    rewrite (getitem_lookup_Z bits idx b) by done. simpl.
    destruct (mset_shape N N m row c (CInt (Z.b2z b)) Hm) as (m' & -> & Hm'); [lia..|].
    simpl. exists m', (idx + 1). split; [done|]. split; [done|lia].
  - destruct (mset_shape N N m row c (CInt 0) Hm) as (m' & -> & Hm'); [lia..|].
    simpl. eauto.
Qed.

Lemma rows_loop_S (n : nat) (size : Z) (bits : list bool) (cpc : Z) (w : walk) :
  rows_loop (S n) size bits cpc w =
  (s1 <- place_cell size bits (w_row w) (cpc - 0) (w_matrix w, w_bit_idx w) ;;
   p <- place_cell size bits (w_row w) (cpc - 1) s1 ;;
   let row := w_row w + w_direction w in
   if negb ((0 <=? row) && (row <? size)) then
     let direction := w_direction w * -1 in
     Ok (mk_walk p.1 p.2 (row + direction) (w_col w - 2) direction)
   else
     rows_loop n size bits cpc (mk_walk p.1 p.2 row (w_col w) (w_direction w))).
Proof.
  cbn [rows_loop]. unfold range. change (seqZ 0 2) with [0; 1]. cbn [for_each].
  destruct (place_cell size bits (w_row w) (cpc - 0) (w_matrix w, w_bit_idx w)) as [s1|e];
    [|done].
  cbn [bind]. by destruct (place_cell size bits (w_row w) (cpc - 1) s1).
Qed.

Lemma columns_loop_S (fuel : nat) (size : Z) (bits : list bool) (w : walk) :
  columns_loop (S fuel) size bits w =
  if negb (0 <=? w_col w) then Ok w
  else if w_col w =? 6 then
    columns_loop fuel size bits
      (mk_walk (w_matrix w) (w_bit_idx w) (w_row w) (w_col w - 1) (w_direction w))
  else
    w' <- rows_loop (Z.to_nat size) size bits (w_col w) w ;;
    if w_col w' <? 0 then Ok w' else columns_loop fuel size bits w'.
Proof. done. Qed.

(** One sweep of a column pair ends with the [break]: the column has moved
    two to the left and the direction is reversed. *)
Lemma rows_loop_breaks (N : nat) (bits : list bool) (cpc : Z) (n : nat) :
  ∀ w, walk_ok N w → rows_ahead N w ≤ Z.of_nat n →
  ∃ w', rows_loop n (Z.of_nat N) bits cpc w = Ok w' ∧ walk_ok N w' ∧
        w_col w' = w_col w - 2.
Proof.
  induction n as [|n IH]; intros w (Hm & Hidx & Hrow & Hdir) Hahead.
  - unfold rows_ahead in Hahead. destruct (w_direction w =? -1); lia.
  - rewrite rows_loop_S.
    destruct (place_cell_shape N bits (w_row w) (cpc - 0) (w_matrix w) (w_bit_idx w))
      as (m1 & i1 & -> & Hm1 & Hi1); [done..|]. cbn [bind].
    destruct (place_cell_shape N bits (w_row w) (cpc - 1) m1 i1)
      as (m2 & i2 & -> & Hm2 & Hi2); [done..|]. cbn [bind fst snd]. cbv zeta.
    destruct ((0 <=? w_row w + w_direction w) && (w_row w + w_direction w <? Z.of_nat N))
      eqn:Hin; cbn [negb].
    + apply andb_true_iff in Hin as [H1%Z.leb_le H2%Z.ltb_lt].
      destruct (IH (mk_walk m2 i2 (w_row w + w_direction w) (w_col w) (w_direction w)))
        as (w' & Hw' & Hok & Hcol).
      * split; [done|]. split; [done|]. split; [simpl; lia|done].
      * unfold rows_ahead in *. simpl. destruct (w_direction w =? -1) eqn:E; lia.
      * exists w'. split; [done|]. split; [done|]. by rewrite Hcol.
    + eexists. split; [done|]. split; [|done].
      apply andb_false_iff in Hin.
      split; [done|]. split; [done|]. simpl.
      destruct Hdir as [Hd | Hd]; rewrite Hd in *;
        (split; [|by (left + right)]);
        destruct Hin as [Hin|Hin];
        try (apply Z.leb_gt in Hin); try (apply Z.ltb_ge in Hin); lia.
Qed.

Lemma columns_loop_returns (N : nat) (bits : list bool) (fuel : nat) :
  ∀ w, walk_ok N w → w_col w < Z.of_nat fuel →
  ∃ w', columns_loop fuel (Z.of_nat N) bits w = Ok w' ∧ walk_ok N w'.
Proof.
  induction fuel as [|fuel IH]; intros w Hw Hcol.
  - simpl. destruct (Z.leb_spec 0 (w_col w)); [lia|]. simpl. eauto.
  - rewrite columns_loop_S.
    destruct (Z.leb_spec 0 (w_col w)) as [Hnn|]; cbn [negb]; [|eauto].
    destruct (Z.eqb_spec (w_col w) 6) as [H6|H6].
    + apply IH; [|simpl; lia]. destruct Hw as (? & ? & ? & ?).
      split; [done|]. split; [done|]. split; done.
    + destruct (rows_loop_breaks N bits (w_col w) (Z.to_nat (Z.of_nat N)) w Hw)
        as (w' & -> & Hw' & Hcol').
      { destruct Hw as (_ & _ & Hrow & Hdir). unfold rows_ahead.
        destruct (w_direction w =? -1); lia. }
      cbn [bind]. destruct (Z.ltb_spec (w_col w') 0); [eauto|].
      apply IH; [done|lia].
Qed.

Lemma place_data_bits_returns (N : nat) (m : matrix) (bits : list bool) :
  (0 < N)%nat → shape N N m →
  ∃ m' used, place_data_bits m (Z.of_nat N) bits = Ok (m', used) ∧ shape N N m'.
Proof.
  intros HN Hm. unfold place_data_bits.
  destruct (columns_loop_returns N bits (Z.to_nat (Z.of_nat N) + 1)
              (mk_walk m 0 (Z.of_nat N - 1) (Z.of_nat N - 1) (-1)))
    as (w & -> & Hw & _).
  { split; [done|]. split; [simpl; lia|]. split; [simpl; lia|by left]. }
  { simpl. lia. }
  simpl. unfold range.
  destruct (for_each_seqZ_inv (λ _ m', shape N N m')
              (λ r_idx m0,
                 for_each (seqZ 0 (Z.of_nat N))
                   (λ c_idx m1, set_if_none m1 r_idx c_idx (CInt 0)) m0)
              0 (Z.of_nat N) (w_matrix w)) as (m' & -> & Hm').
  - lia.
  - done.
  - intros r t Hr Ht.
    destruct (for_each_seqZ_inv (λ _ m', shape N N m')
                (λ c_idx m1, set_if_none m1 r c_idx (CInt 0))
                0 (Z.of_nat N) t) as (t' & Ht' & Hs').
    + lia.
    + done.
    + intros c u Hc Hu. apply set_if_none_shape; [done|lia..].
    + eauto.
  - simpl. eauto.
Qed.

Lemma generate_qr_module_returns (bits : list bool) (version : Z) (N : nat) :
  (version = 1 ∧ N = 21%nat) ∨ (version = 2 ∧ N = 25%nat) →
  ∃ m, generate_qr_module bits version = Ok m ∧ shape N N m.
Proof.
  intros [[-> ->] | [-> ->]]; unfold generate_qr_module.
  - change (get_size_from_version 1) with (Ok 21 : result Z). cbn [bind].
    rewrite layout_function_patterns_v1. cbn [bind].
    destruct (place_data_bits_returns 21 layout_v1 bits) as (m & used & Hp & Hm);
      [lia|exact layout_v1_shape|].
    change (Z.of_nat 21) with 21 in Hp. rewrite Hp. simpl. eauto.
  - change (get_size_from_version 2) with (Ok 25 : result Z). cbn [bind].
    rewrite layout_function_patterns_v2. cbn [bind].
    destruct (place_data_bits_returns 25 layout_v2 bits) as (m & used & Hp & Hm);
      [lia|exact layout_v2_shape|].
    change (Z.of_nat 25) with 25 in Hp. rewrite Hp. simpl. eauto.
Qed.

(** ** The pipeline *)

Lemma find_best_pattern_returns (n : nat) (m : matrix) (fmap : function_map) :
  (0 < n)%nat → shape n n m → shape n n fmap →
  ∃ id, find_best_pattern m fmap = Ok (masked id fmap m, id) ∧ 0 ≤ id ≤ 7.
Proof.
  intros Hn Hm Hf. unfold find_best_pattern, range.
  match goal with
  | |- context [for_each (seqZ 0 8) ?body ?s0] =>
      destruct (for_each_seqZ_inv (best_among m fmap) body 0 8 s0) as (b & -> & Hb)
  end.
  - lia.
  - by left.
  - intros k t Hk Ht. by eapply (find_best_pattern_step n).
  - simpl. destruct Hb as [[? _] | (id & sid & -> & Hid & _)]; [lia|].
    simpl. exists id. split; [done|lia].
Qed.

Lemma get_format_string_level_L (id : Z) :
  0 ≤ id ≤ 7 →
  ∃ fmt, get_format_string [false; true] (format_b 3 id) = Ok fmt ∧ length fmt = 15%nat.
Proof.
  intros Hid.
  assert (id = 0 ∨ id = 1 ∨ id = 2 ∨ id = 3 ∨ id = 4 ∨ id = 5 ∨ id = 6 ∨ id = 7) as H by lia.
  destruct H as [->|[->|[->|[->|[->|[->|[->| ->]]]]]]];
    (eexists; split; [vm_compute; reflexivity|reflexivity]).
Qed.

Lemma encode_byte_mode_version (text : list Z) (codewords : list (list bool)) (version : Z) :
  encode_byte_mode text = Ok (codewords, version) → version = 1 ∨ version = 2.
Proof.
  intros Henc.
  destruct (decide (Forall (λ c, 0 ≤ c < 256) text)) as [Hall|Hnot].
  - rewrite Forall_forall in Hall.
    destruct (Z.le_gt_cases (len text) 32) as [Hle|Hgt].
    + destruct (encode_byte_mode_stream text Hall Hle) as (cw0 & Henc0 & _).
      rewrite Henc0 in Henc. injection Henc as _ <-.
      destruct (len text <=? 17); auto.
    + by rewrite (encode_byte_mode_too_long text Hall) in Henc by lia.
  - rewrite encode_byte_mode_invalid in Henc; [done|].
    apply not_Forall_Exists in Hnot; [|apply _]. by apply Exists_exists in Hnot.
Qed.

(** C8: for every input that [encode_byte_mode] accepts, whatever check
    bytes the Reed-Solomon codec returns, the pipeline of
    [assemble_qr_matrix] returns a matrix of side 17 + 4 * version whose
    dark-module cell, row 4 * version + 9, column 8, is 1. *)
Theorem assemble_qr_matrix_dark_module
    (rs_encode : Z → list Z → list Z) (text : list Z)
    (codewords : list (list bool)) (version : Z) :
  (∀ data, Forall is_byte data →
           Forall is_byte (rs_encode 7 data) ∧ Forall is_byte (rs_encode 10 data)) →
  encode_byte_mode text = Ok (codewords, version) →
  ∃ final mask,
    assemble_qr_matrix rs_encode text = Ok (final, version, mask) ∧
    (version = 1 ∨ version = 2) ∧ 0 ≤ mask ≤ 7 ∧
    shape (Z.to_nat (17 + 4 * version)) (Z.to_nat (17 + 4 * version)) final ∧
    cell_at final (Z.to_nat (4 * version + 9)) 8 = Some (CInt 1).
Proof.
  intros _ Henc.
  pose proof (encode_byte_mode_version text codewords version Henc) as Hv.
  set (N := Z.to_nat (17 + 4 * version)).
  assert ((version = 1 ∧ N = 21%nat) ∨ (version = 2 ∧ N = 25%nat)) as HvN.
  { subst N. destruct Hv as [-> | ->]; [left|right]; split; reflexivity. }
  assert (N = 21%nat ∨ N = 25%nat) as HN by (destruct HvN as [[_ ?]|[_ ?]]; auto).
  assert (get_size_from_version version = Ok (Z.of_nat N)) as Hsize.
  { destruct HvN as [[-> ->]|[-> ->]]; reflexivity. }
  assert (∃ fm, create_function_pattern_matrix version = Ok fm ∧ shape N N fm) as (fm & Hfm & Hfms).
  { destruct HvN as [[-> ->]|[-> ->]].
    - exists function_map_v1. split; [exact create_function_pattern_matrix_v1|].
      exact function_map_v1_shape.
    - exists function_map_v2. split; [exact create_function_pattern_matrix_v2|].
      exact function_map_v2_shape. }
  unfold assemble_qr_matrix, final_bitstream. rewrite Henc. cbn [bind fst snd].
  assert (∃ ecc, generate_error_correction rs_encode (bits_to_Z <$> codewords) version = Ok ecc)
    as [ecc ->].
  { unfold generate_error_correction. destruct Hv as [-> | ->]; simpl; eauto. }
  cbn [bind fst snd].
  match goal with
  | |- context [generate_qr_module ?bits version] =>
      destruct (generate_qr_module_returns bits version N HvN) as (m & -> & Hm)
  end.
  cbn [bind]. rewrite Hfm. cbn [bind].
  destruct (find_best_pattern_returns N m fm) as (id & -> & Hid); [lia|done|done|].
  cbn [bind fst snd].
  destruct (get_format_string_level_L id Hid) as (fmt & -> & Hfmt). cbn [bind].
  rewrite Hsize. cbn [bind].
  destruct (place_format_information_cells N (int_or_zero (masked id fm m)) fmt HN)
    as (out & -> & Hout & Hdark & _); [by apply int_or_zero_shape, masked_shape|done|].
  cbn [bind]. exists out, id. split; [done|]. split; [done|]. split; [done|].
  split; [done|].
  replace (Z.to_nat (4 * version + 9)) with (N - 8)%nat; [done|].
  destruct HvN as [[-> ->]|[-> ->]]; reflexivity.
Qed.

Lemma rs_encode_bytes (data : list Z) :
  Forall is_byte data →
  Forall is_byte (RS.rs_encode 7 data) ∧ Forall is_byte (RS.rs_encode 10 data).
Proof.
  intros Hdata. unfold RS.rs_encode. split; apply Forall_app; (split; [done|]).
  - by destruct (rs_ecc_spec 7 data (or_introl eq_refl) Hdata) as (_ & ? & _).
  - by destruct (rs_ecc_spec 10 data (or_intror eq_refl) Hdata) as (_ & ? & _).
Qed.

Lemma assemble_qr_matrix_dark_module_witness :
  ∃ final mask,
    assemble_qr_matrix RS.rs_encode hello_world = Ok (final, 1, mask) ∧
    (1 = 1 ∨ 1 = 2) ∧ 0 ≤ mask ≤ 7 ∧
    shape (Z.to_nat (17 + 4 * 1)) (Z.to_nat (17 + 4 * 1)) final ∧
    cell_at final (Z.to_nat (4 * 1 + 9)) 8 = Some (CInt 1).
Proof.
  apply (assemble_qr_matrix_dark_module RS.rs_encode hello_world
           (match encode_byte_mode hello_world with Ok r => r.1 | Raise _ => [] end) 1).
  - exact rs_encode_bytes.
  - vm_compute. reflexivity.
Defined.

(** ** The length of the bit stream *)

Lemma bits_to_Z_byte (cw : list bool) : length cw = 8%nat → is_byte (bits_to_Z cw).
Proof.
  intros H. do 8 (destruct cw as [|? cw]; [discriminate|]). destruct cw; [|discriminate].
  unfold is_byte, bits_to_Z. simpl.
  repeat match goal with b : bool |- _ => destruct b end; simpl; lia.
Qed.

Lemma generate_error_correction_rs_ecc (data : list Z) (version : Z) (E : nat) :
  (version = 1 ∧ E = 7%nat) ∨ (version = 2 ∧ E = 10%nat) → Forall is_byte data →
  generate_error_correction RS.rs_encode data version = Ok (format_b 8 <$> RS.rs_ecc E data).
Proof.
  intros Hv Hdata.
  assert (E = 7%nat ∨ E = 10%nat) as HE by (destruct Hv as [[_ ?]|[_ ?]]; auto).
  destruct (rs_ecc_spec E data HE Hdata) as (Hlen & _).
  unfold generate_error_correction, RS.rs_encode.
  destruct Hv as [[-> ->] | [-> ->]]; simpl bind; cbv beta; f_equal; f_equal;
    unfold slice_last; simpl Z.eqb; cbv iota;
    (apply drop_app_length'; rewrite length_app;
     change (Z.to_nat 7) with 7%nat; change (Z.to_nat 10) with 10%nat; lia).
Qed.

(** With the Reed-Solomon encoder of the specification, the stream handed to
    [generate_qr_module] has the length [place_data_bits] consumes: 208 bits
    for version 1, 359 for version 2. *)
Lemma final_bitstream_length (text : list Z) (codewords : list (list bool)) (version : Z) :
  encode_byte_mode text = Ok (codewords, version) →
  ∃ bits,
    final_bitstream RS.rs_encode text = Ok (bits, version) ∧
    len bits = (if version =? 1 then 208 else 359) ∧
    get_expected_bitstream_length_for_version version = Ok (len bits).
Proof.
  intros Henc.
  assert ((∀ c, c ∈ text → 0 ≤ c < 256) ∧ len text ≤ 32) as [Hall Hle].
  { destruct (decide (Forall (λ c, 0 ≤ c < 256) text)) as [Hall|Hnot].
    - rewrite Forall_forall in Hall. split; [done|].
      destruct (Z.le_gt_cases (len text) 32) as [Hle|Hgt]; [done|].
      by rewrite (encode_byte_mode_too_long text Hall) in Henc by lia.
    - rewrite encode_byte_mode_invalid in Henc; [done|].
      apply not_Forall_Exists in Hnot; [|apply _]. by apply Exists_exists in Hnot. }
  destruct (encode_byte_mode_stream text Hall Hle) as (cw & Henc' & Hn & Hcw & _ & Hbits).
  rewrite Henc' in Henc. injection Henc as -> <-.
  set (version := if len text <=? 17 then 1 else 2) in *.
  set (D := if len text <=? 17 then 19 else 34) in *.
  set (E := if len text <=? 17 then 7%nat else 10%nat).
  assert ((version = 1 ∧ E = 7%nat ∧ D = 19) ∨ (version = 2 ∧ E = 10%nat ∧ D = 34)) as Hv.
  { subst version E D. destruct (len text <=? 17); auto. }
  assert (Forall is_byte (bits_to_Z <$> codewords)) as Hints.
  { apply Forall_fmap. eapply Forall_impl; [exact Hcw|]. intros x Hx. by apply bits_to_Z_byte. }
  assert (E = 7%nat ∨ E = 10%nat) as HE by (destruct Hv as [(_ & ? & _)|(_ & ? & _)]; auto).
  destruct (rs_ecc_spec E (bits_to_Z <$> codewords) HE Hints) as (Hlen & Hecc & _).
  unfold final_bitstream. rewrite Henc'. cbn [bind fst snd].
  rewrite (generate_error_correction_rs_ecc _ version E)
    by (done || destruct Hv as [(? & ? & _)|(? & ? & _)]; auto).
  cbn [bind].
  assert (len (concat (codewords ++ (format_b 8 <$> RS.rs_ecc E (bits_to_Z <$> codewords))))
          = 8 * D + 8 * Z.of_nat E) as Hcat.
  { rewrite concat_app. unfold len in *. rewrite length_app, payload_length, Hlen; [lia|].
    intros c Hc. by apply (proj1 (Forall_forall _ _) Hecc). }
  eexists. split; [reflexivity|].
  set (stream := concat (codewords ++ (format_b 8 <$> RS.rs_ecc E (bits_to_Z <$> codewords))))
    in *.
  destruct Hv as [(-> & HE' & HD)|(-> & HE' & HD)]; rewrite HE', HD in Hcat; simpl.
  - split; [rewrite Hcat; lia|]. rewrite Hcat. reflexivity.
  - assert (len (stream ++ replicate 7 false) = 359) as H359.
    { unfold len in *. rewrite length_app, length_replicate. lia. }
    change (replicate 7 false) with [false; false; false; false; false; false; false] in H359.
    split; [done|]. rewrite H359. reflexivity.
Qed.

(** ** Evaluations *)

(** The format string of level L with mask 0. *)
Example get_format_string_L_mask_0 :
  get_format_string [false; true] [false; false; false]
  = Ok [true; true; true; false; true; true; true; true;
        true; false; false; false; true; false; false].
Proof. vm_compute. reflexivity. Qed.

(** The generator polynomials of the two versions. *)
Example rs_generator_poly_7 :
  RS.rs_generator_poly 7 = [1; 127; 122; 154; 164; 11; 68; 117].
Proof. vm_compute. reflexivity. Qed.

Example rs_generator_poly_10 :
  RS.rs_generator_poly 10 = [1; 216; 194; 159; 111; 199; 94; 95; 113; 157; 193].
Proof. vm_compute. reflexivity. Qed.

(** Rule 4 on a 20 x 20 matrix with 220 dark modules: 55 percent in exact
    arithmetic, 55.00000000000001 in floats, one step of five percent. *)
Example penalty_rule4_55_percent :
  _calculate_penalty_rule4
    (replicate 11 (replicate 20 (CInt 1)) ++ replicate 9 (replicate 20 (CInt 0))) = 10.
Proof. vm_compute. reflexivity. Qed.

(** [encode_byte_mode] on the empty string and on "A". *)
Example encode_byte_mode_empty :
  ∃ cw, encode_byte_mode [] = Ok (cw, 1) ∧
        bits_to_Z <$> take 6 cw = [64; 0; 236; 17; 236; 17].
Proof.
  remember (encode_byte_mode []) as r eqn:E. vm_compute in E. subst r.
  eexists. split; [reflexivity|]. vm_compute. reflexivity.
Qed.

Example encode_byte_mode_A :
  ∃ cw, encode_byte_mode [65] = Ok (cw, 1) ∧
        bits_to_Z <$> take 5 cw = [64; 20; 16; 236; 17].
Proof.
  remember (encode_byte_mode [65]) as r eqn:E. vm_compute in E. subst r.
  eexists. split; [reflexivity|]. vm_compute. reflexivity.
Qed.

(** The whole pipeline on "HELLO WORLD" chooses version 1 and mask 3. *)
Example assemble_qr_matrix_hello_world :
  ∃ final, assemble_qr_matrix RS.rs_encode hello_world = Ok (final, 1, 3).
Proof.
  match goal with
  | |- ∃ final, ?t = _ =>
      let v := eval vm_compute in t in
      match v with Ok (?m, _, _) => exists m end
  end.
  vm_compute. reflexivity.
Qed.

(** * Further properties of the code *)

(** ** Versions and sizes *)

(** X1. [get_size_from_version] and [get_version_from_size] are inverse to
    each other: a version has side [size] exactly when that size has this
    version. The first fails exactly on the versions outside 1..40, the second
    exactly on the sizes that are not 21, 25, ..., 177, each with its
    [ValueError]. *)
Theorem version_size_round_trip (version size : Z) :
  (get_size_from_version version = Ok size ↔ get_version_from_size size = Ok version) ∧
  (get_size_from_version version = Raise BadVersion ↔ ¬ (1 ≤ version ≤ 40)) ∧
  (get_version_from_size size = Raise BadSize
   ↔ ¬ (∃ v, 1 ≤ v ≤ 40 ∧ size = 17 + 4 * v)) ∧
  (∀ e, get_size_from_version version = Raise e → e = BadVersion) ∧
  (∀ e, get_version_from_size size = Raise e → e = BadSize).
Proof.
  unfold get_size_from_version, get_version_from_size.
  repeat split.
  - intros H.
    destruct (1 <=? version) eqn:E1, (version <=? 40) eqn:E2; simpl in H; try discriminate.
    injection H as <-.
    replace ((version - 1) * 4 + 21 - 21) with ((version - 1) * 4) by lia.
    rewrite Z.mod_mul, Z.div_mul by lia. simpl.
    replace (21 <=? (version - 1) * 4 + 21) with true by lia.
    replace ((version - 1) * 4 + 21 <=? 177) with true by lia.
    simpl. f_equal. lia.
  - intros H.
    destruct ((size - 21) mod 4 =? 0) eqn:E0; simpl in H; try discriminate.
    destruct (21 <=? size) eqn:E1, (size <=? 177) eqn:E2; simpl in H; try discriminate.
    injection H as <-.
    apply Z.eqb_eq in E0.
    pose proof (Z.div_mod (size - 21) 4 ltac:(lia)) as Hd.
    replace (1 <=? (size - 21) / 4 + 1) with true by lia.
    replace ((size - 21) / 4 + 1 <=? 40) with true by lia.
    simpl. f_equal. lia.
  - intros H [H1 H2].
    replace (1 <=? version) with true in H by lia.
    replace (version <=? 40) with true in H by lia. discriminate.
  - intros H.
    destruct (1 <=? version) eqn:E1, (version <=? 40) eqn:E2; simpl; try reflexivity.
    exfalso. apply H. lia.
  - intros H (v & Hv & ->).
    replace (17 + 4 * v - 21) with ((v - 1) * 4) in H by lia.
    rewrite Z.mod_mul in H by lia. simpl in H.
    replace (21 <=? 17 + 4 * v) with true in H by lia.
    replace (17 + 4 * v <=? 177) with true in H by lia. discriminate.
  - intros H.
    destruct ((size - 21) mod 4 =? 0) eqn:E0; simpl; try reflexivity.
    destruct (21 <=? size) eqn:E1, (size <=? 177) eqn:E2; simpl; try reflexivity.
    exfalso. apply H. exists ((size - 21) / 4 + 1).
    apply Z.eqb_eq in E0.
    pose proof (Z.div_mod (size - 21) 4 ltac:(lia)) as Hd. lia.
  - intros e H. destruct (negb _); congruence.
  - intros e H. destruct (_ || _); congruence.
Qed.

(** ** The format string *)

(** X2. For every 2-bit level indicator and every 3-bit mask indicator,
    [get_format_string] returns fifteen bits, not all zero. With the XOR
    mask 101010000010010 taken off, their five leading bits are the two
    indicators and the whole word is a multiple of the generator polynomial
    of the BCH(15,5) code. *)
Theorem get_format_string_bch_codeword (ecc mask : list bool) :
  length ecc = 2%nat → length mask = 3%nat →
  ∃ fmt,
    get_format_string ecc mask = Ok fmt ∧
    length fmt = 15%nat ∧
    fmt ≠ replicate 15 false ∧
    take 5 (format_b 15 (Z.lxor (bits_to_Z fmt) 21522)) = ecc ++ mask ∧
    bch_remainder (Z.lxor (bits_to_Z fmt) 21522) = 0.
Proof.
  intros He Hm.
  destruct ecc as [|a [|b [|]]]; try discriminate.
  destruct mask as [|c [|d [|e [|]]]]; try discriminate.
  destruct a, b, c, d, e;
    (eexists; split; [vm_compute; reflexivity|];
     split; [reflexivity|]; split; [discriminate|]; split; vm_compute; reflexivity).
Qed.

Lemma get_format_string_bch_codeword_witness :
  ∃ fmt,
    get_format_string [false; true] [true; false; true] = Ok fmt ∧
    length fmt = 15%nat ∧
    fmt ≠ replicate 15 false ∧
    take 5 (format_b 15 (Z.lxor (bits_to_Z fmt) 21522)) = [false; true] ++ [true; false; true] ∧
    bch_remainder (Z.lxor (bits_to_Z fmt) 21522) = 0.
Proof. apply (get_format_string_bch_codeword [false; true] [true; false; true]); reflexivity. Defined.

(** X3. Two format strings for different indicators differ in at least
    seven of their fifteen positions. *)
Theorem get_format_string_distance (ecc mask ecc' mask' : list bool) (fmt fmt' : list bool) :
  length ecc = 2%nat → length mask = 3%nat → length ecc' = 2%nat → length mask' = 3%nat →
  get_format_string ecc mask = Ok fmt →
  get_format_string ecc' mask' = Ok fmt' →
  ecc ++ mask ≠ ecc' ++ mask' →
  (7 ≤ hamming fmt fmt')%nat.
Proof.
  intros He Hm He' Hm' H H' Hne.
  destruct ecc as [|a [|b [|]]]; try discriminate.
  destruct mask as [|c [|d [|e [|]]]]; try discriminate.
  destruct ecc' as [|a' [|b' [|]]]; try discriminate.
  destruct mask' as [|c' [|d' [|e' [|]]]]; try discriminate.
  destruct a, b, c, d, e; vm_compute in H; injection H as <-;
    destruct a', b', c', d', e'; vm_compute in H'; injection H' as <-;
    first [ by exfalso; apply Hne | vm_compute; lia ].
Qed.

Lemma get_format_string_distance_witness :
  (7 ≤ hamming [true; true; true; false; true; true; true; true;
                true; false; false; false; true; false; false]
               [true; true; true; true; false; false; false; true;
                false; false; true; true; true; false; true])%nat.
Proof.
  apply (get_format_string_distance [false; true] [false; false; false]
           [false; true] [false; true; true]);
    first [ reflexivity | discriminate ].
Defined.

(** ** The function map and the layout *)

Lemma set_cells_shape (rows cols : nat) (m : matrix) :
  shape rows cols m → shape rows cols (set_cells m).
Proof.
  intros [Hl Hr]. split.
  - unfold set_cells. by rewrite length_fmap.
  - unfold set_cells. apply Forall_fmap. eapply Forall_impl; [exact Hr|].
    intros row Hrow. simpl. by rewrite length_fmap.
Qed.

Lemma cell_at_set_cells (m : matrix) (r c : nat) :
  cell_at (set_cells m) r c = (λ v, negb (is_none v)) <$> cell_at m r c.
Proof.
  unfold cell_at, set_cells. rewrite list_lookup_fmap.
  destruct (m !! r) as [row|]; simpl; [|done].
  by rewrite list_lookup_fmap.
Qed.

(** X4. For every version from 1 to 40, the function map of
    [create_function_pattern_matrix] marks exactly the cells that the layout
    steps of [generate_qr_module] have set (finder patterns, separators,
    alignment patterns, timing patterns, reserved format cells and the dark
    module) before any data bit is placed; both are square of side
    [17 + 4 * version]. *)
Theorem function_map_matches_layout (version : Z) :
  1 ≤ version ≤ 40 →
  ∃ (fm : function_map) (m : matrix),
    create_function_pattern_matrix version = Ok fm ∧
    layout_function_patterns version = Ok m ∧
    shape (Z.to_nat (17 + 4 * version)) (Z.to_nat (17 + 4 * version)) m ∧
    shape (Z.to_nat (17 + 4 * version)) (Z.to_nat (17 + 4 * version)) fm ∧
    ∀ r c, cell_at fm r c = Some true ↔ ∃ v, cell_at m r c = Some v ∧ v ≠ CNone.
Proof.
  intros Hv.
  assert (forallb layout_agrees (seqZ 1 40) = true) as Hall by (vm_compute; reflexivity).
  rewrite forallb_forall in Hall.
  specialize (Hall version). unfold layout_agrees in Hall.
  destruct (create_function_pattern_matrix version) as [fm|];
    [|exfalso; apply diff_false_true, Hall, list_elem_of_In, elem_of_seqZ; lia].
  destruct (layout_function_patterns version) as [m|];
    [|exfalso; apply diff_false_true, Hall, list_elem_of_In, elem_of_seqZ; lia].
  assert (version ∈ seqZ 1 40) as Hin by (apply elem_of_seqZ; lia).
  apply list_elem_of_In, Hall in Hin.
  apply andb_true_iff in Hin as [Hin Hrows]. apply andb_true_iff in Hin as [Heq Hlen].
  apply bool_decide_eq_true in Heq. apply Nat.eqb_eq in Hlen.
  assert (shape (Z.to_nat (17 + 4 * version)) (Z.to_nat (17 + 4 * version)) m) as Hm.
  { split; [done|]. rewrite forallb_forall in Hrows. apply Forall_forall.
    intros row Hrow. apply Nat.eqb_eq, Hrows. by apply list_elem_of_In. }
  exists fm, m. split; [done|]. split; [done|]. split; [done|].
  subst fm. split; [by apply set_cells_shape|].
  intros r c. rewrite cell_at_set_cells.
  destruct (cell_at m r c) as [v|]; simpl.
  - split.
    + intros [= H]. exists v. split; [done|]. intros ->. discriminate.
    + intros (v' & [= <-] & Hne). destruct v; done.
  - split; [done|]. intros (v & ? & _). done.
Qed.

Lemma function_map_matches_layout_witness :
  ∃ (fm : function_map) (m : matrix),
    create_function_pattern_matrix 7 = Ok fm ∧
    layout_function_patterns 7 = Ok m ∧
    shape (Z.to_nat (17 + 4 * 7)) (Z.to_nat (17 + 4 * 7)) m ∧
    shape (Z.to_nat (17 + 4 * 7)) (Z.to_nat (17 + 4 * 7)) fm ∧
    ∀ r c, cell_at fm r c = Some true ↔ ∃ v, cell_at m r c = Some v ∧ v ≠ CNone.
Proof. apply (function_map_matches_layout 7). lia. Defined.

(** ** Rule 4 of the penalty *)

Lemma count_dark_bounds (row : list cell) : 0 ≤ count_dark row ≤ len row.
Proof.
  unfold count_dark, len. pose proof (length_filter (λ v, v = CInt 1) row). lia.
Qed.

Lemma dark_modules_bounds (rows cols : nat) (m : matrix) :
  shape rows cols m → 0 ≤ dark_modules m ≤ Z.of_nat rows * Z.of_nat cols.
Proof.
  intros [Hl Hr]. subst rows. unfold dark_modules.
  induction m as [|row m IH]; csimpl; [lia|].
  apply Forall_cons in Hr as [Hrow Hr]. specialize (IH Hr).
  pose proof (count_dark_bounds row) as Hb. unfold len in Hb.
  rewrite Nat2Z.inj_succ. nia.
Qed.

(** The float arithmetic of Rule 4 is exact on the counts of the two
    sizes. *)
Lemma rule4_exact_sizes : rule4_exact_for 21 = true ∧ rule4_exact_for 25 = true.
Proof. split; vm_compute; reflexivity. Qed.

(** X5. On a 21 x 21 or 25 x 25 matrix the float arithmetic of
    [_calculate_penalty_rule4] loses nothing: the penalty is ten times the
    number of full 5% steps between the share of dark modules and 50%,
    computed exactly; it lies between 0 and 100. *)
Theorem _calculate_penalty_rule4_exact (N : nat) (m : matrix) :
  N = 21%nat ∨ N = 25%nat → shape N N m →
  _calculate_penalty_rule4 m
  = 10 * (Z.abs (100 * dark_modules m - 50 * (Z.of_nat N * Z.of_nat N))
          / (5 * (Z.of_nat N * Z.of_nat N))) ∧
  0 ≤ _calculate_penalty_rule4 m ≤ 100.
Proof.
  intros HN Hm.
  pose proof (dark_modules_bounds N N m Hm) as Hd.
  assert (_calculate_penalty_rule4 m = penalty_rule4_of_counts (len m) (dark_modules m))
    as -> by reflexivity.
  assert (len m = Z.of_nat N) as -> by (unfold len; by rewrite (proj1 Hm)).
  assert (rule4_exact_for (Z.of_nat N) = true) as Hall
    by (destruct HN as [-> | ->]; apply rule4_exact_sizes).
  unfold rule4_exact_for in Hall. rewrite forallb_forall in Hall.
  specialize (Hall (dark_modules m)).
  rewrite Z.eqb_eq in Hall. rewrite Hall by (apply list_elem_of_In, elem_of_seqZ; lia).
  unfold exact_penalty_rule4. split; [reflexivity|].
  set (T := Z.of_nat N * Z.of_nat N) in *.
  assert (0 < T) by (destruct HN as [-> | ->]; subst T; lia).
  assert (0 ≤ Z.abs (100 * dark_modules m - 50 * T) / (5 * T)) by (apply Z.div_pos; lia).
  assert (Z.abs (100 * dark_modules m - 50 * T) / (5 * T) ≤ 10).
  { apply Z.div_le_upper_bound; lia. }
  lia.
Qed.

Lemma _calculate_penalty_rule4_exact_witness :
  _calculate_penalty_rule4 (replicate 21 (replicate 21 (CInt 1)))
  = 10 * (Z.abs (100 * dark_modules (replicate 21 (replicate 21 (CInt 1)))
                 - 50 * (Z.of_nat 21 * Z.of_nat 21))
          / (5 * (Z.of_nat 21 * Z.of_nat 21))) ∧
  0 ≤ _calculate_penalty_rule4 (replicate 21 (replicate 21 (CInt 1))) ≤ 100.
Proof.
  apply (_calculate_penalty_rule4_exact 21).
  - left. reflexivity.
  - split; [reflexivity|]. repeat constructor.
Defined.

(** ** What [place_format_information] returns *)

Lemma cell_at_format_information_placed (N : nat) (fmt : list bool) (m : matrix) (r c : nat) :
  cell_at (format_information_placed N fmt m) r c = format_cell N fmt r c <$> cell_at m r c.
Proof.
  unfold cell_at, format_information_placed. rewrite list_lookup_imap.
  destruct (m !! r) as [row|]; simpl; [|done]. by rewrite list_lookup_imap.
Qed.

Lemma format_information_placed_shape (N : nat) (fmt : list bool) (m : matrix)
    (rows cols : nat) :
  shape rows cols m → shape rows cols (format_information_placed N fmt m).
Proof.
  intros [Hlen Hall]. split.
  - unfold format_information_placed. by rewrite length_imap.
  - apply Forall_lookup. intros r row Hr. unfold format_information_placed in Hr.
    rewrite list_lookup_imap in Hr. destruct (m !! r) as [row0|] eqn:Hr0; [|done].
    simpl in Hr. injection Hr as <-. rewrite length_imap.
    by eapply Forall_lookup_1 in Hall.
Qed.

(** On a version 1 or version 2 matrix and a string of fifteen bits,
    [place_format_information] leaves through its [return] with the matrix
    in which every cell has gone through [format_cell]. *)
Lemma place_format_information_placed (N : nat) (m : matrix) (fmt : list bool) :
  N = 21%nat ∨ N = 25%nat → shape N N m → length fmt = 15%nat →
  place_format_information m fmt (Z.of_nat N) = Ok (Some (format_information_placed N fmt m)).
Proof.
  intros HN Hm Hfmt.
  destruct (list_of_length_15 fmt Hfmt)
    as (b0 & b1 & b2 & b3 & b4 & b5 & b6 & b7 & b8 & b9 & b10 & b11 & b12 & b13 & b14 & ->).
  rewrite (shape_tabulate CNone N N m Hm).
  generalize (λ r c, default CNone (cell_at m r c)). intros f.
  destruct HN as [-> | ->]; vm_compute; reflexivity.
Qed.

Lemma format_cell_elsewhere (N : nat) (fmt : list bool) (r c : nat) (v : cell) :
  N = 21%nat ∨ N = 25%nat → (r < N)%nat → (c < N)%nat →
  is_format_cell N r c = false → format_cell N fmt r c v = v.
Proof.
  intros HN Hr Hc Hcell.
  assert (forallb (λ r, forallb (λ c,
            is_format_cell N r c
            || (negb (bool_decide (r = (N - 8)%nat ∧ c = 8%nat))
                && bool_decide (written_format_bit N r c = None)))
            (seq 0 N)) (seq 0 N) = true) as Hall
    by (destruct HN as [-> | ->]; vm_compute; reflexivity).
  pose proof (forall_below _ N Hall r Hr) as Hrow. simpl in Hrow.
  pose proof (forall_below _ N Hrow c Hc) as H. simpl in H.
  rewrite Hcell in H. simpl in H. apply andb_true_iff in H as [Hd Hw].
  apply bool_decide_eq_true in Hw. unfold format_cell.
  destruct (bool_decide (r = (N - 8)%nat ∧ c = 8%nat)); [done|]. by rewrite Hw.
Qed.

Lemma format_cell_bit (N : nat) (fmt : list bool) (r c : nat) (v : cell) :
  N = 21%nat ∨ N = 25%nat → (r < N)%nat → (c < N)%nat →
  is_format_cell N r c = true →
  format_cell N fmt r c v = CInt 0 ∨ format_cell N fmt r c v = CInt 1.
Proof.
  intros HN Hr Hc Hcell.
  assert (forallb (λ r, forallb (λ c,
            negb (is_format_cell N r c)
            || bool_decide (r = (N - 8)%nat ∧ c = 8%nat)
            || bool_decide (is_Some (written_format_bit N r c)))
            (seq 0 N)) (seq 0 N) = true) as Hall
    by (destruct HN as [-> | ->]; vm_compute; reflexivity).
  pose proof (forall_below _ N Hall r Hr) as Hrow. simpl in Hrow.
  pose proof (forall_below _ N Hrow c Hc) as H. simpl in H.
  rewrite Hcell in H. simpl in H. unfold format_cell.
  destruct (bool_decide (r = (N - 8)%nat ∧ c = 8%nat)); [by right|]. simpl in H.
  apply bool_decide_eq_true in H as [i ->]. unfold format_bit.
  destruct (default false (fmt !! i)); [by right|by left].
Qed.

(** X6. On a version 1 or version 2 matrix, [place_format_information]
    with a string of fifteen bits returns a matrix of the same shape in which
    only cells of row 8 and column 8 may have changed, namely the fifteen
    next to the top-left finder (the timing cells (6,8) and (8,6) are not
    among them) and the last eight of the row and of the column: every other
    cell is as it was, these hold 0 or 1, and the dark module, row [N - 8] of
    column 8, holds 1. *)
Theorem place_format_information_changes_format_cells_only
    (N : nat) (m : matrix) (fmt : list bool) :
  N = 21%nat ∨ N = 25%nat → shape N N m → length fmt = 15%nat →
  ∃ out,
    place_format_information m fmt (Z.of_nat N) = Ok (Some out) ∧
    shape N N out ∧
    cell_at out (N - 8) 8 = Some (CInt 1) ∧
    (∀ r c, (r < N)%nat → (c < N)%nat → is_format_cell N r c = false →
            cell_at out r c = cell_at m r c) ∧
    (∀ r c, (r < N)%nat → (c < N)%nat → is_format_cell N r c = true →
            cell_at out r c = Some (CInt 0) ∨ cell_at out r c = Some (CInt 1)).
Proof.
  intros HN Hm Hfmt. exists (format_information_placed N fmt m).
  split; [by apply place_format_information_placed|].
  split; [by apply format_information_placed_shape|].
  split; [|split].
  - rewrite cell_at_format_information_placed.
    destruct (shape_cell_at N N m (N - 8) 8 Hm) as [v ->];
      [destruct HN as [-> | ->]; lia..|].
    simpl. unfold format_cell. rewrite bool_decide_eq_true_2; done.
  - intros r c Hr Hc Hcell. rewrite cell_at_format_information_placed.
    destruct (shape_cell_at N N m r c Hm Hr Hc) as [v ->]. simpl.
    by rewrite format_cell_elsewhere.
  - intros r c Hr Hc Hcell. rewrite cell_at_format_information_placed.
    destruct (shape_cell_at N N m r c Hm Hr Hc) as [v ->]. simpl.
    destruct (format_cell_bit N fmt r c v HN Hr Hc Hcell) as [-> | ->]; auto.
Qed.

Lemma place_format_information_changes_format_cells_only_witness :
  ∃ out,
    place_format_information (replicate 21 (replicate 21 CRes))
      [true; true; true; false; true; true; true; true;
       true; false; false; false; true; false; false] (Z.of_nat 21) = Ok (Some out) ∧
    shape 21 21 out ∧
    cell_at out (21 - 8) 8 = Some (CInt 1) ∧
    (∀ r c, (r < 21)%nat → (c < 21)%nat → is_format_cell 21 r c = false →
            cell_at out r c = cell_at (replicate 21 (replicate 21 CRes)) r c) ∧
    (∀ r c, (r < 21)%nat → (c < 21)%nat → is_format_cell 21 r c = true →
            cell_at out r c = Some (CInt 0) ∨ cell_at out r c = Some (CInt 1)).
Proof.
  apply (place_format_information_changes_format_cells_only 21).
  - left. reflexivity.
  - split; [reflexivity|]. repeat constructor.
  - reflexivity.
Defined.

(** X7. A format string shorter than fifteen bits makes
    [place_format_information] raise [IndexError] on a version 1 or
    version 2 matrix. *)
Theorem place_format_information_short_string (N : nat) (m : matrix) (fmt : list bool) :
  N = 21%nat ∨ N = 25%nat → shape N N m → (length fmt < 15)%nat →
  place_format_information m fmt (Z.of_nat N) = Raise IndexError.
Proof.
  intros HN Hm Hfmt.
  rewrite (shape_tabulate CNone N N m Hm).
  generalize (λ r c, default CNone (cell_at m r c)). intros f.
  do 15 (destruct fmt as [|? fmt];
         [destruct HN as [-> | ->]; vm_compute; reflexivity|]).
  simpl in Hfmt. lia.
Qed.

Lemma place_format_information_short_string_witness :
  place_format_information (replicate 21 (replicate 21 (CInt 0)))
    [true; false; true] (Z.of_nat 21) = Raise IndexError.
Proof.
  apply (place_format_information_short_string 21).
  - left. reflexivity.
  - split; [reflexivity|]. repeat constructor.
  - simpl. lia.
Defined.

(** ** The zig-zag fills empty cells only, and all of them *)

Lemma cell_at_insert {A : Type} (m : list (list A)) (r c : nat) (row : list A) (x : A)
    (r' c' : nat) :
  m !! r = Some row → (c < length row)%nat →
  cell_at (<[r := <[c := x]> row]> m) r' c'
  = if bool_decide (r' = r ∧ c' = c) then Some x else cell_at m r' c'.
Proof.
  intros Hrow Hc. unfold cell_at.
  destruct (decide (r' = r)) as [->|Hr].
  - rewrite list_lookup_insert_eq by (by eapply lookup_lt_Some). simpl. rewrite Hrow. simpl.
    destruct (decide (c' = c)) as [->|Hc'].
    + rewrite list_lookup_insert_eq by done. by rewrite bool_decide_eq_true_2.
    + rewrite list_lookup_insert_ne by done. rewrite bool_decide_eq_false_2; [done|].
      intros [_ ?]. done.
  - rewrite list_lookup_insert_ne by done. rewrite bool_decide_eq_false_2; [done|].
    intros [? _]. done.
Qed.

Lemma fills_refl (m : matrix) : fills m m.
Proof. intros r c v Hv. destruct v; simpl; auto. Qed.

Lemma fills_insert (m0 m : matrix) (r c : nat) (row : list cell) (x : cell) :
  fills m0 m → m !! r = Some row → row !! c = Some CNone →
  x = CInt 0 ∨ x = CInt 1 →
  fills m0 (<[r := <[c := x]> row]> m).
Proof.
  intros Hf Hrow Hc Hx r' c' v Hv.
  specialize (Hf r' c' v Hv).
  rewrite (cell_at_insert m r c row x r' c' Hrow) by (by eapply lookup_lt_Some).
  destruct (bool_decide (r' = r ∧ c' = c)) eqn:E; [|done].
  apply bool_decide_eq_true in E as [-> ->].
  assert (cell_at m r c = Some CNone) as Hm by (unfold cell_at; rewrite Hrow; done).
  destruct (is_none v) eqn:Hn.
  - destruct Hx as [-> | ->]; auto.
  - rewrite Hm in Hf. injection Hf as <-. done.
Qed.

Lemma mset_insert (N : nat) (m : matrix) (r c : Z) (x : cell) :
  shape N N m → 0 ≤ r < Z.of_nat N → 0 ≤ c < Z.of_nat N →
  ∃ row, m !! Z.to_nat r = Some row ∧ length row = N ∧
         mset m r c x = Ok (<[Z.to_nat r := <[Z.to_nat c := x]> row]> m) ∧
         shape N N (<[Z.to_nat r := <[Z.to_nat c := x]> row]> m).
Proof.
  intros Hm Hr Hc.
  destruct (shape_lookup N N m (Z.to_nat r) Hm) as (row & Hrow & Hlen); [lia|].
  exists row. split; [done|]. split; [done|]. split.
  - rewrite <- (Z2Nat.id r), <- (Z2Nat.id c) at 1 by lia.
    apply mset_in_range; [done|lia].
  - destruct Hm as [Hrows Hall]. split; [by rewrite length_insert|].
    apply Forall_insert; [done|]. by rewrite length_insert.
Qed.

(** One candidate cell of the zig-zag. *)
Lemma place_cell_fills (N : nat) (bits : list bool) (m0 : matrix) (row c : Z)
    (m : matrix) (idx : Z) :
  shape N N m → fills m0 m → 0 ≤ row < Z.of_nat N → 0 ≤ idx ≤ len bits →
  ∃ m' idx',
    place_cell (Z.of_nat N) bits row c (m, idx) = Ok (m', idx') ∧
    shape N N m' ∧ fills m0 m' ∧ 0 ≤ idx' ≤ len bits.
Proof.
  intros Hm Hf Hrow Hidx. unfold place_cell.
  destruct ((0 <=? c) && (c <? Z.of_nat N)) eqn:Hc; [|by eauto 10].
  apply andb_true_iff in Hc as [Hc1%Z.leb_le Hc2%Z.ltb_lt].
  destruct (mget_in_shape N N m row c Hm) as (v & -> & Hv); [lia..|]. simpl.
  destruct v; simpl; [by eauto 10..|].
  destruct (mset_insert N m row c (CInt 0) Hm) as (rw & Hrw & Hlen & E0 & Hs0); [lia..|].
  assert (rw !! Z.to_nat c = Some CNone) as Hcell.
  { unfold cell_at in Hv. rewrite Hrw in Hv. done. }
  destruct (Z.ltb_spec idx (len bits)) as [Hlt|Hge].
  - destruct (lookup_lt_is_Some_2 bits (Z.to_nat idx)) as [b Hb]; [unfold len in Hlt; lia|].
    rewrite (getitem_lookup_Z bits idx b) by (done || lia). simpl.
    destruct (mset_insert N m row c (CInt (Z.b2z b)) Hm) as (rw' & Hrw' & _ & -> & Hs);
      [lia..|].
    rewrite Hrw in Hrw'. injection Hrw' as <-.
    simpl. eexists _, _. split; [done|]. split; [done|]. split; [|lia].
    apply fills_insert; [done..|]. destruct b; auto.
  - rewrite E0. simpl. eexists _, _. split; [done|]. split; [done|]. split; [|lia].
    apply fills_insert; auto.
Qed.

Lemma rows_loop_fills (N : nat) (bits : list bool) (m0 : matrix) (cpc : Z) (n : nat) :
  ∀ w, walk_ok N w → fills m0 (w_matrix w) → w_bit_idx w ≤ len bits →
       rows_ahead N w ≤ Z.of_nat n →
  ∃ w', rows_loop n (Z.of_nat N) bits cpc w = Ok w' ∧ walk_ok N w' ∧
        fills m0 (w_matrix w') ∧ w_bit_idx w' ≤ len bits ∧
        w_col w' = w_col w - 2.
Proof.
  induction n as [|n IH]; intros w (Hm & Hidx & Hrow & Hdir) Hf Hle Hahead.
  - unfold rows_ahead in Hahead. destruct (w_direction w =? -1); lia.
  - rewrite rows_loop_S.
    destruct (place_cell_fills N bits m0 (w_row w) (cpc - 0) (w_matrix w) (w_bit_idx w))
      as (m1 & i1 & -> & Hm1 & Hf1 & Hi1); [done || lia..|]. cbn [bind].
    destruct (place_cell_fills N bits m0 (w_row w) (cpc - 1) m1 i1)
      as (m2 & i2 & -> & Hm2 & Hf2 & Hi2); [done..|]. cbn [bind fst snd]. cbv zeta.
    destruct ((0 <=? w_row w + w_direction w) && (w_row w + w_direction w <? Z.of_nat N))
      eqn:Hin; cbn [negb].
    + apply andb_true_iff in Hin as [H1%Z.leb_le H2%Z.ltb_lt].
      destruct (IH (mk_walk m2 i2 (w_row w + w_direction w) (w_col w) (w_direction w)))
        as (w' & Hw' & Hok & Hf' & Hi' & Hcol).
      * split; [done|]. split; [simpl; lia|]. split; [simpl; lia|done].
      * done.
      * simpl. lia.
      * unfold rows_ahead in *. simpl. destruct (w_direction w =? -1) eqn:E; lia.
      * exists w'. split; [done|]. split; [done|]. split; [done|]. split; [done|].
        by rewrite Hcol.
    + eexists. split; [done|]. split; [|split; [done|split; [simpl; lia|done]]].
      apply andb_false_iff in Hin.
      split; [done|]. split; [simpl; lia|]. simpl.
      destruct Hdir as [Hd | Hd]; rewrite Hd in *;
        (split; [|by (left + right)]);
        destruct Hin as [Hin|Hin];
        try (apply Z.leb_gt in Hin); try (apply Z.ltb_ge in Hin); lia.
Qed.

Lemma columns_loop_fills (N : nat) (bits : list bool) (m0 : matrix) (fuel : nat) :
  ∀ w, walk_ok N w → fills m0 (w_matrix w) → w_bit_idx w ≤ len bits →
       w_col w < Z.of_nat fuel →
  ∃ w', columns_loop fuel (Z.of_nat N) bits w = Ok w' ∧ walk_ok N w' ∧
        fills m0 (w_matrix w') ∧ w_bit_idx w' ≤ len bits.
Proof.
  induction fuel as [|fuel IH]; intros w Hw Hf Hle Hcol.
  - simpl. destruct (Z.leb_spec 0 (w_col w)); [lia|]. simpl. eauto.
  - rewrite columns_loop_S.
    destruct (Z.leb_spec 0 (w_col w)) as [Hnn|]; cbn [negb]; [|eauto].
    destruct (Z.eqb_spec (w_col w) 6) as [H6|H6].
    + apply IH; [|done|done|simpl; lia]. destruct Hw as (? & ? & ? & ?).
      split; [done|]. split; [done|]. split; done.
    + destruct (rows_loop_fills N bits m0 (w_col w) (Z.to_nat (Z.of_nat N)) w Hw Hf Hle)
        as (w' & -> & Hw' & Hf' & Hle' & Hcol').
      { destruct Hw as (_ & _ & Hrow & Hdir). unfold rows_ahead.
        destruct (w_direction w =? -1); lia. }
      cbn [bind]. destruct (Z.ltb_spec (w_col w') 0); [eauto|].
      apply IH; [done..|lia].
Qed.

(** [if m[r][c] is None: m[r][c] = 0] *)
Lemma set_if_none_fills (N : nat) (m : matrix) (r c : nat) :
  shape N N m → (r < N)%nat → (c < N)%nat →
  ∃ m', set_if_none m (Z.of_nat r) (Z.of_nat c) (CInt 0) = Ok m' ∧ shape N N m' ∧
        fills m m' ∧ (∃ v, cell_at m' r c = Some v ∧ v ≠ CNone) ∧
        ∀ r' c' v, cell_at m r' c' = Some v → v ≠ CNone → cell_at m' r' c' = Some v.
Proof.
  intros Hm Hr Hc. unfold set_if_none.
  destruct (mget_in_shape N N m (Z.of_nat r) (Z.of_nat c) Hm) as (v & -> & Hv); [lia..|].
  rewrite !Nat2Z.id in Hv. simpl.
  destruct (is_none v) eqn:Hn.
  - destruct v; try discriminate.
    destruct (mset_insert N m (Z.of_nat r) (Z.of_nat c) (CInt 0) Hm)
      as (rw & Hrw & Hlen & -> & Hs); [lia..|].
    rewrite !Nat2Z.id in *.
    assert (rw !! c = Some CNone) as Hcell by (unfold cell_at in Hv; by rewrite Hrw in Hv).
    eexists. split; [done|]. split; [done|]. split; [|split].
    + apply fills_insert; auto using fills_refl.
    + exists (CInt 0). split; [|done].
      rewrite (cell_at_insert m r c rw) by (done || lia).
      by rewrite bool_decide_eq_true_2.
    + intros r' c' v Hv' Hne.
      rewrite (cell_at_insert m r c rw) by (done || lia).
      destruct (bool_decide (r' = r ∧ c' = c)) eqn:E; [|done].
      apply bool_decide_eq_true in E as [-> ->]. congruence.
  - exists m. split; [done|]. split; [done|]. split; [apply fills_refl|]. split; [|done].
    exists v. split; [done|]. intros ->. done.
Qed.

Lemma fills_trans (N : nat) (m0 m1 m2 : matrix) :
  shape N N m0 → shape N N m1 → fills m0 m1 → fills m1 m2 → fills m0 m2.
Proof.
  intros H0 H1 H01 H12 r c v Hv. specialize (H01 r c v Hv).
  destruct (is_none v) eqn:Hn.
  - destruct H01 as [H|[H|H]]; specialize (H12 r c _ H); simpl in H12; auto.
  - specialize (H12 r c v H01). by rewrite Hn in H12.
Qed.

(** The two closing loops of [place_data_bits]. *)
Lemma fill_loops (N : nat) (m : matrix) :
  shape N N m →
  ∃ m',
    for_each (range (Z.of_nat N))
      (λ r_idx m,
         for_each (range (Z.of_nat N)) (λ c_idx m, set_if_none m r_idx c_idx (CInt 0)) m)
      m = Ok m' ∧
    shape N N m' ∧ fills m m' ∧ no_empty_cell m'.
Proof.
  intros Hm. unfold range.
  set (done_upto (R C : Z) (t : matrix) :=
         shape N N t ∧ fills m t ∧
         ∀ r c v, cell_at t r c = Some v →
                  Z.of_nat r < R ∨ (Z.of_nat r = R ∧ Z.of_nat c < C) → v ≠ CNone).
  destruct (for_each_seqZ_inv (λ R t, done_upto R 0 t)
              (λ r_idx m0,
                 for_each (seqZ 0 (Z.of_nat N))
                   (λ c_idx m1, set_if_none m1 r_idx c_idx (CInt 0)) m0)
              0 (Z.of_nat N) m) as (m' & -> & Hm' & Hf' & Hdone).
  - lia.
  - split; [done|]. split; [apply fills_refl|]. intros r c v _ [?|[_ ?]]; lia.
  - intros R t HR (Ht & Hft & Hdt).
    destruct (for_each_seqZ_inv (λ C u, done_upto R C u)
                (λ c_idx m1, set_if_none m1 R c_idx (CInt 0))
                0 (Z.of_nat N) t) as (t' & Ht' & Hs' & Hf' & Hd').
    + lia.
    + split; [done|]. split; [done|]. intros r c v Hv Hlt. by apply (Hdt r c v).
    + intros C u HC (Hu & Hfu & Hdu).
      destruct (set_if_none_fills N u (Z.to_nat R) (Z.to_nat C) Hu)
        as (u' & Hset & Hu' & Hfu' & (x & Hx & Hxn) & Hkeep); [lia..|].
      rewrite !Z2Nat.id in Hset by lia. exists u'. split; [done|].
      split; [done|]. split; [by apply (fills_trans N m u u')|].
      intros r c v Hv Hlt.
      destruct (decide (r = Z.to_nat R ∧ c = Z.to_nat C)) as [[-> ->]|Hne].
      * congruence.
      * destruct (cell_at_Some_lt N N u' r c v Hu' Hv) as [Hr Hc].
        destruct (shape_cell_at N N u r c Hu Hr Hc) as [v0 Hv0].
        assert (v0 ≠ CNone) as Hv0n by (apply (Hdu r c v0 Hv0); lia).
        rewrite (Hkeep r c v0 Hv0 Hv0n) in Hv. congruence.
    + exists t'. split; [done|]. split; [done|]. split; [done|].
      intros r c v Hv Hlt. apply (Hd' r c v Hv).
      destruct (cell_at_Some_lt N N t' r c v Hs' Hv) as [Hr Hc]. lia.
  - exists m'. split; [done|]. split; [done|]. split; [done|].
    intros r c v Hv. apply (Hdone r c v Hv).
    destruct (cell_at_Some_lt N N m' r c v Hm' Hv) as [Hr Hc]. lia.
Qed.

(** [place_data_bits] returns on every square matrix and every string. *)
Lemma place_data_bits_filled (N : nat) (m : matrix) (bits : list bool) :
  (0 < N)%nat → shape N N m →
  ∃ m' used,
    place_data_bits m (Z.of_nat N) bits = Ok (m', used) ∧
    shape N N m' ∧ 0 ≤ used ≤ len bits ∧ fills m m' ∧ no_empty_cell m'.
Proof.
  intros HN Hm. unfold place_data_bits.
  destruct (columns_loop_fills N bits m (Z.to_nat (Z.of_nat N) + 1)
              (mk_walk m 0 (Z.of_nat N - 1) (Z.of_nat N - 1) (-1)))
    as (w & -> & Hw & Hf & Hle).
  { split; [done|]. split; [simpl; lia|]. split; [simpl; lia|by left]. }
  { apply fills_refl. }
  { simpl. unfold len. lia. }
  { simpl. lia. }
  cbn [bind].
  destruct (fill_loops N (w_matrix w)) as (m' & -> & Hm' & Hf' & Hfull);
    [by destruct Hw|].
  cbn [bind]. exists m', (w_bit_idx w). split; [done|]. split; [done|].
  split; [destruct Hw as (_ & ? & _); lia|]. split; [|done].
  exact (fills_trans N m (w_matrix w) m' Hm (proj1 Hw) Hf Hf').
Qed.

(** X8. On every square matrix and every bit string, of whatever length,
    [place_data_bits] returns: the matrix keeps its shape, every cell that
    was set is as it was, every cell that was empty now holds 0 or 1, and
    the number of bits taken from the string does not exceed its length. *)
Theorem place_data_bits_fills_empty_cells (N : nat) (m : matrix) (bits : list bool) :
  (0 < N)%nat → shape N N m →
  ∃ m' used,
    place_data_bits m (Z.of_nat N) bits = Ok (m', used) ∧
    shape N N m' ∧ 0 ≤ used ≤ len bits ∧
    ∀ r c v, cell_at m r c = Some v →
      if is_none v
      then cell_at m' r c = Some (CInt 0) ∨ cell_at m' r c = Some (CInt 1)
      else cell_at m' r c = Some v.
Proof.
  intros HN Hm.
  destruct (place_data_bits_filled N m bits HN Hm) as (m' & used & Hp & Hm' & Hu & Hf & Hfull).
  exists m', used. split; [done|]. split; [done|]. split; [done|].
  intros r c v Hv. specialize (Hf r c v Hv).
  destruct (is_none v); [|done].
  destruct Hf as [H|[H|H]]; auto. by apply Hfull in H.
Qed.

Lemma place_data_bits_fills_empty_cells_witness :
  ∃ m' used,
    place_data_bits [[CInt 1; CNone]; [CNone; CRes]] (Z.of_nat 2) [true] = Ok (m', used) ∧
    shape 2 2 m' ∧ 0 ≤ used ≤ len [true] ∧
    ∀ r c v, cell_at [[CInt 1; CNone]; [CNone; CRes]] r c = Some v →
      if is_none v
      then cell_at m' r c = Some (CInt 0) ∨ cell_at m' r c = Some (CInt 1)
      else cell_at m' r c = Some v.
Proof.
  apply (place_data_bits_fills_empty_cells 2).
  - lia.
  - split; [reflexivity|]. repeat constructor.
Defined.
(** ** The symbol returned by the pipeline *)

Lemma cell_at_int_or_zero (m : matrix) (r c : nat) :
  cell_at (int_or_zero m) r c = (λ val, if is_int val then val else CInt 0) <$> cell_at m r c.
Proof.
  unfold cell_at, int_or_zero. rewrite list_lookup_fmap.
  destruct (m !! r) as [row|]; simpl; [|done]. by rewrite list_lookup_fmap.
Qed.

(** The side, the function map and the layout of the two versions. *)
Lemma version_tables (version : Z) :
  version = 1 ∨ version = 2 →
  let N := Z.to_nat (17 + 4 * version) in
  (N = 21%nat ∨ N = 25%nat) ∧
  get_size_from_version version = Ok (Z.of_nat N) ∧
  create_function_pattern_matrix version = Ok (function_map_of version) ∧
  layout_function_patterns version = Ok (layout_of version) ∧
  shape N N (function_map_of version) ∧ shape N N (layout_of version).
Proof.
  intros [-> | ->]; simpl.
  - split; [by left|]. split; [reflexivity|].
    split; [vm_compute; reflexivity|]. split; [vm_compute; reflexivity|].
    split; [exact function_map_v1_shape|exact layout_v1_shape].
  - split; [by right|]. split; [reflexivity|].
    split; [vm_compute; reflexivity|]. split; [vm_compute; reflexivity|].
    split; [exact function_map_v2_shape|exact layout_v2_shape].
Qed.

(** The cells of the two layouts: what they hold, which of them the function
    map marks, and which of them the format information will overwrite. *)
Lemma layout_cells (version : Z) (r c : nat) (v : cell) :
  version = 1 ∨ version = 2 →
  cell_at (layout_of version) r c = Some v →
  (v = CInt 0 ∨ v = CInt 1 ∨ v = CRes ∨ v = CNone) ∧
  cell_at (function_map_of version) r c = Some (negb (is_none v)) ∧
  is_format_cell (Z.to_nat (17 + 4 * version)) r c = bool_decide (v = CRes).
Proof.
  intros Hv Hcell.
  destruct (version_tables version Hv) as (HN & _ & _ & _ & _ & Hl). simpl in Hl.
  pose proof (forall_cells (Z.to_nat (17 + 4 * version)) (layout_of version)
                (λ r c v,
                   bool_decide (v = CInt 0 ∨ v = CInt 1 ∨ v = CRes ∨ v = CNone)
                   && bool_decide (cell_at (function_map_of version) r c
                                   = Some (negb (is_none v)))
                   && bool_decide (is_format_cell (Z.to_nat (17 + 4 * version)) r c
                                   = bool_decide (v = CRes)))
                Hl) as H.
  specialize (H ltac:(destruct Hv as [-> | ->]; vm_compute; reflexivity) r c v Hcell).
  simpl in H. apply andb_true_iff in H as [H H3]. apply andb_true_iff in H as [H1 H2].
  apply bool_decide_eq_true in H1, H2, H3. done.
Qed.

(** The stages of [assemble_qr_matrix] on an input that the encoder accepts;
    the check bytes of the Reed-Solomon codec play no part in them. *)
Lemma assemble_qr_matrix_stages (rs_encode : Z → list Z → list Z) (text : list Z)
    (codewords : list (list bool)) (version : Z) :
  encode_byte_mode text = Ok (codewords, version) →
  let N := Z.to_nat (17 + 4 * version) in
  ∃ bits m used id fmt,
    (version = 1 ∨ version = 2) ∧
    final_bitstream rs_encode text = Ok (bits, version) ∧
    place_data_bits (layout_of version) (Z.of_nat N) bits = Ok (m, used) ∧
    shape N N m ∧ fills (layout_of version) m ∧ no_empty_cell m ∧
    0 ≤ id ≤ 7 ∧
    get_format_string [false; true] (format_b 3 id) = Ok fmt ∧ length fmt = 15%nat ∧
    assemble_qr_matrix rs_encode text
    = Ok (format_information_placed N fmt
            (int_or_zero (masked id (function_map_of version) m)), version, id).
Proof.
  intros Henc N.
  pose proof (encode_byte_mode_version text codewords version Henc) as Hv.
  destruct (version_tables version Hv) as (HN & Hsize & Hfm & Hlay & Hfms & Hls).
  fold N in HN, Hsize, Hfms, Hls.
  unfold assemble_qr_matrix, final_bitstream. rewrite Henc. cbn [bind fst snd].
  assert (∃ ecc, generate_error_correction rs_encode (bits_to_Z <$> codewords) version = Ok ecc)
    as [ecc ->].
  { unfold generate_error_correction. destruct Hv as [-> | ->]; simpl; eauto. }
  cbn [bind fst snd].
  match goal with
  | |- context [generate_qr_module ?b version] => set (bits := b)
  end.
  destruct (place_data_bits_filled N (layout_of version) bits)
    as (m & used & Hp & Hm & _ & Hf & Hfull); [destruct HN; lia|done|].
  unfold generate_qr_module. rewrite Hsize, Hlay. cbn [bind]. rewrite Hp. cbn [bind fst].
  rewrite Hfm. cbn [bind].
  destruct (find_best_pattern_returns N m (function_map_of version)) as (id & -> & Hid);
    [destruct HN; lia|done|done|].
  cbn [bind fst snd].
  destruct (get_format_string_level_L id Hid) as (fmt & Hfs & Hfmt). rewrite Hfs. cbn [bind].
  rewrite place_format_information_placed
    by (done || by apply int_or_zero_shape, masked_shape).
  cbn [bind]. exists bits, m, used, id, fmt.
  split; [done|]. split; [done|]. split; [done|]. split; [done|]. split; [done|].
  split; [done|]. split; [done|]. split; [done|]. split; done.
Qed.


Lemma masked_cell_bit (p : Z) (fmap : function_map) (r c : nat) (v : cell) :
  v = CInt 0 ∨ v = CInt 1 →
  masked_cell p fmap r c v = CInt 0 ∨ masked_cell p fmap r c v = CInt 1.
Proof.
  unfold masked_cell. intros [-> | ->];
    destruct (cell_at fmap r c) as [[|]|]; auto;
    destruct (MASK_CONDITION_FUNCTIONS p (Z.of_nat r) (Z.of_nat c)); auto.
Qed.

Lemma format_cell_of_bit (N : nat) (fmt : list bool) (r c : nat) (v : cell) :
  v = CInt 0 ∨ v = CInt 1 →
  format_cell N fmt r c v = CInt 0 ∨ format_cell N fmt r c v = CInt 1.
Proof.
  intros Hv. unfold format_cell.
  destruct (bool_decide _); [by right|].
  destruct (written_format_bit N r c) as [i|]; [|done].
  unfold format_bit. destruct (default false (fmt !! i)); auto.
Qed.

(** A cell of the matrix with the data bits placed: a set cell of the
    layout, or a bit. *)
Lemma filled_cell (version : Z) (m : matrix) (r c : nat) (v : cell) :
  version = 1 ∨ version = 2 →
  fills (layout_of version) m → no_empty_cell m →
  shape (Z.to_nat (17 + 4 * version)) (Z.to_nat (17 + 4 * version)) m →
  cell_at m r c = Some v →
  ∃ v0, cell_at (layout_of version) r c = Some v0 ∧
        (if is_none v0 then v = CInt 0 ∨ v = CInt 1 else v = v0).
Proof.
  intros Hv Hf Hfull Hm Hcell.
  destruct (version_tables version Hv) as (_ & _ & _ & _ & _ & Hl). simpl in Hl.
  destruct (cell_at_Some_lt _ _ m r c v Hm Hcell) as [Hr Hc].
  destruct (shape_cell_at _ _ (layout_of version) r c Hl Hr Hc) as [v0 Hv0].
  exists v0. split; [done|]. specialize (Hf r c v0 Hv0).
  destruct (is_none v0).
  - destruct Hf as [H|[H|H]]; rewrite Hcell in H; injection H as ->; auto.
    by apply Hfull in Hcell.
  - congruence.
Qed.

(** X9. For every input that the encoder accepts, whatever check bytes
    the Reed-Solomon codec returns, every module of the symbol returned by
    [assemble_qr_matrix] is the int 0 or the int 1: no reserved or empty
    cell is left. *)
Theorem assemble_qr_matrix_modules_are_bits
    (rs_encode : Z → list Z → list Z) (text : list Z)
    (codewords : list (list bool)) (version : Z) :
  (∀ data, Forall is_byte data →
           Forall is_byte (rs_encode 7 data) ∧ Forall is_byte (rs_encode 10 data)) →
  encode_byte_mode text = Ok (codewords, version) →
  ∃ final mask,
    assemble_qr_matrix rs_encode text = Ok (final, version, mask) ∧
    ∀ r c, (r < Z.to_nat (17 + 4 * version))%nat → (c < Z.to_nat (17 + 4 * version))%nat →
      cell_at final r c = Some (CInt 0) ∨ cell_at final r c = Some (CInt 1).
Proof.
  intros _ Henc.
  destruct (assemble_qr_matrix_stages rs_encode text codewords version Henc)
    as (bits & m & used & id & fmt & Hv & _ & _ & Hm & Hf & Hfull & _ & _ & _ & ->).
  eexists _, _. split; [reflexivity|]. intros r c Hr Hc.
  rewrite cell_at_format_information_placed, cell_at_int_or_zero, cell_at_masked.
  destruct (shape_cell_at _ _ m r c Hm Hr Hc) as [v Hcell]. rewrite Hcell. simpl.
  destruct (filled_cell version m r c v Hv Hf Hfull Hm Hcell) as (v0 & Hv0 & Hcase).
  destruct (layout_cells version r c v0 Hv Hv0) as (Hkind & _ & _).
  assert (v = CInt 0 ∨ v = CInt 1 ∨ v = CRes) as Hvk.
  { destruct Hkind as [->|[->|[->| ->]]]; simpl in Hcase; subst; tauto. }
  match goal with
  | |- Some ?x = _ ∨ _ =>
      assert (x = CInt 0 ∨ x = CInt 1) as [-> | ->]; [|by left|by right]
  end.
  apply format_cell_of_bit.
  destruct Hvk as [->|[->| ->]].
  - destruct (masked_cell_bit id (function_map_of version) r c (CInt 0)) as [-> | ->]; auto.
  - destruct (masked_cell_bit id (function_map_of version) r c (CInt 1)) as [-> | ->]; auto.
  - unfold masked_cell. destruct (cell_at (function_map_of version) r c) as [[|]|]; auto.
Qed.

Lemma assemble_qr_matrix_modules_are_bits_witness :
  ∃ final mask,
    assemble_qr_matrix RS.rs_encode hello_world = Ok (final, 1, mask) ∧
    ∀ r c, (r < Z.to_nat (17 + 4 * 1))%nat → (c < Z.to_nat (17 + 4 * 1))%nat →
      cell_at final r c = Some (CInt 0) ∨ cell_at final r c = Some (CInt 1).
Proof.
  apply (assemble_qr_matrix_modules_are_bits RS.rs_encode hello_world
           (match encode_byte_mode hello_world with Ok r => r.1 | Raise _ => [] end) 1).
  - exact rs_encode_bytes.
  - vm_compute. reflexivity.
Defined.

(** X10. The function patterns of the returned symbol depend on the
    version only: wherever the layout of the version holds a module (a cell
    of a finder pattern, a separator, a timing pattern or the alignment
    pattern), the symbol returned by [assemble_qr_matrix] holds the same
    module, whatever the text and the mask. *)
Theorem assemble_qr_matrix_function_patterns
    (rs_encode : Z → list Z → list Z) (text : list Z)
    (codewords : list (list bool)) (version : Z) :
  (∀ data, Forall is_byte data →
           Forall is_byte (rs_encode 7 data) ∧ Forall is_byte (rs_encode 10 data)) →
  encode_byte_mode text = Ok (codewords, version) →
  ∃ final mask layout,
    assemble_qr_matrix rs_encode text = Ok (final, version, mask) ∧
    layout_function_patterns version = Ok layout ∧
    ∀ r c z, cell_at layout r c = Some (CInt z) → cell_at final r c = Some (CInt z).
Proof.
  intros _ Henc.
  destruct (assemble_qr_matrix_stages rs_encode text codewords version Henc)
    as (bits & m & used & id & fmt & Hv & _ & _ & Hm & Hf & Hfull & _ & _ & _ & ->).
  destruct (version_tables version Hv) as (HN & _ & _ & Hlay & _ & Hl). simpl in HN, Hl.
  eexists _, _, _. split; [reflexivity|]. split; [exact Hlay|].
  intros r c z Hz.
  destruct (cell_at_Some_lt _ _ _ r c _ Hl Hz) as [Hr Hc].
  destruct (layout_cells version r c (CInt z) Hv Hz) as (_ & Hfm & Hfc).
  rewrite bool_decide_eq_false_2 in Hfc by done.
  rewrite cell_at_format_information_placed, cell_at_int_or_zero, cell_at_masked.
  rewrite (Hf r c (CInt z) Hz). simpl.
  unfold masked_cell. rewrite Hfm. simpl.
  by rewrite format_cell_elsewhere.
Qed.

Lemma assemble_qr_matrix_function_patterns_witness :
  ∃ final mask layout,
    assemble_qr_matrix RS.rs_encode hello_world = Ok (final, 1, mask) ∧
    layout_function_patterns 1 = Ok layout ∧
    ∀ r c z, cell_at layout r c = Some (CInt z) → cell_at final r c = Some (CInt z).
Proof.
  apply (assemble_qr_matrix_function_patterns RS.rs_encode hello_world
           (match encode_byte_mode hello_world with Ok r => r.1 | Raise _ => [] end) 1).
  - exact rs_encode_bytes.
  - vm_compute. reflexivity.
Defined.

(** X11. The format information of the returned symbol is that of level L
    and of the mask that was chosen: the cells written by
    [place_format_information] hold the bits of
    [get_format_string('01', format(best_mask, '03b'))] as listed in
    [format_cells_as_written], and the mask id can be read back from three
    modules at the right end of row 8. *)
Theorem assemble_qr_matrix_format_information
    (rs_encode : Z → list Z → list Z) (text : list Z)
    (codewords : list (list bool)) (version : Z) :
  (∀ data, Forall is_byte data →
           Forall is_byte (rs_encode 7 data) ∧ Forall is_byte (rs_encode 10 data)) →
  encode_byte_mode text = Ok (codewords, version) →
  let N := Z.to_nat (17 + 4 * version) in
  ∃ final mask fmt,
    assemble_qr_matrix rs_encode text = Ok (final, version, mask) ∧
    0 ≤ mask ≤ 7 ∧
    get_format_string [false; true] (format_b 3 mask) = Ok fmt ∧
    Forall (λ rci, cell_at final rci.1.1 rci.1.2 = Some (format_bit fmt rci.2))
      (format_cells_as_written N) ∧
    ∃ a b c : bool,
      cell_at final 8 (N - 3) = Some (CInt (Z.b2z a)) ∧
      cell_at final 8 (N - 4) = Some (CInt (Z.b2z b)) ∧
      cell_at final 8 (N - 5) = Some (CInt (Z.b2z c)) ∧
      mask = bits_to_Z [negb a; b; negb c].
Proof.
  intros _ Henc N.
  destruct (assemble_qr_matrix_stages rs_encode text codewords version Henc)
    as (bits & m & used & id & fmt & Hv & _ & _ & Hm & _ & _ & Hid & Hfs & Hfmt & ->).
  destruct (version_tables version Hv) as (HN & _). simpl in HN. fold N in Hm, HN |- *.
  set (im := int_or_zero (masked id (function_map_of version) m)).
  assert (shape N N im) as Him by (by apply int_or_zero_shape, masked_shape).
  destruct (place_format_information_cells N im fmt HN Him Hfmt)
    as (out & Hout & _ & _ & Hall).
  rewrite (place_format_information_placed N im fmt HN Him Hfmt) in Hout.
  injection Hout as <-.
  eexists _, id, fmt. split; [reflexivity|]. split; [done|]. split; [done|].
  split; [done|].
  assert (format_cells_as_written N !! 17%nat = Some (8, N - 3, 2)%nat ∧
          format_cells_as_written N !! 18%nat = Some (8, N - 4, 3)%nat ∧
          format_cells_as_written N !! 19%nat = Some (8, N - 5, 4)%nat) as (H2 & H3 & H4)
    by (destruct HN as [-> | ->]; done).
  pose proof (Forall_lookup_1 _ _ _ _ Hall H2) as Ha.
  pose proof (Forall_lookup_1 _ _ _ _ Hall H3) as Hb.
  pose proof (Forall_lookup_1 _ _ _ _ Hall H4) as Hc.
  simpl in Ha, Hb, Hc. unfold format_bit in Ha, Hb, Hc.
  eexists _, _, _. split; [exact Ha|]. split; [exact Hb|]. split; [exact Hc|].
  assert (id = 0 ∨ id = 1 ∨ id = 2 ∨ id = 3 ∨ id = 4 ∨ id = 5 ∨ id = 6 ∨ id = 7) as H by lia.
  clear -H Hfs.
  destruct H as [->|[->|[->|[->|[->|[->|[->| ->]]]]]]];
    vm_compute in Hfs; injection Hfs as <-; reflexivity.
Qed.

Lemma assemble_qr_matrix_format_information_witness :
  let N := Z.to_nat (17 + 4 * 1) in
  ∃ final mask fmt,
    assemble_qr_matrix RS.rs_encode hello_world = Ok (final, 1, mask) ∧
    0 ≤ mask ≤ 7 ∧
    get_format_string [false; true] (format_b 3 mask) = Ok fmt ∧
    Forall (λ rci, cell_at final rci.1.1 rci.1.2 = Some (format_bit fmt rci.2))
      (format_cells_as_written N) ∧
    ∃ a b c : bool,
      cell_at final 8 (N - 3) = Some (CInt (Z.b2z a)) ∧
      cell_at final 8 (N - 4) = Some (CInt (Z.b2z b)) ∧
      cell_at final 8 (N - 5) = Some (CInt (Z.b2z c)) ∧
      mask = bits_to_Z [negb a; b; negb c].
Proof.
  apply (assemble_qr_matrix_format_information RS.rs_encode hello_world
           (match encode_byte_mode hello_world with Ok r => r.1 | Raise _ => [] end) 1).
  - exact rs_encode_bytes.
  - vm_compute. reflexivity.
Defined.

(** The data cells of the two versions and what the zig-zag puts in them
    when the stream has the length of the version. *)
Lemma data_placement (version : Z) (bits : list bool) :
  version = 1 ∨ version = 2 →
  len bits = (if version =? 1 then 208 else 359) →
  let N := Z.to_nat (17 + 4 * version) in
  ∃ m,
    place_data_bits (layout_of version) (Z.of_nat N) bits = Ok (m, len bits) ∧
    ∀ i r c, data_cells N (function_map_of version) !! i = Some (r, c) →
      cell_at (function_map_of version) r c = Some false ∧
      ∃ b, bits !! i = Some b ∧ cell_at m r c = Some (CInt (Z.b2z b)).
Proof.
  intros [-> | ->] Hlen; simpl in Hlen |- *.
  - assert (length bits = 208%nat) as Hl by (unfold len in Hlen; lia).
    assert (layout_of 1 = layout_v1) as -> by (vm_compute; reflexivity).
    assert (function_map_of 1 = function_map_v1) as -> by (vm_compute; reflexivity).
    destruct data_cells_v1_spec as (Hcells & _ & _ & _ & Hiff).
    destruct (place_data_bits_v1 (λ i, default false (bits !! i))) as (m & Hp & _ & Hread & _).
    rewrite <- (list_tabulate false 208 bits Hl) in Hp.
    exists m. rewrite Hlen. split; [exact Hp|]. intros i r c Hi.
    change (data_cells 21 function_map_v1 !! i = Some (r, c)) in Hi. split.
    + apply Hiff. by eapply list_elem_of_lookup_2.
    + rewrite Hcells in Hi. by apply (placed_bits_lookup bits 208 data_cells_v1 m Hl Hread i).
  - assert (length bits = 359%nat) as Hl by (unfold len in Hlen; lia).
    assert (layout_of 2 = layout_v2) as -> by (vm_compute; reflexivity).
    assert (function_map_of 2 = function_map_v2) as -> by (vm_compute; reflexivity).
    destruct data_cells_v2_spec as (Hcells & _ & _ & _ & Hiff).
    destruct (place_data_bits_v2 (λ i, default false (bits !! i))) as (m & Hp & _ & Hread & _).
    rewrite <- (list_tabulate false 359 bits Hl) in Hp.
    exists m. rewrite Hlen. split; [exact Hp|]. intros i r c Hi.
    change (data_cells 25 function_map_v2 !! i = Some (r, c)) in Hi. split.
    + apply Hiff. by eapply list_elem_of_lookup_2.
    + rewrite Hcells in Hi. by apply (placed_bits_lookup bits 359 data_cells_v2 m Hl Hread i).
Qed.

Lemma final_bitstream_Ok (rs_encode : Z → list Z → list Z) (text : list Z)
    (bits : list bool) (version : Z) :
  final_bitstream rs_encode text = Ok (bits, version) →
  ∃ codewords, encode_byte_mode text = Ok (codewords, version).
Proof.
  unfold final_bitstream. intros H.
  destruct (encode_byte_mode text) as [[cw v]|]; [|done]. cbn [bind fst snd] in H.
  destruct (generate_error_correction rs_encode (bits_to_Z <$> cw) v); [|done].
  cbn [bind] in H. injection H as _ <-. eauto.
Qed.

(** The data cells of the returned symbol. *)
Lemma assemble_qr_matrix_data_cells
    (rs_encode : Z → list Z → list Z) (text : list Z) (bits : list bool) (version : Z) :
  final_bitstream rs_encode text = Ok (bits, version) →
  len bits = (if version =? 1 then 208 else 359) →
  ∃ final mask,
    assemble_qr_matrix rs_encode text = Ok (final, version, mask) ∧
    0 ≤ mask ≤ 7 ∧
    ∀ i r c,
      data_cells (Z.to_nat (17 + 4 * version)) (function_map_of version) !! i = Some (r, c) →
      ∃ b, bits !! i = Some b ∧
           cell_at final r c
           = Some (CInt (Z.b2z (xorb b (MASK_CONDITION_FUNCTIONS mask (Z.of_nat r)
                                           (Z.of_nat c))))).
Proof.
  intros Hbits Hlen.
  destruct (final_bitstream_Ok rs_encode text bits version Hbits) as [codewords Henc].
  destruct (assemble_qr_matrix_stages rs_encode text codewords version Henc)
    as (bits' & m & used & id & fmt & Hv & Hbits' & Hp & Hm & _ & _ & Hid & _ & _ & ->).
  rewrite Hbits in Hbits'. injection Hbits' as <-.
  destruct (version_tables version Hv) as (HN & _ & _ & _ & Hfms & Hl). simpl in HN, Hfms, Hl.
  destruct (data_placement version bits Hv Hlen) as (m' & Hp' & Hcells). simpl in Hp', Hcells.
  rewrite Hp in Hp'. injection Hp' as <- _.
  eexists _, id. split; [reflexivity|]. split; [done|].
  intros i r c Hi. destruct (Hcells i r c Hi) as (Hfm & b & Hb & Hcell).
  exists b. split; [done|].
  destruct (cell_at_Some_lt _ _ _ r c _ Hfms Hfm) as [Hr Hc].
  destruct (shape_cell_at _ _ (layout_of version) r c Hl Hr Hc) as [v0 Hv0].
  destruct (layout_cells version r c v0 Hv Hv0) as (_ & Hfm' & Hfc).
  rewrite Hfm in Hfm'. injection Hfm' as Hnone.
  destruct v0; try discriminate. rewrite bool_decide_eq_false_2 in Hfc by done.
  rewrite cell_at_format_information_placed, cell_at_int_or_zero, cell_at_masked, Hcell.
  simpl. unfold masked_cell. rewrite Hfm.
  destruct (MASK_CONDITION_FUNCTIONS id (Z.of_nat r) (Z.of_nat c)), b; simpl;
    by rewrite format_cell_elsewhere.
Qed.

(** X12. When the stream handed to [generate_qr_module] has the length
    of the version (208 or 359 bits), the [i]-th data cell of the zig-zag
    holds, in the symbol returned by [assemble_qr_matrix], bit [i] of the
    stream XOR the condition of the chosen mask at that cell: the stream can
    be read back from the symbol. *)
Theorem assemble_qr_matrix_data_modules
    (rs_encode : Z → list Z → list Z) (text : list Z) (bits : list bool) (version : Z) :
  (∀ data, Forall is_byte data →
           Forall is_byte (rs_encode 7 data) ∧ Forall is_byte (rs_encode 10 data)) →
  final_bitstream rs_encode text = Ok (bits, version) →
  len bits = (if version =? 1 then 208 else 359) →
  ∃ final mask,
    assemble_qr_matrix rs_encode text = Ok (final, version, mask) ∧
    0 ≤ mask ≤ 7 ∧
    ∀ i r c,
      data_cells (Z.to_nat (17 + 4 * version)) (function_map_of version) !! i = Some (r, c) →
      ∃ b, bits !! i = Some b ∧
           cell_at final r c
           = Some (CInt (Z.b2z (xorb b (MASK_CONDITION_FUNCTIONS mask (Z.of_nat r)
                                           (Z.of_nat c))))).
Proof. intros _. apply assemble_qr_matrix_data_cells. Qed.

Lemma assemble_qr_matrix_data_modules_witness :
  ∃ final mask,
    assemble_qr_matrix RS.rs_encode hello_world = Ok (final, 1, mask) ∧
    0 ≤ mask ≤ 7 ∧
    ∀ i r c,
      data_cells (Z.to_nat (17 + 4 * 1)) (function_map_of 1) !! i = Some (r, c) →
      ∃ b, (match final_bitstream RS.rs_encode hello_world with
            | Ok r => r.1
            | Raise _ => []
            end) !! i = Some b ∧
           cell_at final r c
           = Some (CInt (Z.b2z (xorb b (MASK_CONDITION_FUNCTIONS mask (Z.of_nat r)
                                           (Z.of_nat c))))).
Proof.
  apply (assemble_qr_matrix_data_modules RS.rs_encode hello_world
           (match final_bitstream RS.rs_encode hello_world with
            | Ok r => r.1
            | Raise _ => []
            end) 1).
  - exact rs_encode_bytes.
  - vm_compute. reflexivity.
  - vm_compute. reflexivity.
Defined.

(** X13. [assemble_qr_matrix] raises exactly the two [ValueError]s of
    the encoder and nothing else: the first when the text has a character
    outside ISO-8859-1, the second when it has more than 32 characters, all
    of them in ISO-8859-1; on every other text it returns a symbol. *)
Theorem assemble_qr_matrix_raises (rs_encode : Z → list Z → list Z) (text : list Z) :
  (∀ data, Forall is_byte data →
           Forall is_byte (rs_encode 7 data) ∧ Forall is_byte (rs_encode 10 data)) →
  (assemble_qr_matrix rs_encode text = Raise InvalidCharacter
   ↔ ∃ c, c ∈ text ∧ ¬ (0 ≤ c < 256)) ∧
  (assemble_qr_matrix rs_encode text = Raise PayloadTooLong
   ↔ (∀ c, c ∈ text → 0 ≤ c < 256) ∧ 32 < len text) ∧
  ((∃ r, assemble_qr_matrix rs_encode text = Ok r)
   ↔ (∀ c, c ∈ text → 0 ≤ c < 256) ∧ len text ≤ 32) ∧
  (∀ e, assemble_qr_matrix rs_encode text = Raise e →
        e = InvalidCharacter ∨ e = PayloadTooLong).
Proof.
  intros _.
  assert (∀ e, encode_byte_mode text = Raise e → assemble_qr_matrix rs_encode text = Raise e)
    as Hraise.
  { intros e He. unfold assemble_qr_matrix, final_bitstream. by rewrite He. }
  destruct (decide (Forall (λ c, 0 ≤ c < 256) text)) as [Hall|Hnot].
  - rewrite Forall_forall in Hall.
    destruct (Z.le_gt_cases (len text) 32) as [Hle|Hgt].
    + destruct (encode_byte_mode_stream text Hall Hle) as (cw & Henc & _).
      destruct (assemble_qr_matrix_stages rs_encode text cw _ Henc)
        as (? & ? & ? & ? & ? & _ & _ & _ & _ & _ & _ & _ & _ & _ & Hok).
      rewrite Hok. split; [|split; [|split]].
      * split; [done|]. intros (c & Hc & Hn). destruct (Hn (Hall c Hc)).
      * split; [done|]. intros [_ ?]. lia.
      * split; [done|]. eauto.
      * done.
    + rewrite (Hraise _ (encode_byte_mode_too_long text Hall ltac:(lia))).
      split; [|split; [|split]].
      * split; [done|]. intros (c & Hc & Hn). destruct (Hn (Hall c Hc)).
      * split; [done|]. done.
      * split; [by intros [? ?]|]. intros [_ ?]. lia.
      * intros e [= <-]. by right.
  - assert (∃ c, c ∈ text ∧ ¬ (0 ≤ c < 256)) as Hex.
    { apply not_Forall_Exists in Hnot; [|apply _]. by apply Exists_exists in Hnot. }
    rewrite (Hraise _ (encode_byte_mode_invalid text Hex)).
    split; [|split; [|split]].
    * done.
    * split; [done|]. intros [Hall _]. destruct Hex as (c & Hc & Hn). destruct (Hn (Hall c Hc)).
    * split; [by intros [? ?]|]. intros [Hall _].
      destruct Hex as (c & Hc & Hn). destruct (Hn (Hall c Hc)).
    * intros e [= <-]. by left.
Qed.

Lemma assemble_qr_matrix_raises_witness :
  (assemble_qr_matrix RS.rs_encode [72; 8364] = Raise InvalidCharacter
   ↔ ∃ c, c ∈ [72; 8364] ∧ ¬ (0 ≤ c < 256)) ∧
  (assemble_qr_matrix RS.rs_encode [72; 8364] = Raise PayloadTooLong
   ↔ (∀ c, c ∈ [72; 8364] → 0 ≤ c < 256) ∧ 32 < len [72; 8364]) ∧
  ((∃ r, assemble_qr_matrix RS.rs_encode [72; 8364] = Ok r)
   ↔ (∀ c, c ∈ [72; 8364] → 0 ≤ c < 256) ∧ len [72; 8364] ≤ 32) ∧
  (∀ e, assemble_qr_matrix RS.rs_encode [72; 8364] = Raise e →
        e = InvalidCharacter ∨ e = PayloadTooLong).
Proof. apply (assemble_qr_matrix_raises RS.rs_encode [72; 8364]). exact rs_encode_bytes. Defined.

(** ** Zeros appended to the stream *)

Lemma getitem_padded (bits : list bool) (k : nat) (i : Z) :
  len bits ≤ i < len bits + Z.of_nat k →
  getitem (bits ++ replicate k false) i = Ok false.
Proof.
  intros Hi. unfold len in Hi. apply getitem_lookup_Z; [lia|].
  rewrite lookup_app_r by lia. apply lookup_replicate_2. lia.
Qed.

Lemma getitem_prefix (bits rest : list bool) (i : Z) (b : bool) :
  0 ≤ i → bits !! Z.to_nat i = Some b → getitem (bits ++ rest) i = Ok b.
Proof.
  intros Hi Hb. apply getitem_lookup_Z; [done|]. by apply lookup_app_l_Some.
Qed.

(** One candidate cell, on the stream and on the stream with [k] zeros
    appended: the same matrix, and the bit index of the first run is that of
    the second, capped at the length of the stream. *)
Lemma place_cell_padded (N : nat) (bits : list bool) (k : nat) (row c : Z)
    (m : matrix) (idx idx' : Z) :
  shape N N m → 0 ≤ row < Z.of_nat N → 0 ≤ idx' → idx = Z.min idx' (len bits) →
  ∃ m1 i1 i1',
    place_cell (Z.of_nat N) bits row c (m, idx) = Ok (m1, i1) ∧
    place_cell (Z.of_nat N) (bits ++ replicate k false) row c (m, idx') = Ok (m1, i1') ∧
    shape N N m1 ∧ 0 ≤ i1' ∧ i1 = Z.min i1' (len bits).
Proof.
  intros Hm Hrow Hidx' Hidx. unfold place_cell.
  destruct ((0 <=? c) && (c <? Z.of_nat N)) eqn:Hc; [|by eauto 10].
  apply andb_true_iff in Hc as [Hc1%Z.leb_le Hc2%Z.ltb_lt].
  destruct (mget_in_shape N N m row c Hm) as (v & -> & Hv); [lia..|]. cbn [bind].
  destruct (is_none v); [|by eauto 10].
  assert (len (bits ++ replicate k false) = len bits + Z.of_nat k) as Hlen.
  { unfold len. rewrite length_app, length_replicate. lia. }
  rewrite Hlen.
  destruct (mset_insert N m row c (CInt 0) Hm) as (rw & _ & _ & E0 & Hs0); [lia..|].
  destruct (Z.ltb_spec idx' (len bits)) as [Hlt|Hge].
  - assert (idx = idx') as -> by lia.
    destruct (Z.ltb_spec idx' (len bits)) as [_|?]; [|lia].
    destruct (Z.ltb_spec idx' (len bits + Z.of_nat k)) as [_|?]; [|lia].
    destruct (lookup_lt_is_Some_2 bits (Z.to_nat idx')) as [b Hb]; [unfold len in Hlt; lia|].
    rewrite (getitem_lookup_Z bits idx' b) by done.
    rewrite (getitem_prefix bits _ idx' b) by done. cbn [bind].
    destruct (mset_insert N m row c (CInt (Z.b2z b)) Hm) as (rw' & _ & _ & -> & Hs); [lia..|].
    cbn [bind]. eexists _, _, _. split; [done|]. split; [done|]. split; [done|]. lia.
  - assert (idx = len bits) as -> by lia.
    destruct (Z.ltb_spec (len bits) (len bits)) as [?|_]; [lia|].
    rewrite E0. cbn [bind].
    destruct (Z.ltb_spec idx' (len bits + Z.of_nat k)) as [Hin|Hout].
    + rewrite getitem_padded by lia. cbn [bind]. change (Z.b2z false) with 0.
      rewrite E0. cbn [bind].
      eexists _, _, _. split; [done|]. split; [done|]. split; [done|]. lia.
    + rewrite ?E0. cbn [bind].
      eexists _, _, _. split; [done|]. split; [done|]. split; [done|]. lia.
Qed.

Lemma rows_loop_padded (N : nat) (bits : list bool) (k : nat) (cpc : Z) (n : nat) :
  ∀ w idx',
    walk_ok N w → 0 ≤ idx' → w_bit_idx w = Z.min idx' (len bits) →
    rows_ahead N w ≤ Z.of_nat n →
    ∃ w1 i1',
      rows_loop n (Z.of_nat N) bits cpc w = Ok w1 ∧
      rows_loop n (Z.of_nat N) (bits ++ replicate k false) cpc (with_bit_idx w idx')
      = Ok (with_bit_idx w1 i1') ∧
      walk_ok N w1 ∧ 0 ≤ i1' ∧ w_bit_idx w1 = Z.min i1' (len bits) ∧
      w_col w1 = w_col w - 2.
Proof.
  induction n as [|n IH]; intros w idx' (Hm & Hidx & Hrow & Hdir) Hidx' Hmin Hahead.
  - unfold rows_ahead in Hahead. destruct (w_direction w =? -1); lia.
  - rewrite !rows_loop_S. cbn [with_bit_idx w_matrix w_bit_idx w_row w_col w_direction].
    destruct (place_cell_padded N bits k (w_row w) (cpc - 0) (w_matrix w) (w_bit_idx w) idx')
      as (m1 & i1 & i1' & -> & -> & Hm1 & Hi1' & Hi1); [done..|]. cbn [bind].
    destruct (place_cell_padded N bits k (w_row w) (cpc - 1) m1 i1 i1')
      as (m2 & i2 & i2' & -> & -> & Hm2 & Hi2' & Hi2); [done..|].
    cbn [bind fst snd]. cbv zeta.
    destruct ((0 <=? w_row w + w_direction w) && (w_row w + w_direction w <? Z.of_nat N))
      eqn:Hin; cbn [negb].
    + apply andb_true_iff in Hin as [H1%Z.leb_le H2%Z.ltb_lt].
      destruct (IH (mk_walk m2 i2 (w_row w + w_direction w) (w_col w) (w_direction w)) i2')
        as (w1 & j' & Hw1 & Hw1' & Hok & Hj' & Hj & Hcol).
      * split; [done|]. split; [simpl; lia|]. split; [simpl; lia|done].
      * done.
      * done.
      * unfold rows_ahead in *. simpl. destruct (w_direction w =? -1) eqn:E; lia.
      * exists w1, j'. split; [done|]. split; [exact Hw1'|]. split; [done|].
        split; [done|]. split; [done|]. by rewrite Hcol.
    + eexists (mk_walk _ _ _ _ _), i2'. split; [done|]. split; [done|].
      apply andb_false_iff in Hin.
      split; [|split; [done|split; [done|done]]].
      split; [done|]. split; [simpl; lia|]. simpl.
      destruct Hdir as [Hd | Hd]; rewrite Hd in *;
        (split; [|by (left + right)]);
        destruct Hin as [Hin|Hin];
        try (apply Z.leb_gt in Hin); try (apply Z.ltb_ge in Hin); lia.
Qed.

Lemma columns_loop_padded (N : nat) (bits : list bool) (k : nat) (fuel : nat) :
  ∀ w idx',
    walk_ok N w → 0 ≤ idx' → w_bit_idx w = Z.min idx' (len bits) →
    w_col w < Z.of_nat fuel →
    ∃ w1 i1',
      columns_loop fuel (Z.of_nat N) bits w = Ok w1 ∧
      columns_loop fuel (Z.of_nat N) (bits ++ replicate k false) (with_bit_idx w idx')
      = Ok (with_bit_idx w1 i1') ∧
      walk_ok N w1 ∧ 0 ≤ i1' ∧ w_bit_idx w1 = Z.min i1' (len bits).
Proof.
  induction fuel as [|fuel IH]; intros w idx' Hw Hidx' Hmin Hcol.
  - simpl. destruct (Z.leb_spec 0 (w_col w)); [lia|]. simpl. eauto 10.
  - rewrite !columns_loop_S. cbn [with_bit_idx w_matrix w_bit_idx w_row w_col w_direction].
    destruct (Z.leb_spec 0 (w_col w)) as [Hnn|]; cbn [negb]; [|by eauto 10].
    destruct (Z.eqb_spec (w_col w) 6) as [H6|H6].
    + apply (IH (mk_walk (w_matrix w) (w_bit_idx w) (w_row w) (w_col w - 1) (w_direction w))
                idx'); [|done|done|simpl; lia].
      destruct Hw as (? & ? & ? & ?). split; [done|]. split; [done|]. split; done.
    + destruct (rows_loop_padded N bits k (w_col w) (Z.to_nat (Z.of_nat N)) w idx' Hw Hidx' Hmin)
        as (w1 & i1' & -> & Hw1' & Hok & Hi1' & Hi1 & Hcol').
      { destruct Hw as (_ & _ & Hrow & Hdir). unfold rows_ahead.
        destruct (w_direction w =? -1); lia. }
      rewrite Hw1'. cbn [bind with_bit_idx w_col].
      destruct (Z.ltb_spec (w_col w1) 0); [by eauto 10|].
      apply (IH w1 i1'); [done..|lia].
Qed.

Lemma place_data_bits_padded (N : nat) (m : matrix) (bits : list bool) (k : nat) :
  (0 < N)%nat → shape N N m →
  ∃ m' used used',
    place_data_bits m (Z.of_nat N) bits = Ok (m', used) ∧
    place_data_bits m (Z.of_nat N) (bits ++ replicate k false) = Ok (m', used') ∧
    used = Z.min used' (len bits).
Proof.
  intros HN Hm. unfold place_data_bits.
  destruct (columns_loop_padded N bits k (Z.to_nat (Z.of_nat N) + 1)
              (mk_walk m 0 (Z.of_nat N - 1) (Z.of_nat N - 1) (-1)) 0)
    as (w & i' & -> & Hw' & Hw & Hi' & Hi).
  { split; [done|]. split; [simpl; lia|]. split; [simpl; lia|by left]. }
  { lia. }
  { simpl. unfold len. lia. }
  { simpl. lia. }
  unfold with_bit_idx in Hw' at 1. cbn [w_matrix w_row w_col w_direction] in Hw'.
  rewrite Hw'. cbn [bind with_bit_idx w_matrix w_bit_idx].
  destruct (fill_loops N (w_matrix w)) as (m' & -> & _); [by destruct Hw|].
  cbn [bind]. by exists m', (w_bit_idx w), i'.
Qed.

(** X14. Zeros appended to the stream do not change the matrix that
    [place_data_bits] returns: when the stream is exhausted the remaining
    cells are filled with 0. The number of bits taken from the stream is the
    number taken from the longer one, capped at the length of the stream. *)
Theorem place_data_bits_zero_padding (N : nat) (m : matrix) (bits : list bool) (k : nat) :
  (0 < N)%nat → shape N N m →
  ∃ m' used used',
    place_data_bits m (Z.of_nat N) bits = Ok (m', used) ∧
    place_data_bits m (Z.of_nat N) (bits ++ replicate k false) = Ok (m', used') ∧
    used = Z.min used' (len bits).
Proof. apply place_data_bits_padded. Qed.

Lemma place_data_bits_zero_padding_witness :
  ∃ m' used used',
    place_data_bits [[CInt 1; CNone]; [CNone; CNone]] (Z.of_nat 2) [true] = Ok (m', used) ∧
    place_data_bits [[CInt 1; CNone]; [CNone; CNone]] (Z.of_nat 2) ([true] ++ replicate 5 false)
    = Ok (m', used') ∧
    used = Z.min used' (len [true]).
Proof.
  apply (place_data_bits_zero_padding 2).
  - lia.
  - split; [reflexivity|]. repeat constructor.
Defined.

(** ** Streams shorter than the symbol, and the steps of the explanation *)

Lemma lookup_padded (bits : list bool) (k i : nat) (b : bool) :
  (bits ++ replicate k false) !! i = Some b → default false (bits !! i) = b.
Proof.
  intros H. destruct (bits !! i) as [b'|] eqn:Hb.
  - rewrite (lookup_app_l_Some _ _ _ _ Hb) in H. simpl. congruence.
  - simpl. apply lookup_ge_None in Hb. rewrite lookup_app_r in H by done.
    apply lookup_replicate in H as [-> _]. done.
Qed.

(** A stream with at most as many bits as the version has data cells. *)
Lemma short_stream_placement (version : Z) (bits : list bool) :
  version = 1 ∨ version = 2 →
  len bits ≤ (if version =? 1 then 208 else 359) →
  let N := Z.to_nat (17 + 4 * version) in
  ∃ m,
    place_data_bits (layout_of version) (Z.of_nat N) bits = Ok (m, len bits) ∧
    shape N N m ∧
    ∀ i r c, data_cells N (function_map_of version) !! i = Some (r, c) →
      cell_at m r c = Some (CInt (Z.b2z (default false (bits !! i)))).
Proof.
  intros Hv Hlen N.
  destruct (version_tables version Hv) as (HN & _ & _ & _ & _ & Hl). fold N in HN, Hl.
  set (L := if version =? 1 then 208 else 359) in *.
  set (k := Z.to_nat (L - len bits)).
  destruct (place_data_bits_padded N (layout_of version) bits k)
    as (m & used & used' & Hp & Hp' & Hused); [destruct HN; lia|done|].
  assert (len (bits ++ replicate k false) = L) as Hlen'.
  { unfold len in *. rewrite length_app, length_replicate. lia. }
  destruct (data_placement version (bits ++ replicate k false) Hv Hlen') as (m' & Hpd & Hcells).
  fold N in Hpd, Hcells. rewrite Hp' in Hpd. injection Hpd as <- ->.
  destruct (place_data_bits_filled N (layout_of version) bits) as (m2 & u2 & Hp2 & Hm2 & _);
    [destruct HN; lia|done|].
  rewrite Hp in Hp2. injection Hp2 as <- <-.
  exists m. split; [|split; [done|]].
  - rewrite Hp. f_equal. f_equal. lia.
  - intros i r c Hi. destruct (Hcells i r c Hi) as (_ & b & Hb & ->).
    by rewrite (lookup_padded bits k i b Hb).
Qed.

Lemma encode_byte_mode_Ok (text : list Z) (codewords : list (list bool)) (version : Z) :
  encode_byte_mode text = Ok (codewords, version) →
  (∀ c, c ∈ text → 0 ≤ c < 256) ∧ len text ≤ 32 ∧
  version = (if len text <=? 17 then 1 else 2) ∧
  Forall (λ cw, length cw = 8%nat) codewords ∧
  concat codewords = spec_data_stream text (if len text <=? 17 then 19 else 34) ∧
  len (concat codewords) = 8 * (if len text <=? 17 then 19 else 34).
Proof.
  intros Henc.
  assert ((∀ c, c ∈ text → 0 ≤ c < 256) ∧ len text ≤ 32) as [Hall Hle].
  { destruct (decide (Forall (λ c, 0 ≤ c < 256) text)) as [Hall|Hnot].
    - rewrite Forall_forall in Hall. split; [done|].
      destruct (Z.le_gt_cases (len text) 32) as [Hle|Hgt]; [done|].
      by rewrite (encode_byte_mode_too_long text Hall) in Henc by lia.
    - rewrite encode_byte_mode_invalid in Henc; [done|].
      apply not_Forall_Exists in Hnot; [|apply _]. by apply Exists_exists in Hnot. }
  destruct (encode_byte_mode_stream text Hall Hle) as (cw & Henc' & _ & Hcw & Hcat & Hbits).
  rewrite Henc' in Henc. injection Henc as -> <-. done.
Qed.

(** X16. In its explanation mode [assemble_qr_matrix] returns on every
    input that the encoder accepts: the entry "final" is the symbol of the
    normal mode, the entries "step2" and "step3" are the same matrix (for
    version 2 the seven remainder bits that tell them apart are zeros, which
    the zig-zag supplies by itself), "step4" is "step3" under the chosen mask,
    and "step1" holds the data codewords in the first data cells and 0 in the
    others. *)
Theorem assemble_qr_matrix_explain_steps
    (rs_encode : Z → list Z → list Z) (text : list Z)
    (codewords : list (list bool)) (version : Z) :
  (∀ data, Forall is_byte data →
           Forall is_byte (rs_encode 7 data) ∧ Forall is_byte (rs_encode 10 data)) →
  encode_byte_mode text = Ok (codewords, version) →
  ∃ step1 step3 step4 final mask,
    assemble_qr_matrix_explain rs_encode text = Ok (step1, step3, step3, step4, Some final) ∧
    assemble_qr_matrix rs_encode text = Ok (final, version, mask) ∧
    apply_specific_mask_pattern mask step3 (function_map_of version) = Ok step4 ∧
    ∀ i r c,
      data_cells (Z.to_nat (17 + 4 * version)) (function_map_of version) !! i = Some (r, c) →
      cell_at step1 r c = Some (CInt (Z.b2z (default false (concat codewords !! i)))).
Proof.
  intros _ Henc.
  pose proof (encode_byte_mode_version text codewords version Henc) as Hv.
  destruct (encode_byte_mode_Ok text codewords version Henc)
    as (_ & _ & Hver & _ & _ & Hlen).
  destruct (version_tables version Hv) as (HN & Hsize & Hfm & Hlay & Hfms & Hls).
  set (N := Z.to_nat (17 + 4 * version)) in *.
  assert (0 < N)%nat as HN0 by (destruct HN; lia).
  unfold assemble_qr_matrix_explain, assemble_qr_matrix, final_bitstream.
  rewrite Henc. cbn [bind fst snd].
  assert (∃ ecc, generate_error_correction rs_encode (bits_to_Z <$> codewords) version = Ok ecc)
    as [ecc ->].
  { unfold generate_error_correction. destruct Hv as [-> | ->]; simpl; eauto. }
  cbn [bind fst snd].
  set (stream := concat (codewords ++ ecc)).
  set (bits := if version =? 2 then stream ++ replicate 7 false else stream).
  (* the matrix of steps 2 and 3 *)
  destruct (place_data_bits_padded N (layout_of version) stream 7 HN0 Hls)
    as (m & used & used' & Hp & Hp' & _).
  assert (generate_qr_module stream version = Ok m) as Hgen2.
  { unfold generate_qr_module. rewrite Hsize, Hlay. cbn [bind]. by rewrite Hp. }
  assert (generate_qr_module bits version = Ok m) as Hgen3.
  { subst bits. destruct (version =? 2); [|done].
    unfold generate_qr_module. rewrite Hsize, Hlay. cbn [bind]. by rewrite Hp'. }
  assert (shape N N m) as Hm.
  { destruct (place_data_bits_filled N (layout_of version) stream HN0 Hls)
      as (m2 & u2 & Hp2 & Hm2 & _).
    rewrite Hp in Hp2. by injection Hp2 as <- _. }
  (* step 1 *)
  destruct (short_stream_placement version (concat codewords) Hv) as (s1 & Hp1 & _ & Hcells).
  { rewrite Hlen, Hver. destruct (len text <=? 17); simpl; lia. }
  assert (generate_qr_module (concat codewords) version = Ok s1) as Hgen1.
  { unfold generate_qr_module. rewrite Hsize, Hlay. cbn [bind]. fold N in Hp1. by rewrite Hp1. }
  rewrite Hgen3. cbn [bind]. rewrite Hfm. cbn [bind].
  destruct (find_best_pattern_returns N m (function_map_of version)) as (id & -> & Hid);
    [done..|].
  cbn [bind fst snd].
  destruct (get_format_string_level_L id Hid) as (fmt & -> & Hfmt). cbn [bind].
  rewrite Hsize. cbn [bind].
  rewrite place_format_information_placed
    by (done || by apply int_or_zero_shape, masked_shape).
  cbn [bind]. rewrite Hgen1, Hgen2. cbn [bind].
  eexists _, _, _, _, id. split; [reflexivity|]. split; [reflexivity|].
  split; [by apply (apply_specific_mask_pattern_masked id m _ N N)|].
  exact Hcells.
Qed.

Lemma assemble_qr_matrix_explain_steps_witness :
  ∃ step1 step3 step4 final mask,
    assemble_qr_matrix_explain RS.rs_encode hello_world
    = Ok (step1, step3, step3, step4, Some final) ∧
    assemble_qr_matrix RS.rs_encode hello_world = Ok (final, 1, mask) ∧
    apply_specific_mask_pattern mask step3 (function_map_of 1) = Ok step4 ∧
    ∀ i r c,
      data_cells (Z.to_nat (17 + 4 * 1)) (function_map_of 1) !! i = Some (r, c) →
      cell_at step1 r c
      = Some (CInt (Z.b2z (default false
                             (concat (match encode_byte_mode hello_world with
                                      | Ok r => r.1
                                      | Raise _ => []
                                      end) !! i)))).
Proof.
  apply (assemble_qr_matrix_explain_steps RS.rs_encode hello_world
           (match encode_byte_mode hello_world with Ok r => r.1 | Raise _ => [] end) 1).
  - exact rs_encode_bytes.
  - vm_compute. reflexivity.
Defined.

(** ** The older copy of the encoder *)

Lemma codewords_unique (l1 l2 : list (list bool)) :
  Forall (λ cw, length cw = 8%nat) l1 → Forall (λ cw, length cw = 8%nat) l2 →
  concat l1 = concat l2 → l1 = l2.
Proof.
  revert l2. induction l1 as [|a l1 IH]; intros l2 H1 H2 Hcat.
  - destruct l2 as [|b l2]; [done|]. apply Forall_cons in H2 as [Hb _].
    destruct b; [done|]. csimpl in Hcat. done.
  - apply Forall_cons in H1 as [Ha H1].
    destruct l2 as [|b l2].
    + destruct a; [done|]. csimpl in Hcat. done.
    + apply Forall_cons in H2 as [Hb H2]. csimpl in Hcat.
      apply app_inj_1 in Hcat as [-> Hcat]; [|congruence].
      f_equal. by apply IH.
Qed.

(** On a stream that is a whole number of bytes short of the capacity, the
    padding loop of the older copy behaves as that of [encode_byte_mode]. *)
Lemma backup_pad_loop_aligned (capacity : Z) (fuel : nat) :
  ∀ (bs : list bool) (idx : Z),
    (capacity - len bs) mod 8 = 0 →
    Backupjavafx.pad_loop fuel capacity bs idx = pad_loop fuel capacity bs idx.
Proof.
  induction fuel as [|fuel IH]; intros bs idx Hal; simpl; [done|].
  destruct (Z.ltb_spec (len bs) capacity) as [Hlt|Hge]; [|done].
  apply Z.mod_divide in Hal as [q Hq]; [|lia].
  assert (8 ≤ capacity - len bs) as H8 by lia.
  destruct (Z.leb_spec 8 (capacity - len bs)) as [_|?]; [|lia].
  assert (∃ pad, getitem pad_bytes (idx mod 2) = Ok pad ∧ length pad = 8%nat) as (pad & -> & Hp).
  { pose proof (Z.mod_pos_bound idx 2 ltac:(lia)) as Hb.
    assert (idx mod 2 = 0 ∨ idx mod 2 = 1) as [-> | ->] by lia; by eexists. }
  cbn [bind]. apply IH.
  apply Z.mod_divide; [lia|]. exists (q - 1).
  unfold len in *. rewrite length_app, Hp. lia.
Qed.

(** X17. The older copy of the encoder kept under
    [ScreenShots/backupjavafx] returns on every input what [encode_byte_mode]
    returns, codewords, version and exceptions alike: its byte-boundary loop
    never runs, its padding loop never takes the [break], and its last step
    finds the right number of codewords. *)
Theorem backup_encode_byte_mode_agrees (data : list Z) :
  Backupjavafx.encode_byte_mode data = encode_byte_mode data.
Proof.
  unfold Backupjavafx.encode_byte_mode, encode_byte_mode.
  destruct (encode_iso_8859_1 data) as [bytes|e] eqn:Hiso; [|done]. cbn [bind].
  assert (bytes = data ∧ ∀ c, c ∈ data → 0 ≤ c < 256) as [-> Hlatin].
  { unfold encode_iso_8859_1 in Hiso. destruct (forallb _ data) eqn:E; [|done].
    injection Hiso as <-. split; [done|]. intros c Hc.
    rewrite forallb_forall in E. apply list_elem_of_In, E in Hc.
    apply andb_true_iff in Hc. lia. }
  destruct (Z.leb_spec (len data) 32) as [Hle|Hgt].
  2: { destruct (Z.leb_spec (len data) 17); [lia|]. done. }
  set (version := if len data <=? 17 then 1 else 2).
  set (D := if len data <=? 17 then 19 else 34).
  assert ((if len data <=? 17 then Ok (1, 19) else Ok (2, 34))
          = (Ok (version, D) : result (Z * Z))) as ->.
  { subst version D. by destruct (len data <=? 17). }
  cbn [bind fst snd]. cbv zeta. rewrite payload_fold.
  rewrite <- (app_assoc [false; true; false; false] (format_b 8 (len data))
                (concat (format_b 8 <$> data))).
  set (s1 := [false; true; false; false] ++ format_b 8 (len data)
             ++ concat (format_b 8 <$> data)).
  assert (0 ≤ len data) as Hnn by (unfold len; lia).
  assert (len s1 = 12 + 8 * len data) as Hs1.
  { unfold len, s1. rewrite !length_app. rewrite format_b_8_length by (unfold len in *; lia).
    rewrite payload_length by done. simpl. lia. }
  assert (D = 19 ∧ len data ≤ 17 ∨ D = 34 ∧ 17 < len data) as HD.
  { subst D. destruct (Z.leb_spec (len data) 17); [left|right]; lia. }
  assert (Z.to_nat (Z.min 4 (D * 8 - len s1)) = 4%nat) as -> by lia.
  set (s2 := s1 ++ replicate 4 false).
  assert (len s2 = 16 + 8 * len data) as Hs2.
  { unfold len, s2. rewrite length_app, length_replicate. unfold len in Hs1. lia. }
  (* the stream is on a byte boundary *)
  rewrite Hs2, byte_aligned. simpl negb. cbv iota.
  assert (Backupjavafx.align_loop (Z.to_nat (D * 8)) (D * 8) s2 = Ok s2) as ->.
  { destruct (Z.to_nat (D * 8)); simpl; by rewrite Hs2, byte_aligned. }
  cbn [bind].
  rewrite backup_pad_loop_aligned.
  2: { rewrite Hs2. replace (D * 8 - (16 + 8 * len data)) with ((D - 2 - len data) * 8) by lia.
       apply Z.mod_mul. lia. }
  (* the padded stream has the capacity for length *)
  set (k := Z.to_nat (D - 2 - len data)).
  assert (len s2 + 8 * Z.of_nat k = D * 8) as Hk by (unfold k; lia).
  destruct (pad_loop_spec (D * 8) k (Z.to_nat (D * 8)) s2 0) as [Hpl _]; [lia|done|].
  rewrite (Hpl eq_refl).
  cbn [bind].
  set (stream := s2 ++ spec_pad_codewords k
                         [true; true; true; false; true; true; false; false]
                         [false; false; false; true; false; false; false; true]).
  assert (length stream = (8 * Z.to_nat D)%nat) as Hstream.
  { unfold stream. rewrite length_app, spec_pad_codewords_length by done.
    unfold len in Hk. lia. }
  destruct (split_codewords_full stream (Z.to_nat D) Hstream) as (Hn & _ & _).
  assert ((len (split_codewords stream) =? D) = true) as ->.
  { apply Z.eqb_eq. unfold len. rewrite Hn. lia. }
  cbn [negb bind]. by rewrite take_ge by lia.
Qed.
(** ** The outcomes of masking *)

Lemma masked_no_columns (p : Z) (fmap : function_map) (m : matrix) (rows : nat) :
  shape rows 0 m → masked p fmap m = m.
Proof.
  intros [_ Hall]. unfold masked. apply list_eq. intros r.
  rewrite list_lookup_imap. destruct (m !! r) as [row|] eqn:Hr; simpl; [|done].
  pose proof (Forall_lookup_1 _ _ _ _ Hall Hr) as Hrow. simpl in Hrow.
  destruct row; [done|discriminate].
Qed.

Lemma apply_specific_mask_pattern_no_columns (p : Z) (m : matrix) (fmap : function_map)
    (rows : nat) :
  0 ≤ p ≤ 7 → (0 < rows)%nat → shape rows 0 m → length fmap = rows →
  apply_specific_mask_pattern p m fmap = Ok m.
Proof.
  intros Hp Hrows [Hlen Hall] Hf. unfold apply_specific_mask_pattern.
  replace ((0 <=? p) && (p <=? 7)) with true by (symmetry; apply andb_true_iff; lia).
  simpl negb. cbv iota.
  destruct m as [|row0 mtl] eqn:Em; [simpl in Hlen; lia|]. rewrite <- Em in *.
  assert (row0 = []) as ->.
  { rewrite Em in Hall. apply Forall_cons in Hall as [H0 _]. by destruct row0. }
  rewrite Hf, Hlen, Z.eqb_refl. simpl. unfold range.
  destruct (for_each_seqZ_inv (λ _ s, s = m) (λ (_ : Z) (out : matrix), Ok out)
              0 (Z.of_nat rows) m) as (s' & -> & ->); [lia|done| |done].
  intros k t _ ->. by exists m.
Qed.

(** X18. The outcomes of [apply_specific_mask_pattern] on a rectangular
    matrix and a rectangular function map. It raises the first
    [ValueError] exactly for an id outside 0..7, whatever the matrices; the
    second exactly when, the id being valid, the matrix is empty, or the map
    has another number of rows, or the matrix has columns and the map another
    number of them; in every other case it returns the masked matrix. A
    matrix of empty rows passes with a map of any width. *)
Theorem apply_specific_mask_pattern_outcomes
    (p : Z) (m : matrix) (fmap : function_map) (rows cols rows' cols' : nat) :
  shape rows cols m → shape rows' cols' fmap →
  (apply_specific_mask_pattern p m fmap = Raise BadMaskId ↔ ¬ 0 ≤ p ≤ 7) ∧
  (apply_specific_mask_pattern p m fmap = Raise DimensionMismatch
   ↔ 0 ≤ p ≤ 7 ∧ (rows = 0 ∨ rows' ≠ rows ∨ (0 < cols ∧ cols' ≠ cols))%nat) ∧
  (apply_specific_mask_pattern p m fmap = Ok (masked p fmap m)
   ↔ 0 ≤ p ≤ 7 ∧ (0 < rows ∧ rows' = rows ∧ (cols = 0 ∨ cols' = cols))%nat) ∧
  (∀ e, apply_specific_mask_pattern p m fmap = Raise e →
        e = BadMaskId ∨ e = DimensionMismatch).
Proof.
  intros Hm Hf.
  destruct (decide (0 ≤ p ≤ 7)) as [Hp|Hp].
  2: { assert (apply_specific_mask_pattern p m fmap = Raise BadMaskId) as ->.
       { unfold apply_specific_mask_pattern.
         replace ((0 <=? p) && (p <=? 7)) with false; [done|].
         symmetry. apply andb_false_iff. lia. }
       split; [done|]. split; [split; [done|tauto]|].
       split; [split; [done|tauto]|]. intros e [= <-]. by left. }
  destruct (decide (0 < rows ∧ rows' = rows ∧ (cols = 0 ∨ cols' = cols))%nat)
    as [(Hrows & -> & Hcols)|Hbad].
  - assert (apply_specific_mask_pattern p m fmap = Ok (masked p fmap m)) as ->.
    { destruct Hcols as [-> | ->].
      - rewrite (masked_no_columns p fmap m rows Hm).
        apply (apply_specific_mask_pattern_no_columns p m fmap rows); try done.
        by destruct Hf.
      - by apply (apply_specific_mask_pattern_masked p m fmap rows cols). }
    split; [split; [done|tauto]|]. split; [split; [done|]|].
    + intros [_ [?|[?|[? ?]]]]; lia.
    + split; [|done]. split; [done|]. tauto.
  - assert (apply_specific_mask_pattern p m fmap = Raise DimensionMismatch) as ->.
    { unfold apply_specific_mask_pattern.
      replace ((0 <=? p) && (p <=? 7)) with true by (symmetry; apply andb_true_iff; lia).
      simpl negb. cbv iota.
      pose proof Hm as [Hlen Hall]. pose proof Hf as [Hflen Hfall].
      destruct m as [|row0 mtl] eqn:Em; [done|]. rewrite <- Em in *.
      assert (length row0 = cols) as Hrow0.
      { rewrite Em in Hall. by inversion Hall. }
      rewrite Hflen, Hlen, Hrow0.
      destruct (Z.eqb_spec (Z.of_nat rows') (Z.of_nat rows)) as [Heq|Hne]; [|done].
      simpl negb. cbv iota.
      assert (rows' = rows) as -> by lia.
      assert (0 < rows)%nat as Hrows by (rewrite <- Hlen, Em; simpl; lia).
      destruct (Z.ltb_spec 0 (Z.of_nat cols)) as [Hc|Hc].
      2: { exfalso. apply Hbad. split; [done|]. split; [done|]. lia. }
      destruct fmap as [|frow0 ftl] eqn:Ef; [done|].
      assert (length frow0 = cols') as -> by (by inversion Hfall).
      destruct (Z.eqb_spec (Z.of_nat cols) (Z.of_nat cols')) as [Heq'|Hne']; [|done].
      exfalso. apply Hbad. split; [done|]. split; [done|]. lia. }
    split; [split; [done|tauto]|]. split; [split; [|done]|].
    + intros _. split; [done|].
      destruct (decide (rows = 0%nat)); [by left|].
      destruct (decide (rows' = rows)) as [->|]; [|by (right; left)].
      right. right. split; [|intros ->]; [destruct (decide (0 < cols)%nat); [done|]|];
        exfalso; apply Hbad; lia.
    + split; [split; [done|]|].
      * intros [_ ?]. done.
      * intros e [= <-]. by right.
Qed.

Lemma apply_specific_mask_pattern_outcomes_witness :
  (apply_specific_mask_pattern 2 [[]; []] [[true; false]; [false; true]] = Raise BadMaskId
   ↔ ¬ 0 ≤ 2 ≤ 7) ∧
  (apply_specific_mask_pattern 2 [[]; []] [[true; false]; [false; true]]
   = Raise DimensionMismatch
   ↔ 0 ≤ 2 ≤ 7 ∧ (2 = 0 ∨ 2 ≠ 2 ∨ (0 < 0 ∧ 2 ≠ 0))%nat) ∧
  (apply_specific_mask_pattern 2 [[]; []] [[true; false]; [false; true]]
   = Ok (masked 2 [[true; false]; [false; true]] [[]; []])
   ↔ 0 ≤ 2 ≤ 7 ∧ (0 < 2 ∧ 2 = 2 ∧ (0 = 0 ∨ 2 = 0))%nat) ∧
  (∀ e, apply_specific_mask_pattern 2 [[]; []] [[true; false]; [false; true]] = Raise e →
        e = BadMaskId ∨ e = DimensionMismatch).
Proof.
  apply (apply_specific_mask_pattern_outcomes 2 [[]; []] [[true; false]; [false; true]]
           2 0 2 2).
  - split; [reflexivity|]. repeat constructor.
  - split; [reflexivity|]. repeat constructor.
Defined.
(** ** The length of the stream and the room in the symbol *)

Lemma slice_last_spec {A : Type} (P : A → Prop) (l : list A) (n : Z) :
  0 < n ≤ len l → Forall P l →
  length (slice_last l n) = Z.to_nat n ∧ Forall P (slice_last l n).
Proof.
  intros Hn Hl. unfold slice_last, len in *.
  destruct (Z.eqb_spec n 0) as [?|_]; [lia|]. split.
  - rewrite length_drop. lia.
  - by apply Forall_drop.
Qed.

Lemma concat_codewords_length (codewords : list (list bool)) :
  Forall (λ cw, length cw = 8%nat) codewords →
  length (concat codewords) = (8 * length codewords)%nat.
Proof.
  induction 1 as [|cw l Hcw _ IH]; csimpl; [done|]. rewrite length_app, Hcw, IH. lia.
Qed.

(** The stream handed to [generate_qr_module]: the data codewords, then the
    check codewords and the remainder bits, 208 or 359 bits in all. The
    codec is asked what it does on the messages of the two versions only, 19
    bytes with 7 check bytes and 34 bytes with 10. *)
Lemma final_bitstream_parts
    (rs_encode : Z → list Z → list Z) (text : list Z)
    (codewords : list (list bool)) (version : Z) :
  (∀ nsym data,
     (nsym = 7 ∧ length data = 19%nat) ∨ (nsym = 10 ∧ length data = 34%nat) →
     Forall is_byte data →
     length (rs_encode nsym data) = (length data + Z.to_nat nsym)%nat ∧
     Forall is_byte (rs_encode nsym data)) →
  encode_byte_mode text = Ok (codewords, version) →
  ∃ tail,
    final_bitstream rs_encode text = Ok (concat codewords ++ tail, version) ∧
    len (concat codewords ++ tail) = (if version =? 1 then 208 else 359).
Proof.
  intros Hrs Henc.
  destruct (encode_byte_mode_Ok text codewords version Henc)
    as (_ & _ & Hver & Hcw & _ & Hlen).
  set (D := if len text <=? 17 then 19 else 34) in *.
  set (E := if len text <=? 17 then 7 else 10).
  assert ((version = 1 ∧ D = 19 ∧ E = 7) ∨ (version = 2 ∧ D = 34 ∧ E = 10)) as Hv.
  { subst D E. rewrite Hver. destruct (len text <=? 17); auto. }
  assert (Forall is_byte (bits_to_Z <$> codewords)) as Hints.
  { apply Forall_fmap. eapply Forall_impl; [exact Hcw|]. intros x Hx. by apply bits_to_Z_byte. }
  assert (length (bits_to_Z <$> codewords) = Z.to_nat D) as Hcount.
  { rewrite length_fmap. pose proof (concat_codewords_length codewords Hcw) as Hc.
    unfold len in Hlen. lia. }
  destruct (Hrs E (bits_to_Z <$> codewords)) as [Hrl Hrb];
    [destruct Hv as [(_ & -> & ->)|(_ & -> & ->)]; auto|done|].
  destruct (slice_last_spec is_byte (rs_encode E (bits_to_Z <$> codewords)) E) as [Hsl Hsb].
  { unfold len. rewrite Hrl. destruct Hv as [(_ & _ & ->)|(_ & _ & ->)]; lia. }
  { done. }
  assert (generate_error_correction rs_encode (bits_to_Z <$> codewords) version
          = Ok (format_b 8 <$> slice_last (rs_encode E (bits_to_Z <$> codewords)) E)) as Hecc.
  { unfold generate_error_correction.
    destruct Hv as [(-> & _ & ->)|(-> & _ & ->)]; reflexivity. }
  unfold final_bitstream. rewrite Henc. cbn [bind fst snd]. rewrite Hecc. cbn [bind].
  set (ecc := format_b 8 <$> slice_last (rs_encode E (bits_to_Z <$> codewords)) E).
  assert (len (concat (codewords ++ ecc)) = 8 * D + 8 * E) as Hcat.
  { rewrite concat_app. unfold len in *. rewrite length_app. subst ecc.
    rewrite payload_length, Hsl.
    - destruct Hv as [(_ & _ & ->)|(_ & _ & ->)]; lia.
    - intros c Hc. by apply (proj1 (Forall_forall _ _) Hsb). }
  rewrite concat_app in Hcat |- *.
  destruct Hv as [(-> & HD & HE)|(-> & HD & HE)]; rewrite HD, HE in Hcat; simpl.
  - exists (concat ecc). split; [done|]. rewrite Hcat. lia.
  - exists (concat ecc ++ replicate 7 false). rewrite <- app_assoc. split; [done|].
    rewrite app_assoc. unfold len in *. rewrite length_app, length_replicate. lia.
Qed.

(** X19. With a codec that returns, on the 19-byte message of version 1
    with 7 check symbols and on the 34-byte message of version 2 with 10,
    bytes as many as the message and its check symbols together, the bit
    stream that [assemble_qr_matrix] hands to [generate_qr_module] has
    exactly the length that
    [get_expected_bitstream_length_for_version] gives for the version, which
    is the number of cells that [create_function_pattern_matrix] leaves
    unmarked: the codewords and the remainder bits fill the data region and
    nothing is left over. *)
Theorem final_bitstream_fills_data_region
    (rs_encode : Z → list Z → list Z) (text : list Z)
    (codewords : list (list bool)) (version : Z) :
  (∀ nsym data,
     (nsym = 7 ∧ length data = 19%nat) ∨ (nsym = 10 ∧ length data = 34%nat) →
     Forall is_byte data →
     length (rs_encode nsym data) = (length data + Z.to_nat nsym)%nat ∧
     Forall is_byte (rs_encode nsym data)) →
  encode_byte_mode text = Ok (codewords, version) →
  ∃ bits fm,
    final_bitstream rs_encode text = Ok (bits, version) ∧
    get_expected_bitstream_length_for_version version = Ok (len bits) ∧
    create_function_pattern_matrix version = Ok fm ∧
    Z.of_nat (count_non_function fm) = len bits.
Proof.
  intros Hrs Henc.
  pose proof (encode_byte_mode_version text codewords version Henc) as Hv.
  destruct (final_bitstream_parts rs_encode text codewords version Hrs Henc)
    as (tail & Hbits & Hlen).
  destruct data_cells_v1_spec as (_ & _ & _ & Hc1 & _).
  destruct data_cells_v2_spec as (_ & _ & _ & Hc2 & _).
  destruct Hv as [-> | ->]; simpl in Hlen.
  - exists (concat codewords ++ tail), function_map_v1.
    split; [done|]. rewrite Hlen. split; [done|].
    split; [exact create_function_pattern_matrix_v1|]. by rewrite Hc1.
  - exists (concat codewords ++ tail), function_map_v2.
    split; [done|]. rewrite Hlen. split; [done|].
    split; [exact create_function_pattern_matrix_v2|]. by rewrite Hc2.
Qed.

Lemma rs_encode_length (nsym : Z) (data : list Z) :
  (nsym = 7 ∧ length data = 19%nat) ∨ (nsym = 10 ∧ length data = 34%nat) →
  Forall is_byte data →
  length (RS.rs_encode nsym data) = (length data + Z.to_nat nsym)%nat ∧
  Forall is_byte (RS.rs_encode nsym data).
Proof.
  intros Hn Hdata. unfold RS.rs_encode.
  assert (Z.to_nat nsym = 7%nat ∨ Z.to_nat nsym = 10%nat) as HE
    by (destruct Hn as [[-> _] | [-> _]]; auto).
  destruct (rs_ecc_spec (Z.to_nat nsym) data HE Hdata) as (Hlen & Hb & _).
  split; [by rewrite length_app, Hlen|]. by apply Forall_app.
Qed.

Lemma final_bitstream_fills_data_region_witness :
  ∃ bits fm,
    final_bitstream RS.rs_encode hello_world = Ok (bits, 1) ∧
    get_expected_bitstream_length_for_version 1 = Ok (len bits) ∧
    create_function_pattern_matrix 1 = Ok fm ∧
    Z.of_nat (count_non_function fm) = len bits.
Proof.
  apply (final_bitstream_fills_data_region RS.rs_encode hello_world
           (match encode_byte_mode hello_world with Ok r => r.1 | Raise _ => [] end) 1).
  - exact rs_encode_length.
  - vm_compute. reflexivity.
Defined.

(** ** Reading the payload back *)

(** The stream of byte mode for a payload, whatever follows it. *)
Lemma decode_stream_payload (data : list Z) (rest : list bool) :
  (∀ c, c ∈ data → 0 ≤ c < 256) → len data < 256 →
  decode_stream ([false; true; false; false] ++ format_b 8 (len data)
                 ++ concat (format_b 8 <$> data) ++ rest) = data.
Proof.
  intros Hlatin Hle. unfold decode_stream.
  set (count := format_b 8 (len data)).
  set (payload := concat (format_b 8 <$> data)).
  assert (0 ≤ len data) as Hnn by (unfold len; lia).
  assert (length count = 8%nat) as Hcount by (apply format_b_8_length; lia).
  assert (length payload = (8 * length data)%nat) as Hpay by (by apply payload_length).
  change (drop 4 ([false; true; false; false] ++ count ++ payload ++ rest))
    with (count ++ payload ++ rest).
  change (drop 12 ([false; true; false; false] ++ count ++ payload ++ rest))
    with (drop 8 (count ++ payload ++ rest)).
  rewrite take_app_length' by done. rewrite drop_app_length' by done.
  unfold count. rewrite bits_to_Z_format_b_8 by (unfold is_byte; lia).
  replace (8 * Z.to_nat (len data))%nat with (length payload) by (unfold len; lia).
  rewrite take_app_length.
  destruct (split_codewords_full payload (length data) Hpay) as (_ & Hc & Hall).
  assert (split_codewords payload = format_b 8 <$> data) as ->.
  { apply codewords_unique; [done| |done].
    apply Forall_fmap, Forall_forall. intros c Hc'. simpl.
    apply format_b_8_length. by apply Hlatin. }
  rewrite <- list_fmap_compose.
  rewrite <- (list_fmap_id data) at 2.
  apply Forall_fmap_ext_1, Forall_forall. intros c Hc'. simpl.
  apply bits_to_Z_format_b_8. by apply Hlatin.
Qed.

(** The stream of the specification starts with the mode indicator, the
    count and the payload. *)
Lemma spec_data_stream_prefix (data : list Z) (D : Z) :
  ∃ rest, spec_data_stream data D
          = [false; true; false; false] ++ format_b 8 (len data)
            ++ concat (format_b 8 <$> data) ++ rest.
Proof.
  unfold spec_data_stream. cbv zeta.
  match goal with
  | |- ∃ rest, ((?a ++ ?t) ++ ?al) ++ ?p = _ => exists (t ++ al ++ p)
  end.
  by rewrite <- !app_assoc.
Qed.

(** X20. The codewords returned by [encode_byte_mode] start with the mode
    indicator 0100 and carry the input: the eight bits that follow give its
    length, and the bytes after them are its characters. In particular two
    different inputs never have the same codewords. *)
Theorem encode_byte_mode_round_trip (data : list Z) (codewords : list (list bool))
    (version : Z) :
  encode_byte_mode data = Ok (codewords, version) →
  take 4 (concat codewords) = [false; true; false; false] ∧
  decode_byte_mode codewords = data.
Proof.
  intros Henc.
  destruct (encode_byte_mode_Ok data codewords version Henc)
    as (Hlatin & Hle & _ & _ & Hcat & _).
  destruct (spec_data_stream_prefix data (if len data <=? 17 then 19 else 34)) as [rest Hrest].
  unfold decode_byte_mode. rewrite Hcat, Hrest. split; [done|].
  apply decode_stream_payload; [done|lia].
Qed.

Lemma encode_byte_mode_round_trip_witness :
  take 4 (concat (match encode_byte_mode hello_world with Ok r => r.1 | Raise _ => [] end))
  = [false; true; false; false] ∧
  decode_byte_mode (match encode_byte_mode hello_world with Ok r => r.1 | Raise _ => [] end)
  = hello_world.
Proof.
  apply (encode_byte_mode_round_trip hello_world
           (match encode_byte_mode hello_world with Ok r => r.1 | Raise _ => [] end) 1).
  vm_compute. reflexivity.
Defined.

(** ** The function patterns of every version *)

(** X21. For every version from 1 to 40 the layout steps of
    [generate_qr_module] return a matrix with the 7 x 7 finder pattern in the
    top-left, top-right and bottom-left corners, a light separator along the
    inner sides of each, timing patterns in row 6 and column 6 that are dark
    at the even positions (also where an alignment pattern lies across
    them), and 31 reserved cells, of which one is the dark module at row
    [4 * version + 9] of column 8; from version 2 on, the 5 x 5 alignment
    pattern is centred at row and column [N - 7]. *)
Theorem layout_function_patterns_content (version : Z) :
  1 ≤ version ≤ 40 →
  let N := Z.to_nat (17 + 4 * version) in
  ∃ m,
    layout_function_patterns version = Ok m ∧
    (∀ r c, (r < 7)%nat → (c < 7)%nat →
       cell_at m r c = CInt <$> cell_at finder_pattern r c ∧
       cell_at m r (N - 7 + c) = CInt <$> cell_at finder_pattern r c ∧
       cell_at m (N - 7 + r) c = CInt <$> cell_at finder_pattern r c) ∧
    (∀ i, (i < 8)%nat →
       cell_at m 7 i = Some (CInt 0) ∧ cell_at m i 7 = Some (CInt 0) ∧
       cell_at m 7 (N - 1 - i) = Some (CInt 0) ∧ cell_at m i (N - 8) = Some (CInt 0) ∧
       cell_at m (N - 8) i = Some (CInt 0) ∧ cell_at m (N - 1 - i) 7 = Some (CInt 0)) ∧
    (∀ i, (8 ≤ i < N - 8)%nat →
       cell_at m 6 i = Some (CInt (if Nat.even i then 1 else 0)) ∧
       cell_at m i 6 = Some (CInt (if Nat.even i then 1 else 0))) ∧
    cell_at m (Z.to_nat (4 * version + 9)) 8 = Some CRes ∧
    length (filter (λ v, v = CRes) (concat m)) = 31%nat ∧
    (2 ≤ version → ∀ r c, (r < 5)%nat → (c < 5)%nat →
       cell_at m (N - 9 + r) (N - 9 + c) = CInt <$> cell_at alignment_pattern r c).
Proof.
  intros Hv N.
  assert (forallb layout_has_patterns (seqZ 1 40) = true) as Hall by (vm_compute; reflexivity).
  rewrite forallb_forall in Hall.
  assert (layout_has_patterns version = true) as H.
  { apply Hall, list_elem_of_In, elem_of_seqZ. lia. }
  unfold layout_has_patterns in H. fold N in H.
  destruct (layout_function_patterns version) as [m|]; [|done].
  apply andb_true_iff in H as [H Halign].
  apply andb_true_iff in H as [H Hcount]. apply andb_true_iff in H as [H Hdark].
  apply andb_true_iff in H as [H Htiming]. apply andb_true_iff in H as [Hfinder Hsep].
  exists m. split; [done|]. split; [|split; [|split; [|split; [|split]]]].
  - intros r c Hr Hc.
    pose proof (forall_below _ 7 Hfinder r Hr) as Hrow. cbv beta in Hrow.
    pose proof (forall_below _ 7 Hrow c Hc) as Hcell. cbv beta in Hcell.
    apply andb_true_iff in Hcell as [Hcell H3]. apply andb_true_iff in Hcell as [H1 H2].
    apply bool_decide_eq_true in H1, H2, H3. done.
  - intros i Hi.
    pose proof (forall_below _ 8 Hsep i Hi) as Hs. cbv beta in Hs.
    repeat (apply andb_true_iff in Hs as [Hs ?]).
    repeat match goal with
           | X : bool_decide _ = true |- _ => apply bool_decide_eq_true in X
           end.
    done.
  - intros i Hi.
    pose proof (forall_below _ N Htiming i ltac:(lia)) as Ht. cbv beta in Ht.
    replace ((8 <=? i)%nat && (i <? N - 8)%nat) with true in Ht.
    2: { symmetry. apply andb_true_iff. split; [apply Nat.leb_le|apply Nat.ltb_lt]; lia. }
    cbn [negb orb] in Ht. apply andb_true_iff in Ht as [H1 H2].
    apply bool_decide_eq_true in H1, H2. done.
  - apply bool_decide_eq_true in Hdark.
    replace (Z.to_nat (4 * version + 9)) with (N - 8)%nat by (subst N; lia). done.
  - by apply Nat.eqb_eq in Hcount.
  - intros H2 r c Hr Hc.
    destruct (Z.ltb_spec version 2) as [?|_]; [lia|]. cbn [orb] in Halign.
    pose proof (forall_below _ 5 Halign r Hr) as Hrow. cbv beta in Hrow.
    pose proof (forall_below _ 5 Hrow c Hc) as Hcell. cbv beta in Hcell.
    by apply bool_decide_eq_true in Hcell.
Qed.

Lemma layout_function_patterns_content_witness :
  let N := Z.to_nat (17 + 4 * 2) in
  ∃ m,
    layout_function_patterns 2 = Ok m ∧
    (∀ r c, (r < 7)%nat → (c < 7)%nat →
       cell_at m r c = CInt <$> cell_at finder_pattern r c ∧
       cell_at m r (N - 7 + c) = CInt <$> cell_at finder_pattern r c ∧
       cell_at m (N - 7 + r) c = CInt <$> cell_at finder_pattern r c) ∧
    (∀ i, (i < 8)%nat →
       cell_at m 7 i = Some (CInt 0) ∧ cell_at m i 7 = Some (CInt 0) ∧
       cell_at m 7 (N - 1 - i) = Some (CInt 0) ∧ cell_at m i (N - 8) = Some (CInt 0) ∧
       cell_at m (N - 8) i = Some (CInt 0) ∧ cell_at m (N - 1 - i) 7 = Some (CInt 0)) ∧
    (∀ i, (8 ≤ i < N - 8)%nat →
       cell_at m 6 i = Some (CInt (if Nat.even i then 1 else 0)) ∧
       cell_at m i 6 = Some (CInt (if Nat.even i then 1 else 0))) ∧
    cell_at m (Z.to_nat (4 * 2 + 9)) 8 = Some CRes ∧
    length (filter (λ v, v = CRes) (concat m)) = 31%nat ∧
    (2 ≤ 2 → ∀ r c, (r < 5)%nat → (c < 5)%nat →
       cell_at m (N - 9 + r) (N - 9 + c) = CInt <$> cell_at alignment_pattern r c).
Proof. apply (layout_function_patterns_content 2). lia. Defined.

(** ** Bits beyond the room in the matrix *)

Lemma count_none_row_insert (row : list cell) (c : nat) (x : cell) :
  row !! c = Some CNone → x ≠ CNone →
  length (filter (λ v, v = CNone) row)
  = S (length (filter (λ v, v = CNone) (<[c := x]> row))).
Proof.
  intros Hc Hx.
  rewrite <- (take_drop_middle row c CNone Hc) at 1.
  rewrite insert_take_drop by (by eapply lookup_lt_Some).
  rewrite !filter_app, !length_app.
  rewrite (filter_cons_True _ CNone) by done.
  rewrite (filter_cons_False _ x) by done. simpl. lia.
Qed.

Lemma count_none_insert (m : matrix) (r c : nat) (row : list cell) (x : cell) :
  m !! r = Some row → row !! c = Some CNone → x ≠ CNone →
  count_none m = S (count_none (<[r := <[c := x]> row]> m)).
Proof.
  intros Hr Hc Hx. unfold count_none.
  rewrite <- (take_drop_middle m r row Hr) at 1.
  rewrite insert_take_drop by (by eapply lookup_lt_Some).
  rewrite !concat_app, !filter_app, !length_app. csimpl.
  rewrite !filter_app, !length_app.
  rewrite (count_none_row_insert row c x Hc Hx). lia.
Qed.

(** One candidate cell, on a stream with as many bits left as the matrix has
    empty cells, and on that stream followed by more bits. *)
Lemma place_cell_surplus (N : nat) (bits extra : list bool) (row c : Z)
    (m : matrix) (idx : Z) :
  shape N N m → 0 ≤ row < Z.of_nat N → 0 ≤ idx →
  Z.of_nat (count_none m) + idx = len bits →
  ∃ m1 i1,
    place_cell (Z.of_nat N) bits row c (m, idx) = Ok (m1, i1) ∧
    place_cell (Z.of_nat N) (bits ++ extra) row c (m, idx) = Ok (m1, i1) ∧
    shape N N m1 ∧ 0 ≤ i1 ∧ Z.of_nat (count_none m1) + i1 = len bits.
Proof.
  intros Hm Hrow Hidx Hcount. unfold place_cell.
  destruct ((0 <=? c) && (c <? Z.of_nat N)) eqn:Hc; [|by eauto 10].
  apply andb_true_iff in Hc as [Hc1%Z.leb_le Hc2%Z.ltb_lt].
  destruct (mget_in_shape N N m row c Hm) as (v & -> & Hv); [lia..|]. cbn [bind].
  destruct v; simpl; [by eauto 10..|].
  destruct (mset_insert N m row c (CInt 0) Hm) as (rw & Hrw & _ & _ & _); [lia..|].
  assert (rw !! Z.to_nat c = Some CNone) as Hcell.
  { unfold cell_at in Hv. rewrite Hrw in Hv. done. }
  assert (len (bits ++ extra) = len bits + len extra) as Hlen.
  { unfold len. rewrite length_app. lia. }
  assert (0 ≤ len extra) as Hextra by (unfold len; lia).
  pose proof (count_none_insert m (Z.to_nat row) (Z.to_nat c) rw (CInt 0) Hrw Hcell
                ltac:(done)) as Hpos.
  rewrite Hlen.
  destruct (Z.ltb_spec idx (len bits)) as [Hlt|?]; [|lia].
  destruct (Z.ltb_spec idx (len bits + len extra)) as [_|?]; [|lia].
  destruct (lookup_lt_is_Some_2 bits (Z.to_nat idx)) as [b Hb]; [unfold len in Hlt; lia|].
  rewrite (getitem_lookup_Z bits idx b) by done.
  rewrite (getitem_prefix bits _ idx b) by done. cbn [bind].
  destruct (mset_insert N m row c (CInt (Z.b2z b)) Hm) as (rw' & Hrw' & _ & -> & Hs); [lia..|].
  rewrite Hrw in Hrw'. injection Hrw' as <-.
  cbn [bind]. eexists _, _. split; [done|]. split; [done|]. split; [done|].
  split; [lia|].
  pose proof (count_none_insert m (Z.to_nat row) (Z.to_nat c) rw (CInt (Z.b2z b)) Hrw Hcell
                ltac:(done)) as Hdec.
  lia.
Qed.

Lemma rows_loop_surplus (N : nat) (bits extra : list bool) (cpc : Z) (n : nat) :
  ∀ w,
    walk_ok N w → Z.of_nat (count_none (w_matrix w)) + w_bit_idx w = len bits →
    rows_ahead N w ≤ Z.of_nat n →
    ∃ w1,
      rows_loop n (Z.of_nat N) bits cpc w = Ok w1 ∧
      rows_loop n (Z.of_nat N) (bits ++ extra) cpc w = Ok w1 ∧
      walk_ok N w1 ∧ Z.of_nat (count_none (w_matrix w1)) + w_bit_idx w1 = len bits ∧
      w_col w1 = w_col w - 2.
Proof.
  induction n as [|n IH]; intros w (Hm & Hidx & Hrow & Hdir) Hcount Hahead.
  - unfold rows_ahead in Hahead. destruct (w_direction w =? -1); lia.
  - rewrite !rows_loop_S.
    destruct (place_cell_surplus N bits extra (w_row w) (cpc - 0) (w_matrix w) (w_bit_idx w))
      as (m1 & i1 & -> & -> & Hm1 & Hi1 & Hc1); [done..|]. cbn [bind].
    destruct (place_cell_surplus N bits extra (w_row w) (cpc - 1) m1 i1)
      as (m2 & i2 & -> & -> & Hm2 & Hi2 & Hc2); [done..|].
    cbn [bind fst snd]. cbv zeta.
    destruct ((0 <=? w_row w + w_direction w) && (w_row w + w_direction w <? Z.of_nat N))
      eqn:Hin; cbn [negb].
    + apply andb_true_iff in Hin as [H1%Z.leb_le H2%Z.ltb_lt].
      destruct (IH (mk_walk m2 i2 (w_row w + w_direction w) (w_col w) (w_direction w)))
        as (w1 & Hw1 & Hw1' & Hok & Hc & Hcol).
      * split; [done|]. split; [done|]. split; [simpl; lia|done].
      * done.
      * unfold rows_ahead in *. simpl. destruct (w_direction w =? -1) eqn:E; lia.
      * exists w1. split; [done|]. split; [done|]. split; [done|]. split; [done|].
        by rewrite Hcol.
    + eexists. split; [done|]. split; [done|].
      apply andb_false_iff in Hin.
      split; [|split; [done|done]].
      split; [done|]. split; [done|]. simpl.
      destruct Hdir as [Hd | Hd]; rewrite Hd in *;
        (split; [|by (left + right)]);
        destruct Hin as [Hin|Hin];
        try (apply Z.leb_gt in Hin); try (apply Z.ltb_ge in Hin); lia.
Qed.

Lemma columns_loop_surplus (N : nat) (bits extra : list bool) (fuel : nat) :
  ∀ w,
    walk_ok N w → Z.of_nat (count_none (w_matrix w)) + w_bit_idx w = len bits →
    w_col w < Z.of_nat fuel →
    ∃ w1,
      columns_loop fuel (Z.of_nat N) bits w = Ok w1 ∧
      columns_loop fuel (Z.of_nat N) (bits ++ extra) w = Ok w1.
Proof.
  induction fuel as [|fuel IH]; intros w Hw Hcount Hcol.
  - simpl. destruct (Z.leb_spec 0 (w_col w)); [lia|]. simpl. eauto.
  - rewrite !columns_loop_S.
    destruct (Z.leb_spec 0 (w_col w)) as [Hnn|]; cbn [negb]; [|by eauto].
    destruct (Z.eqb_spec (w_col w) 6) as [H6|H6].
    + apply IH; [|done|simpl; lia].
      destruct Hw as (? & ? & ? & ?). split; [done|]. split; [done|]. split; done.
    + destruct (rows_loop_surplus N bits extra (w_col w) (Z.to_nat (Z.of_nat N)) w Hw Hcount)
        as (w1 & -> & -> & Hok & Hc & Hcol').
      { destruct Hw as (_ & _ & Hrow & Hdir). unfold rows_ahead.
        destruct (w_direction w =? -1); lia. }
      cbn [bind]. destruct (Z.ltb_spec (w_col w1) 0); [by eauto|].
      apply IH; [done..|lia].
Qed.

Lemma place_data_bits_surplus (N : nat) (m : matrix) (bits extra : list bool) :
  (0 < N)%nat → shape N N m → count_none m = length bits →
  place_data_bits m (Z.of_nat N) (bits ++ extra) = place_data_bits m (Z.of_nat N) bits.
Proof.
  intros HN Hm Hcount. unfold place_data_bits.
  destruct (columns_loop_surplus N bits extra (Z.to_nat (Z.of_nat N) + 1)
              (mk_walk m 0 (Z.of_nat N - 1) (Z.of_nat N - 1) (-1)))
    as (w & -> & ->); [| | |done].
  - split; [done|]. split; [simpl; lia|]. split; [simpl; lia|by left].
  - simpl. unfold len. lia.
  - simpl. lia.
Qed.

(** X22. When a square matrix has no more empty cells than the stream
    has bits, [place_data_bits] never reads the bits beyond the number of its
    empty cells: it returns what it returns on the stream cut at that
    number. *)
Theorem place_data_bits_ignores_surplus (N : nat) (m : matrix) (bits : list bool) :
  (0 < N)%nat → shape N N m → (count_none m ≤ length bits)%nat →
  ∃ m' used,
    place_data_bits m (Z.of_nat N) (take (count_none m) bits) = Ok (m', used) ∧
    place_data_bits m (Z.of_nat N) bits = Ok (m', used) ∧
    0 ≤ used ≤ Z.of_nat (count_none m).
Proof.
  intros HN Hm Hcount.
  destruct (place_data_bits_filled N m (take (count_none m) bits) HN Hm)
    as (m' & used & Hp & _ & Hused & _).
  exists m', used. split; [done|]. split.
  - rewrite <- (take_drop (count_none m) bits) at 1.
    rewrite place_data_bits_surplus; [done..|]. rewrite length_take. lia.
  - unfold len in Hused. rewrite length_take in Hused. lia.
Qed.

Lemma place_data_bits_ignores_surplus_witness :
  ∃ m' used,
    place_data_bits [[CInt 1; CNone]; [CNone; CRes]] (Z.of_nat 2)
      (take (count_none [[CInt 1; CNone]; [CNone; CRes]]) [true; false; true; true])
    = Ok (m', used) ∧
    place_data_bits [[CInt 1; CNone]; [CNone; CRes]] (Z.of_nat 2) [true; false; true; true]
    = Ok (m', used) ∧
    0 ≤ used ≤ Z.of_nat (count_none [[CInt 1; CNone]; [CNone; CRes]]).
Proof.
  apply (place_data_bits_ignores_surplus 2).
  - lia.
  - split; [reflexivity|]. repeat constructor.
  - vm_compute. lia.
Defined.

(** A stream of any length on the layout of version 1 or 2. *)
Lemma any_stream_placement (version : Z) (bits : list bool) :
  version = 1 ∨ version = 2 →
  let N := Z.to_nat (17 + 4 * version) in
  ∃ m used,
    place_data_bits (layout_of version) (Z.of_nat N) bits = Ok (m, used) ∧
    used = Z.min (len bits) (if version =? 1 then 208 else 359) ∧
    ∀ i r c, data_cells N (function_map_of version) !! i = Some (r, c) →
      cell_at m r c = Some (CInt (Z.b2z (default false (bits !! i)))).
Proof.
  intros Hv N.
  set (L := if version =? 1 then 208 else 359).
  destruct (Z.le_gt_cases (len bits) L) as [Hle|Hgt].
  - destruct (short_stream_placement version bits Hv Hle) as (m & Hp & _ & Hcells).
    exists m, (len bits). split; [done|]. split; [lia|done].
  - destruct (version_tables version Hv) as (HN & _ & _ & _ & _ & Hl). fold N in HN, Hl.
    assert (Z.of_nat (count_none (layout_of version)) = L) as Hcount.
    { subst L. destruct Hv as [-> | ->]; vm_compute; reflexivity. }
    set (k := count_none (layout_of version)) in *.
    assert (len (take k bits) = L) as Hlen.
    { unfold len in *. rewrite length_take. lia. }
    destruct (data_placement version (take k bits) Hv Hlen) as (m & Hp & Hcells).
    fold N in Hp, Hcells.
    exists m, L. split; [|split; [lia|]].
    + rewrite <- (take_drop k bits).
      rewrite place_data_bits_surplus; [by rewrite Hp, Hlen|destruct HN; lia|done|].
      unfold len in Hlen. lia.
    + intros i r c Hi. destruct (Hcells i r c Hi) as (_ & b & Hb & ->).
      apply lookup_take_Some in Hb as [Hb _]. by rewrite Hb.
Qed.

(** X15. For versions 1 and 2 and a stream of any length,
    [generate_qr_module] returns a matrix in which the [i]-th data cell of
    the zig-zag holds bit [i] of the stream where there is one and 0 where
    the stream is exhausted; the bits beyond the number of data cells are
    not placed. *)
Theorem generate_qr_module_any_stream (version : Z) (bits : list bool) :
  version = 1 ∨ version = 2 →
  ∃ m,
    generate_qr_module bits version = Ok m ∧
    ∀ i r c,
      data_cells (Z.to_nat (17 + 4 * version)) (function_map_of version) !! i = Some (r, c) →
      cell_at m r c = Some (CInt (Z.b2z (default false (bits !! i)))).
Proof.
  intros Hv.
  destruct (version_tables version Hv) as (_ & Hsize & _ & Hlay & _).
  destruct (any_stream_placement version bits Hv) as (m & used & Hp & _ & Hcells).
  exists m. split; [|exact Hcells].
  unfold generate_qr_module. rewrite Hsize, Hlay. cbn [bind]. by rewrite Hp.
Qed.

Lemma generate_qr_module_any_stream_witness :
  ∃ m,
    generate_qr_module [true; true; false; true] 1 = Ok m ∧
    ∀ i r c,
      data_cells (Z.to_nat (17 + 4 * 1)) (function_map_of 1) !! i = Some (r, c) →
      cell_at m r c = Some (CInt (Z.b2z (default false ([true; true; false; true] !! i)))).
Proof. apply (generate_qr_module_any_stream 1 [true; true; false; true]). by left. Defined.
(** ** What the choice of the mask leaves in place *)

(** X23. On a square matrix and a function map of the same shape,
    [find_best_pattern] returns a matrix of that shape in which every
    function cell and every cell that is not an int (a reserved 'R', an
    empty cell) is as in the input, the reserved cells being scored as 0
    without being changed; a data cell [z] is [z ^ 1] where the condition of
    the returned mask holds and [z] elsewhere. *)
Theorem find_best_pattern_keeps_placeholders (n : nat) (m : matrix) (fmap : function_map) :
  (0 < n)%nat → shape n n m → shape n n fmap →
  ∃ out id,
    find_best_pattern m fmap = Ok (out, id) ∧ 0 ≤ id ≤ 7 ∧ shape n n out ∧
    ∀ r c v, cell_at m r c = Some v →
      (cell_at fmap r c = Some true → cell_at out r c = Some v) ∧
      (is_int v = false → cell_at out r c = Some v) ∧
      (∀ z, cell_at fmap r c = Some false → v = CInt z →
         cell_at out r c
         = Some (CInt (if MASK_CONDITION_FUNCTIONS id (Z.of_nat r) (Z.of_nat c)
                       then Z.lxor z 1 else z))).
Proof.
  intros Hn Hm Hf.
  destruct (find_best_pattern_returns n m fmap Hn Hm Hf) as (id & Hfind & Hid).
  exists (masked id fmap m), id. split; [done|]. split; [done|].
  split; [by apply masked_shape|].
  intros r c v Hv. rewrite cell_at_masked, Hv. simpl. unfold masked_cell.
  split; [|split].
  - by intros ->.
  - intros Hint. destruct (cell_at fmap r c) as [[|]|]; [done| |done].
    by destruct v.
  - intros z -> ->. by destruct (MASK_CONDITION_FUNCTIONS id (Z.of_nat r) (Z.of_nat c)).
Qed.

Lemma find_best_pattern_keeps_placeholders_witness :
  ∃ out id,
    find_best_pattern [[CInt 1; CRes]; [CInt 0; CInt 1]] [[false; true]; [false; false]]
    = Ok (out, id) ∧ 0 ≤ id ≤ 7 ∧ shape 2 2 out ∧
    ∀ r c v, cell_at [[CInt 1; CRes]; [CInt 0; CInt 1]] r c = Some v →
      (cell_at [[false; true]; [false; false]] r c = Some true → cell_at out r c = Some v) ∧
      (is_int v = false → cell_at out r c = Some v) ∧
      (∀ z, cell_at [[false; true]; [false; false]] r c = Some false → v = CInt z →
         cell_at out r c
         = Some (CInt (if MASK_CONDITION_FUNCTIONS id (Z.of_nat r) (Z.of_nat c)
                       then Z.lxor z 1 else z))).
Proof.
  apply (find_best_pattern_keeps_placeholders 2).
  - lia.
  - split; [reflexivity|]. repeat constructor.
  - split; [reflexivity|]. repeat constructor.
Defined.

(** ** From the text to the symbol and back *)

Lemma data_cells_length (version : Z) :
  version = 1 ∨ version = 2 →
  Z.of_nat (length (data_cells (Z.to_nat (17 + 4 * version)) (function_map_of version)))
  = (if version =? 1 then 208 else 359).
Proof.
  intros [-> | ->].
  - assert (function_map_of 1 = function_map_v1) as -> by (vm_compute; reflexivity).
    destruct data_cells_v1_spec as (Hcells & _ & Hlen & _).
    change (Z.to_nat (17 + 4 * 1)) with 21%nat. by rewrite Hcells, Hlen.
  - assert (function_map_of 2 = function_map_v2) as -> by (vm_compute; reflexivity).
    destruct data_cells_v2_spec as (Hcells & _ & Hlen & _).
    change (Z.to_nat (17 + 4 * 2)) with 25%nat. by rewrite Hcells, Hlen.
Qed.

(** X24. From the text to the symbol and back. With a codec that returns,
    on the 19-byte message of version 1 with 7 check symbols and on the
    34-byte message of version 2 with 10, bytes as many as the message and
    its check symbols together, for every text that the encoder accepts,
    reading the data cells of the symbol returned by
    [assemble_qr_matrix] in the order of the zig-zag and taking the returned
    mask off gives back the bit stream that was placed, and reading that
    stream as byte mode (count, then bytes) gives back the text. *)
Theorem assemble_qr_matrix_round_trip
    (rs_encode : Z → list Z → list Z) (text : list Z)
    (codewords : list (list bool)) (version : Z) :
  (∀ nsym data,
     (nsym = 7 ∧ length data = 19%nat) ∨ (nsym = 10 ∧ length data = 34%nat) →
     Forall is_byte data →
     length (rs_encode nsym data) = (length data + Z.to_nat nsym)%nat ∧
     Forall is_byte (rs_encode nsym data)) →
  encode_byte_mode text = Ok (codewords, version) →
  ∃ final mask bits,
    assemble_qr_matrix rs_encode text = Ok (final, version, mask) ∧
    final_bitstream rs_encode text = Ok (bits, version) ∧
    read_data_modules final version mask = bits ∧
    decode_stream (read_data_modules final version mask) = text.
Proof.
  intros Hrs Henc.
  pose proof (encode_byte_mode_version text codewords version Henc) as Hv.
  destruct (encode_byte_mode_Ok text codewords version Henc)
    as (Hlatin & Hle & _ & _ & Hcat & _).
  destruct (final_bitstream_parts rs_encode text codewords version Hrs Henc)
    as (tail & Hbits & Hlen).
  set (bits := concat codewords ++ tail) in *.
  destruct (assemble_qr_matrix_data_cells rs_encode text bits version)
    as (final & mask & Hasm & Hmask & Hcells); [done|done|].
  assert (read_data_modules final version mask = bits) as Hread.
  { unfold read_data_modules. apply list_eq. intros i. rewrite list_lookup_fmap.
    destruct (data_cells _ _ !! i) as [[r c]|] eqn:Hi; simpl.
    - destruct (Hcells i r c Hi) as (b & -> & ->). f_equal.
      destruct b, (MASK_CONDITION_FUNCTIONS mask (Z.of_nat r) (Z.of_nat c)); done.
    - symmetry. apply lookup_ge_None. apply lookup_ge_None in Hi.
      pose proof (data_cells_length version Hv) as HL. unfold len in Hlen. lia. }
  exists final, mask, bits. split; [done|]. split; [done|]. split; [done|].
  rewrite Hread. subst bits. rewrite Hcat.
  destruct (spec_data_stream_prefix text (if len text <=? 17 then 19 else 34)) as [rest ->].
  rewrite <- !app_assoc. apply decode_stream_payload; [done|lia].
Qed.

Lemma assemble_qr_matrix_round_trip_witness :
  ∃ final mask bits,
    assemble_qr_matrix RS.rs_encode hello_world = Ok (final, 1, mask) ∧
    final_bitstream RS.rs_encode hello_world = Ok (bits, 1) ∧
    read_data_modules final 1 mask = bits ∧
    decode_stream (read_data_modules final 1 mask) = hello_world.
Proof.
  refine (assemble_qr_matrix_round_trip RS.rs_encode hello_world
            (match encode_byte_mode hello_world with Ok r => r.1 | Raise _ => [] end) 1
            rs_encode_length _).
  vm_compute. reflexivity.
Defined.

(** * The mask of least penalty *)

(** ** The penalty rules compute the scores of the specification *)

Lemma sum_Z_app (l1 l2 : list Z) : sum_Z (l1 ++ l2) = sum_Z l1 + sum_Z l2.
Proof. unfold sum_Z. induction l1 as [|x l1 IH]; simpl; [done|]. rewrite IH. lia. Qed.

Lemma sum_Z_seq_S (g : nat → Z) (k : nat) :
  sum_Z (g <$> seq 0 (S k)) = sum_Z (g <$> seq 0 k) + g k.
Proof. rewrite seq_S, fmap_app, sum_Z_app. unfold sum_Z. simpl. lia. Qed.

(** A loop that adds [g k] to an accumulator at step [k]. *)
Lemma for_each_sum (body : Z → Z → result Z) (g : nat → Z) (n : Z) (p0 : Z) :
  (∀ k p, 0 ≤ k < n → body k p = Ok (p + g (Z.to_nat k))) →
  for_each (seqZ 0 n) body p0 = Ok (p0 + sum_Z (g <$> seq 0 (Z.to_nat n))).
Proof.
  intros Hbody.
  destruct (Z.le_gt_cases 0 n) as [Hn|Hn].
  - destruct (for_each_seqZ_inv (λ k p, 0 ≤ k ∧ p = p0 + sum_Z (g <$> seq 0 (Z.to_nat k)))
                body 0 n p0) as (p & -> & _ & ->); [done| | |done].
    + split; [done|]. unfold sum_Z. simpl. lia.
    + intros k t Hk [_ ->]. eexists. split; [by apply Hbody|]. split; [lia|].
      replace (Z.to_nat (k + 1)) with (S (Z.to_nat k)) by lia.
      rewrite sum_Z_seq_S. lia.
  - rewrite seqZ_nil by lia. replace (Z.to_nat n) with 0%nat by lia.
    unfold sum_Z. simpl. f_equal. lia.
Qed.

(** A sum over a list as a sum over its indices. *)
Lemma sum_Z_indexed {A : Type} (d : A) (f : A → Z) (l : list A) :
  sum_Z (f <$> l) = sum_Z ((λ i, f (default d (l !! i))) <$> seq 0 (length l)).
Proof.
  rewrite (list_tabulate d (length l) l eq_refl) at 1.
  by rewrite <- list_fmap_compose.
Qed.

Lemma runs_replicate (k : nat) (x : cell) : runs (replicate (S k) x) = [S k].
Proof.
  induction k as [|k IH]; [done|].
  change (replicate (S (S k)) x) with (x :: replicate (S k) x).
  cbn [runs]. rewrite IH. by rewrite bool_decide_eq_true_2.
Qed.

Lemma runs_cons_nonempty (x : cell) (l : list cell) : runs (x :: l) ≠ [].
Proof. cbn [runs]. destruct (runs l); [done|]. by case_bool_decide. Qed.

Lemma runs_replicate_app (k : nat) (x y : cell) (l : list cell) :
  x ≠ y → runs (replicate (S k) x ++ y :: l) = S k :: runs (y :: l).
Proof.
  intros Hxy. induction k as [|k IH].
  - change (replicate 1 x ++ y :: l) with (x :: y :: l).
    cbn [runs head]. fold (runs l).
    destruct (runs (y :: l)) as [|k' ks] eqn:E; [by apply runs_cons_nonempty in E|].
    cbn [runs] in E. rewrite E. rewrite bool_decide_eq_false_2; [done|congruence].
  - change (replicate (S (S k)) x ++ y :: l) with (x :: (replicate (S k) x ++ y :: l)).
    cbn [runs]. rewrite IH. by rewrite bool_decide_eq_true_2.
Qed.

(** The inner loop of Rule 1 from any position of a line: [count] modules of
    colour [cur] have been seen in the current run. *)
Lemma rule1_scan (get : Z → result cell) (l : list cell) :
  ∀ (a : Z) (k : nat) (cur : cell) (pen : Z),
    (∀ (i : nat) v, l !! i = Some v → get (a + Z.of_nat i) = Ok v) →
    ∃ count cur' pen',
      for_each (seqZ a (len l))
        (λ j (st : Z * cell * Z),
           let '(count, current_val, penalty) := st in
           v <- get j ;;
           if cell_eqb v current_val then Ok (count + 1, current_val, penalty)
           else
             let penalty := if 5 <=? count then penalty + (3 + (count - 5)) else penalty in
             v' <- get j ;;
             Ok (1, v', penalty))
        (Z.of_nat (S k), cur, pen) = Ok (count, cur', pen') ∧
      (if 5 <=? count then pen' + (3 + (count - 5)) else pen')
      = pen + spec_N1_line (replicate (S k) cur ++ l).
Proof.
  induction l as [|v l IH]; intros a k cur pen Hget.
  - exists (Z.of_nat (S k)), cur, pen. split; [done|].
    rewrite app_nil_r. unfold spec_N1_line. rewrite runs_replicate.
    unfold spec_run_score, sum_Z. cbn [fmap list_fmap foldr].
    destruct (Z.leb_spec 5 (Z.of_nat (S k))), (Nat.leb_spec 5 (S k)); lia.
  - unfold len. rewrite seqZ_cons by (cbn [length]; lia).
    cbn [for_each]. pose proof (Hget 0%nat v eq_refl) as H0.
    rewrite Z.add_0_r in H0. rewrite H0. cbn [bind].
    replace (Z.pred (Z.of_nat (length (v :: l)))) with (len l) by (unfold len; cbn [length]; lia).
    assert (∀ (i : nat) w, l !! i = Some w → get (Z.succ a + Z.of_nat i) = Ok w) as Hget'.
    { intros i w Hi. replace (Z.succ a + Z.of_nat i) with (a + Z.of_nat (S i)) by lia.
      by apply Hget. }
    unfold cell_eqb. case_bool_decide as Hv.
    + subst v. cbn [bind].
      destruct (IH (Z.succ a) (S k) cur pen Hget') as (count & cur' & pen' & Hrun & Hres).
      replace (Z.of_nat (S k) + 1) with (Z.of_nat (S (S k))) by lia.
      exists count, cur', pen'. split; [done|]. rewrite Hres.
      change (replicate (S (S k)) cur) with (cur :: replicate (S k) cur).
      by rewrite replicate_cons_app, <- app_assoc.
    + cbn [bind].
      destruct (IH (Z.succ a) 0%nat v
                  (if 5 <=? Z.of_nat (S k) then pen + (3 + (Z.of_nat (S k) - 5)) else pen) Hget')
        as (count & cur' & pen' & Hrun & Hres).
      exists count, cur', pen'. split; [done|]. rewrite Hres.
      unfold spec_N1_line. rewrite runs_replicate_app by congruence.
      change (replicate 1 v ++ l) with (v :: l).
      unfold sum_Z. cbn [fmap list_fmap foldr]. unfold spec_run_score at 2.
      destruct (Z.leb_spec 5 (Z.of_nat (S k))), (Nat.leb_spec 5 (S k)); lia.
Qed.

(** One scan line of Rule 1 adds the score of the runs of the line. *)
Lemma rule1_line_spec (get : Z → result cell) (l : list cell) (penalty : Z) :
  (∀ (i : nat) v, l !! i = Some v → get (Z.of_nat i) = Ok v) →
  rule1_line (len l) get penalty = Ok (penalty + spec_N1_line l).
Proof.
  intros Hget. unfold rule1_line, range2.
  destruct l as [|x l].
  - change (len (@nil cell)) with 0. change (0 <? 0) with false. change (seqZ 1 (0 - 1)) with (@nil Z).
    cbn. f_equal. lia.
  - assert ((0 <? len (x :: l)) = true) as -> by (apply Z.ltb_lt; unfold len; cbn [length]; lia).
    pose proof (Hget 0%nat x eq_refl) as H0. change (Z.of_nat 0) with 0 in H0.
    rewrite H0. cbn [bind].
    replace (len (x :: l) - 1) with (len l) by (unfold len; cbn [length]; lia).
    destruct (rule1_scan get l 1 0%nat x penalty) as (count & cur' & pen' & Hrun & Hres).
    { intros i v Hi. replace (1 + Z.of_nat i) with (Z.of_nat (S i)) by lia. by apply Hget. }
    change (Z.of_nat 1) with 1 in Hrun. cbv zeta in Hrun. rewrite Hrun. cbn [bind]. by rewrite Hres.
Qed.

Lemma row_lookup_cell {A : Type} (m : list (list A)) (r i : nat) (row : list A) (v : A) :
  m !! r = Some row → row !! i = Some v → cell_at m r i = Some v.
Proof. intros Hr Hi. unfold cell_at. by rewrite Hr. Qed.

Lemma column_lookup_cell (N : nat) (m : matrix) (c i : nat) (v : cell) :
  shape N N m → (c < N)%nat →
  ((λ row : list cell, default CNone (row !! c)) <$> m) !! i = Some v →
  cell_at m i c = Some v.
Proof.
  intros Hm Hc Hi. rewrite list_lookup_fmap in Hi.
  destruct (m !! i) as [row|] eqn:Hrow; [|done]. simpl in Hi.
  unfold cell_at. rewrite Hrow. simpl.
  assert (length row = N) as Hlen.
  { destruct Hm as [_ Hall]. rewrite Forall_lookup in Hall. by apply (Hall i). }
  destruct (lookup_lt_is_Some_2 row c) as [w Hw]; [lia|].
  rewrite Hw in Hi |- *. simpl in Hi. congruence.
Qed.

Lemma sum_Z_rows {A : Type} (f : list A → Z) (N : nat) (m : list (list A)) :
  length m = N →
  sum_Z ((λ r, f (default [] (m !! r))) <$> seq 0 N) = sum_Z (f <$> m).
Proof. intros <-. symmetry. apply sum_Z_indexed. Qed.

(** Rule 1 is N1. *)
Lemma _calculate_penalty_rule1_spec (N : nat) (m : matrix) :
  shape N N m → _calculate_penalty_rule1 m = Ok (spec_N1 N m).
Proof.
  intros Hm. unfold _calculate_penalty_rule1, range.
  assert (len m = Z.of_nat N) as Hlen by (unfold len; by rewrite (proj1 Hm)).
  rewrite Hlen.
  rewrite (for_each_sum _ (λ r, spec_N1_line (default [] (m !! r))) (Z.of_nat N) 0).
  2:{ intros k p Hk.
      destruct (shape_lookup N N m (Z.to_nat k) Hm) as (row & Hrow & Hrl); [lia|].
      rewrite Hrow. cbn [default].
      replace (Z.of_nat N) with (len row) by (unfold len; lia).
      apply rule1_line_spec. intros i v Hi.
      replace k with (Z.of_nat (Z.to_nat k)) by lia.
      apply mget_cell_at. by eapply row_lookup_cell. }
  cbn [bind]. rewrite Nat2Z.id, (sum_Z_rows spec_N1_line N m (proj1 Hm)).
  rewrite (for_each_sum _
             (λ c, spec_N1_line ((λ row : list cell, default CNone (row !! c)) <$> m))
             (Z.of_nat N)).
  2:{ intros k p Hk.
      replace (Z.of_nat N)
        with (len ((λ row : list cell, default CNone (row !! Z.to_nat k)) <$> m))
        by (unfold len; rewrite length_fmap, (proj1 Hm); lia).
      apply rule1_line_spec. intros i v Hi.
      replace k with (Z.of_nat (Z.to_nat k)) at 1 by lia.
      apply mget_cell_at. apply (column_lookup_cell N); [done|lia|done]. }
  rewrite Nat2Z.id. unfold spec_N1, columns. f_equal.
  rewrite <- list_fmap_compose. unfold compose. lia.
Qed.

(** Rule 2 is N2. *)
Lemma _calculate_penalty_rule2_spec (N : nat) (m : matrix) :
  shape N N m → _calculate_penalty_rule2 m = Ok (spec_N2 N m).
Proof.
  intros Hm. unfold _calculate_penalty_rule2, range.
  assert (len m = Z.of_nat N) as Hlen by (unfold len; by rewrite (proj1 Hm)).
  rewrite Hlen.
  rewrite (for_each_sum _
             (λ r, sum_Z ((λ c, if bool_decide (block_of_one_colour m r c) then 3 else 0)
                            <$> seq 0 (N - 1))) (Z.of_nat N - 1) 0).
  - unfold spec_N2. do 2 f_equal. replace (Z.to_nat (Z.of_nat N - 1)) with (N - 1)%nat by lia.
    done.
  - intros r p Hr.
    rewrite (for_each_sum _
               (λ c, if bool_decide (block_of_one_colour m (Z.to_nat r) c) then 3 else 0)
               (Z.of_nat N - 1) p).
    + by replace (Z.to_nat (Z.of_nat N - 1)) with (N - 1)%nat by lia.
    + intros c q Hc.
      destruct (shape_cell_at N N m (Z.to_nat r) (Z.to_nat c) Hm) as [a Ha]; [lia|lia|].
      destruct (shape_cell_at N N m (Z.to_nat r + 1) (Z.to_nat c) Hm) as [b Hb]; [lia|lia|].
      destruct (shape_cell_at N N m (Z.to_nat r) (Z.to_nat c + 1) Hm) as [d Hd]; [lia|lia|].
      destruct (shape_cell_at N N m (Z.to_nat r + 1) (Z.to_nat c + 1) Hm) as [e He];
        [lia|lia|].
      pose proof (mget_cell_at m _ _ _ Ha) as Ga.
      pose proof (mget_cell_at m _ _ _ Hb) as Gb.
      pose proof (mget_cell_at m _ _ _ Hd) as Gd.
      pose proof (mget_cell_at m _ _ _ He) as Ge.
      assert (Z.of_nat (Z.to_nat r) = r) as Er by lia.
      assert (Z.of_nat (Z.to_nat r + 1) = r + 1) as Er1 by lia.
      assert (Z.of_nat (Z.to_nat c) = c) as Ec by lia.
      assert (Z.of_nat (Z.to_nat c + 1) = c + 1) as Ec1 by lia.
      rewrite ?Er, ?Er1, ?Ec, ?Ec1 in Ga. rewrite ?Er, ?Er1, ?Ec, ?Ec1 in Gb.
      rewrite ?Er, ?Er1, ?Ec, ?Ec1 in Gd. rewrite ?Er, ?Er1, ?Ec, ?Ec1 in Ge.
      assert (block_of_one_colour m (Z.to_nat r) (Z.to_nat c) ↔ a = b ∧ a = d ∧ a = e)
        as Hblock.
      { unfold block_of_one_colour. rewrite Ha, Hb, Hd, He.
        split; [intros (H1 & H2 & H3); repeat split; congruence|].
        by intros (<- & <- & <-). }
      rewrite (bool_decide_ext _ _ Hblock).
      rewrite Ga, Gb. cbn [bind]. unfold cell_eqb.
      destruct (decide (a = b)) as [->|Hab].
      2:{ rewrite !bool_decide_eq_false_2; [f_equal; lia| |done]. by intros [H1 _]. }
      rewrite (bool_decide_eq_true_2 (b = b)) by done. rewrite Gd. cbn [bind].
      destruct (decide (b = d)) as [->|Hbd].
      2:{ rewrite !bool_decide_eq_false_2; [f_equal; lia| |done]. by intros (_ & H2 & _). }
      rewrite (bool_decide_eq_true_2 (d = d)) by done. rewrite Ge. cbn [bind].
      destruct (decide (d = e)) as [->|Hde].
      * rewrite !bool_decide_eq_true_2; done.
      * rewrite !bool_decide_eq_false_2; [f_equal; lia| |done]. by intros (_ & _ & H3).
Qed.

Lemma matches_finder_like_spec (w : list cell) :
  matches_finder_like w = bool_decide (w ∈ finder_like_windows).
Proof.
  unfold matches_finder_like, patterns_to_check_horizontal, finder_like_windows.
  cbn [existsb]. rewrite orb_false_r.
  destruct (decide (w = CInt <$> [0; 0; 0; 0; 1; 0; 1; 1; 1; 0; 1])) as [->|H1].
  { rewrite bool_decide_eq_true_2 by done. symmetry. apply bool_decide_eq_true_2.
    apply elem_of_cons. right. apply elem_of_cons. by left. }
  rewrite (bool_decide_eq_false_2 _ H1). cbn [orb].
  destruct (decide (w = CInt <$> [1; 0; 1; 1; 1; 0; 1; 0; 0; 0; 0])) as [->|H2].
  { rewrite bool_decide_eq_true_2 by done. symmetry. apply bool_decide_eq_true_2.
    apply elem_of_cons. by left. }
  rewrite (bool_decide_eq_false_2 _ H2). symmetry. apply bool_decide_eq_false_2.
  intros Hin. apply elem_of_cons in Hin as [?|Hin]; [done|].
  apply elem_of_cons in Hin as [?|Hin]; [done|]. by apply elem_of_nil in Hin.
Qed.

(** A comprehension that reads consecutive positions of a list is a slice
    of the list. *)
Lemma list_comprehension_slice {A : Type} (f : Z → result A) (l : list A) (n : nat) :
  ∀ a : nat,
    (a + n ≤ length l)%nat →
    (∀ (i : nat) v, l !! i = Some v → f (Z.of_nat i) = Ok v) →
    list_comprehension (seqZ (Z.of_nat a) (Z.of_nat n)) f = Ok (take n (drop a l)).
Proof.
  induction n as [|n IH]; intros a Ha Hf; [done|].
  rewrite seqZ_cons by lia. cbn [list_comprehension].
  destruct (lookup_lt_is_Some_2 l a) as [v Hv]; [lia|].
  rewrite (Hf a v Hv). cbn [bind].
  replace (Z.succ (Z.of_nat a)) with (Z.of_nat (S a)) by lia.
  replace (Z.pred (Z.of_nat (S n))) with (Z.of_nat n) by lia.
  rewrite (IH (S a)) by (done || lia). cbn [bind].
  by rewrite (drop_S l v a Hv).
Qed.

(** Rule 3 is N3. *)
Lemma _calculate_penalty_rule3_spec (N : nat) (m : matrix) :
  shape N N m → _calculate_penalty_rule3 m = Ok (spec_N3 N m).
Proof.
  intros Hm. unfold _calculate_penalty_rule3, range.
  assert (len m = Z.of_nat N) as Hlen by (unfold len; by rewrite (proj1 Hm)).
  rewrite Hlen. change (Z.to_nat 11) with 11%nat.
  assert (Z.to_nat (Z.of_nat N - 11 + 1) = (N - 10)%nat) as HW by lia.
  rewrite (for_each_sum _ (λ r, spec_N3_line (default [] (m !! r))) (Z.of_nat N) 0).
  2:{ intros r p Hr.
      destruct (shape_lookup N N m (Z.to_nat r) Hm) as (row & Hrow & Hrl); [lia|].
      rewrite Hrow. change (default [] (Some row)) with row.
      rewrite (for_each_sum _
                 (λ c, if bool_decide (take 11 (drop c row) ∈ finder_like_windows)
                       then 40 else 0)
                 (Z.of_nat N - 11 + 1) p).
      - rewrite HW. unfold spec_N3_line, windows. rewrite Hrl.
        by rewrite <- list_fmap_compose.
      - intros c q Hc.
        pose proof (getitem_lookup m (Z.to_nat r) row Hrow) as Hg.
        rewrite Z2Nat.id in Hg by lia. rewrite Hg. cbn [bind].
        rewrite matches_finder_like_spec. case_bool_decide; f_equal; lia. }
  cbn [bind]. rewrite Nat2Z.id, (sum_Z_rows spec_N3_line N m (proj1 Hm)).
  rewrite (for_each_sum _
             (λ c, spec_N3_line ((λ row : list cell, default CNone (row !! c)) <$> m))
             (Z.of_nat N)).
  2:{ intros c p Hc.
      rewrite (for_each_sum _
                 (λ r, if bool_decide
                            (take 11 (drop r ((λ row : list cell,
                                                 default CNone (row !! Z.to_nat c)) <$> m))
                             ∈ finder_like_windows)
                       then 40 else 0)
                 (Z.of_nat N - 11 + 1) p).
      - rewrite HW. unfold spec_N3_line, windows. rewrite length_fmap, (proj1 Hm).
        by rewrite <- list_fmap_compose.
      - intros r q Hr. unfold range2.
        replace (r + 11 - r) with (Z.of_nat 11) by lia.
        replace r with (Z.of_nat (Z.to_nat r)) at 1 by lia.
        rewrite (list_comprehension_slice (λ k, mget m k c)
                   ((λ row : list cell, default CNone (row !! Z.to_nat c)) <$> m)).
        + cbn [bind]. rewrite matches_finder_like_spec. case_bool_decide; f_equal; lia.
        + rewrite length_fmap, (proj1 Hm). lia.
        + intros i v Hi. replace c with (Z.of_nat (Z.to_nat c)) by lia.
          apply mget_cell_at. apply (column_lookup_cell N); [done|lia|done]. }
  rewrite Nat2Z.id. unfold spec_N3, columns. f_equal.
  rewrite <- list_fmap_compose. unfold compose. lia.
Qed.

Lemma spec_dark_modules_eq (m : matrix) : dark_modules m = spec_dark_modules m.
Proof.
  unfold dark_modules, spec_dark_modules.
  induction m as [|row m IH]; [done|].
  cbn [fmap list_fmap foldr concat]. rewrite filter_app, length_app, IH.
  unfold count_dark, len. lia.
Qed.

(** Rule 4 is N4 on the two sizes. *)
Lemma _calculate_penalty_rule4_spec (N : nat) (m : matrix) :
  N = 21%nat ∨ N = 25%nat → shape N N m → _calculate_penalty_rule4 m = spec_N4 N m.
Proof.
  intros HN Hm.
  pose proof (dark_modules_bounds N N m Hm) as Hd.
  assert (_calculate_penalty_rule4 m = penalty_rule4_of_counts (len m) (dark_modules m))
    as -> by reflexivity.
  assert (len m = Z.of_nat N) as -> by (unfold len; by rewrite (proj1 Hm)).
  assert (rule4_exact_for (Z.of_nat N) = true) as Hall
    by (destruct HN as [-> | ->]; apply rule4_exact_sizes).
  unfold rule4_exact_for in Hall. rewrite forallb_forall in Hall.
  specialize (Hall (dark_modules m)).
  rewrite Z.eqb_eq in Hall. rewrite Hall by (apply list_elem_of_In, elem_of_seqZ; lia).
  unfold exact_penalty_rule4, spec_N4. by rewrite spec_dark_modules_eq.
Qed.

(** The total of [calculate_total_penalty_score] is the four-rule total. *)
Lemma calculate_total_penalty_score_spec (N : nat) (m : matrix) :
  N = 21%nat ∨ N = 25%nat → shape N N m →
  calculate_total_penalty_score m
  = Ok (spec_penalty_total N m, [spec_N1 N m; spec_N2 N m; spec_N3 N m; spec_N4 N m]).
Proof.
  intros HN Hm. unfold calculate_total_penalty_score.
  destruct m as [|row0 m'] eqn:E.
  { destruct Hm as [Hl _]. cbn in Hl. destruct HN; lia. }
  rewrite bool_decide_eq_false_2.
  2:{ intros ->. destruct Hm as [_ Hall]. apply Forall_cons in Hall as [Hrow _].
      cbn in Hrow. destruct HN; lia. }
  rewrite <- E in *. clear E.
  rewrite (_calculate_penalty_rule1_spec N m Hm). cbn [bind].
  rewrite (_calculate_penalty_rule2_spec N m Hm). cbn [bind].
  rewrite (_calculate_penalty_rule3_spec N m Hm). cbn [bind].
  rewrite (_calculate_penalty_rule4_spec N m HN Hm).
  unfold spec_penalty_total. cbn [foldr]. do 2 f_equal. lia.
Qed.

Lemma reserved_as_light_int_or_zero (m : matrix) : int_or_zero m = reserved_as_light m.
Proof.
  unfold int_or_zero, reserved_as_light.
  apply list_fmap_ext. intros _ row _. apply list_fmap_ext. intros _ v _. by destruct v.
Qed.

Lemma matrix_ext {A : Type} (a b : list (list A)) :
  length a = length b → (∀ r c, cell_at a r c = cell_at b r c) → a = b.
Proof.
  intros Hl H. apply list_eq. intros r.
  destruct (a !! r) as [ra|] eqn:Ha, (b !! r) as [rb|] eqn:Hb.
  - f_equal. apply list_eq. intros c. specialize (H r c). unfold cell_at in H.
    by rewrite Ha, Hb in H.
  - apply lookup_lt_Some in Ha. apply lookup_ge_None in Hb. lia.
  - apply lookup_lt_Some in Hb. apply lookup_ge_None in Ha. lia.
  - done.
Qed.

(** When the cells without a bit are function cells, scoring them as light
    before masking, as the loop does, or after masking gives one matrix. *)
Lemma masked_int_or_zero (p : Z) (fmap : function_map) (m : matrix) :
  placeholders_in_function_cells m fmap →
  masked p fmap (int_or_zero m) = int_or_zero (masked p fmap m).
Proof.
  intros H. apply matrix_ext.
  - unfold masked, int_or_zero. by rewrite length_imap, !length_fmap, length_imap.
  - intros r c. rewrite cell_at_masked, !cell_at_int_or_zero, cell_at_masked.
    destruct (cell_at m r c) as [v|] eqn:E; [|done].
    cbn [base.fmap option_fmap option_map]. f_equal. unfold masked_cell.
    destruct v as [z| |].
    + cbn [is_int]. destruct (cell_at fmap r c) as [[|]|]; cbn [is_int]; try done.
      by destruct (MASK_CONDITION_FUNCTIONS p (Z.of_nat r) (Z.of_nat c)).
    + rewrite (H r c CRes E eq_refl). done.
    + rewrite (H r c CNone E eq_refl). done.
Qed.

(** The score the loop of [find_best_pattern] gives a mask is the four-rule
    total of the masked matrix, its cells without a bit scored as light. *)
Lemma mask_score_spec (N : nat) (m : matrix) (fmap : function_map) (p : Z) :
  N = 21%nat ∨ N = 25%nat → shape N N m → shape N N fmap →
  placeholders_in_function_cells m fmap → 0 ≤ p ≤ 7 →
  mask_score m fmap p = Ok (spec_penalty_total N (reserved_as_light (masked p fmap m))).
Proof.
  intros HN Hm Hf Hres Hp. unfold mask_score.
  rewrite (apply_specific_mask_pattern_masked p _ fmap N N);
    [|done|destruct HN; lia|by apply int_or_zero_shape|done].
  cbn [bind]. rewrite (masked_int_or_zero p fmap m Hres).
  rewrite (calculate_total_penalty_score_spec N);
    [|done|by apply int_or_zero_shape, masked_shape].
  cbn [bind fst]. by rewrite reserved_as_light_int_or_zero.
Qed.

(** A run of six dark modules scores 4; each of the two windows scores 40;
    a dark 2 x 2 matrix is one block. *)
Example spec_N1_line_run_of_six :
  spec_N1_line (CInt <$> [0; 1; 1; 1; 1; 1; 1; 0; 0]) = 4.
Proof. reflexivity. Qed.

Example spec_N3_line_windows :
  spec_N3_line (CInt <$> [1; 0; 1; 1; 1; 0; 1; 0; 0; 0; 0; 1; 0; 1; 1; 1; 0; 1]) = 80.
Proof. vm_compute. reflexivity. Qed.

Example spec_N2_one_block : spec_N2 2 [[CInt 1; CInt 1]; [CInt 1; CInt 1]] = 3.
Proof. vm_compute. reflexivity. Qed.

(** The four scores of the pre-format matrix of version 1 under mask 0. *)
Example spec_penalty_total_pre_format_v1 :
  let mm := reserved_as_light (masked 0 function_map_v1 pre_format_v1) in
  (spec_N1 21 mm, spec_N2 21 mm, spec_N3 21 mm, spec_N4 21 mm)
  = (158, 111, 0, 0).
Proof. vm_compute. reflexivity. Qed.

(** ** The choice of [find_best_pattern] *)

(** A pre-format matrix of version 1 or 2, whatever the stream, has the side
    of its version, and its cells without a bit are function cells of the
    function map of the version. *)
Lemma generate_qr_module_placeholders (version : Z) (bits : list bool) :
  version = 1 ∨ version = 2 →
  ∃ m fmap,
    generate_qr_module bits version = Ok m ∧
    create_function_pattern_matrix version = Ok fmap ∧
    shape (Z.to_nat (17 + 4 * version)) (Z.to_nat (17 + 4 * version)) m ∧
    shape (Z.to_nat (17 + 4 * version)) (Z.to_nat (17 + 4 * version)) fmap ∧
    placeholders_in_function_cells m fmap.
Proof.
  intros Hv.
  destruct (version_tables version Hv) as (HN & Hsize & Hfm & Hlay & Hfs & Hls).
  cbv zeta in HN, Hsize, Hfm, Hlay, Hfs, Hls.
  assert (0 < Z.to_nat (17 + 4 * version))%nat as Hpos by (destruct HN; lia).
  destruct (place_data_bits_filled _ (layout_of version) bits Hpos Hls)
    as (m & used & Hp & Hm & _ & Hf & Hfull).
  exists m, (function_map_of version).
  split; [|split; [done|split; [done|split; [done|]]]].
  - unfold generate_qr_module. rewrite Hsize, Hlay. cbn [bind]. by rewrite Hp.
  - intros r c v Hcell Hint.
    destruct (filled_cell version m r c v Hv Hf Hfull Hm Hcell) as (v0 & Hv0 & Hcase).
    destruct (layout_cells version r c v0 Hv Hv0) as (_ & Hfc & _).
    rewrite Hfc. destruct (is_none v0) eqn:E0; [|done].
    by destruct Hcase as [-> | ->].
Qed.

Lemma pre_format_v1_shape : shape 21 21 pre_format_v1.
Proof. split; [reflexivity|repeat constructor]. Qed.

Lemma pre_format_v1_placeholders :
  placeholders_in_function_cells pre_format_v1 function_map_v1.
Proof.
  assert (forallb (λ r, forallb (λ c, match cell_at pre_format_v1 r c with
                                      | Some v =>
                                          is_int v
                                          || bool_decide (cell_at function_map_v1 r c
                                                          = Some true)
                                      | None => true
                                      end) (seq 0 21)) (seq 0 21) = true) as Hall
    by (vm_compute; reflexivity).
  intros r c v Hcell Hint.
  pose proof (forall_cells 21 pre_format_v1
                (λ r c v, is_int v
                          || bool_decide (cell_at function_map_v1 r c = Some true))
                pre_format_v1_shape Hall r c v Hcell) as H.
  cbv beta in H. rewrite Hint in H. by apply bool_decide_eq_true in H.
Qed.

(** C2. Let [m] be a matrix of side 21 or 25, the sides of the two versions
    the encoder selects, with a function map of that side, in which the
    cells that hold no bit yet are function cells, as in a pre-format matrix
    with its function map. Then [find_best_pattern] returns [m] masked with
    a mask id in 0..7 such that the four-rule penalty total N1 + N2 + N3 +
    N4 of the masked matrix, its still-reserved cells scored as light, is at
    most the total of [m] masked with any id in 0..7, and an id that reaches
    an equal total is not lower than the returned id. *)
Theorem find_best_pattern_minimal_first (N : nat) (m : matrix) (fmap : function_map) :
  N = 21%nat ∨ N = 25%nat → shape N N m → shape N N fmap →
  placeholders_in_function_cells m fmap →
  ∃ out id,
    find_best_pattern m fmap = Ok (out, id) ∧
    0 ≤ id ≤ 7 ∧
    apply_specific_mask_pattern id m fmap = Ok out ∧
    ∀ q, 0 ≤ q ≤ 7 →
      ∃ mq,
        apply_specific_mask_pattern q m fmap = Ok mq ∧
        spec_penalty_total N (reserved_as_light out)
        ≤ spec_penalty_total N (reserved_as_light mq) ∧
        (spec_penalty_total N (reserved_as_light mq)
         = spec_penalty_total N (reserved_as_light out) → id ≤ q).
Proof.
  intros HN Hm Hf Hres.
  assert (0 < N)%nat as Hpos by (destruct HN; lia).
  destruct (find_best_pattern_minimal_score N m fmap Hpos Hm Hf)
    as (out & id & sid & Hfind & Hid & Hout & Hsid & Hall).
  rewrite (apply_specific_mask_pattern_masked id m fmap N N Hid Hpos Hm Hf) in Hout.
  injection Hout as <-.
  rewrite (mask_score_spec N m fmap id HN Hm Hf Hres Hid) in Hsid. injection Hsid as <-.
  exists (masked id fmap m), id.
  split; [done|]. split; [done|].
  split; [by apply (apply_specific_mask_pattern_masked id m fmap N N)|].
  intros q Hq. destruct (Hall q Hq) as (sq & Hsq & Hle & Hfirst).
  rewrite (mask_score_spec N m fmap q HN Hm Hf Hres Hq) in Hsq. injection Hsq as <-.
  exists (masked q fmap m).
  split; [by apply (apply_specific_mask_pattern_masked q m fmap N N)|]. done.
Qed.

Lemma find_best_pattern_minimal_first_witness :
  ∃ out id,
    find_best_pattern pre_format_v1 function_map_v1 = Ok (out, id) ∧
    0 ≤ id ≤ 7 ∧
    apply_specific_mask_pattern id pre_format_v1 function_map_v1 = Ok out ∧
    ∀ q, 0 ≤ q ≤ 7 →
      ∃ mq,
        apply_specific_mask_pattern q pre_format_v1 function_map_v1 = Ok mq ∧
        spec_penalty_total 21 (reserved_as_light out)
        ≤ spec_penalty_total 21 (reserved_as_light mq) ∧
        (spec_penalty_total 21 (reserved_as_light mq)
         = spec_penalty_total 21 (reserved_as_light out) → id ≤ q).
Proof.
  apply (find_best_pattern_minimal_first 21 pre_format_v1 function_map_v1).
  - by left.
  - exact pre_format_v1_shape.
  - exact function_map_v1_shape.
  - exact pre_format_v1_placeholders.
Defined.
